(** * IERAS accident-detection pipeline: a shallow embedding

    The development follows the three Python modules of the AI side of the
    repository:

    - [engine/object_detection.py]  -> [Module Deque], [Module Detector]
    - [engine/multithreading_tracker.py] -> [Module Tracker]
    - [main.py] -> [Module Uploader], [Module Coordinator]

    Conventions.
    - Python [int]s are [Z]; the readings of [time.time()] are rationals
      ([Q], seconds since the epoch): every finite float is a rational and
      the code only subtracts and compares them.  Each call of
      [time.time()] is an explicit input of the function that makes it.
    - The file system is the finite set of the paths that exist.
    - The record store, the storage bucket and the child processes are
      external collaborators: the calls made to them are returned as a
      trace of [Effect]s, their results are inputs (an environment record).
    - Mutable objects ([self], the per-camera [state] dicts) are threaded
      explicitly: a method returns the updated object.
    - The capture threads are a transition system: a state holds the
      shared queue and the control point of every thread, and a schedule
      says which thread moves next. *)

From Stdlib Require Import ZArith QArith Lqa Lia Ascii DecimalString.
From stdpp Require Import gmap strings list fin_maps sorting.

#[local] Open Scope Z_scope.

(** ** Time and text helpers *)

(** [x < y] on clock readings, as a boolean. *)
Definition Qltb (x y : Q) : bool := negb (Qle_bool y x).

(** Python's [int(x)] on a float: truncation toward zero. *)
Definition int_of_time (t : Q) : Z := Z.quot (Qnum t) (Z.pos (Qden t)).

(** Python's [str(n)] on an int. *)
Definition str_of_int (n : Z) : string := NilZero.string_of_int (Z.to_int n).

(** Rounding to the nearest integer, ties to even: the integer printed by
    the format [{x:.0f}]. *)
Definition round_half_even (q : Q) : Z :=
  let n := Qnum q in
  let d := Z.pos (Qden q) in
  let f := n / d in
  let r := n mod d in
  match (2 * r) ?= d with
  | Lt => f
  | Gt => f + 1
  | Eq => if Z.even f then f else f + 1
  end.

(** [f"{q:.0f}"]; a negative value that rounds to zero prints as [-0]. *)
Definition fmt_0f (q : Q) : string :=
  let z := round_half_even q in
  if (z =? 0) && Qltb q 0 then "-0"%string else str_of_int z.

(** [s.replace(old, new)] for a non-empty [old]: the occurrences of [old]
    are replaced from left to right, without overlap.  [skip] counts the
    characters of a matched occurrence still to be dropped. *)
Fixpoint replace_go (old new : string) (skip : nat) (s : string) : string :=
  match s with
  | EmptyString => EmptyString
  | String c s' =>
      match skip with
      | S k => replace_go old new k s'
      | O =>
          if String.prefix old s
          then (new ++ replace_go old new (String.length old - 1) s')%string
          else String c (replace_go old new 0 s')
      end
  end.

Definition str_replace (old new s : string) : string := replace_go old new 0 s.

(** Every character of [s] satisfies [P]. *)
Fixpoint str_forallb (P : Ascii.ascii -> bool) (s : string) : bool :=
  match s with
  | EmptyString => true
  | String c s' => P c && str_forallb P s'
  end.

(** The characters [str(n)] is made of: the decimal digits and the sign. *)
Definition is_num_char (c : Ascii.ascii) : bool :=
  bool_decide (c ∈ String.list_ascii_of_string "0123456789-").

(** ** [collections.deque(maxlen=n)] *)

Module Deque.

Record t (A : Type) : Type := mk { maxlen : Z; items : list A }.
Arguments mk {A} _ _.
Arguments maxlen {A} _.
Arguments items {A} _.

(** [deque(maxlen=n)] raises [ValueError] when [n] is negative. *)
Definition new {A : Type} (n : Z) : option (t A) :=
  if n <? 0 then None else Some (mk n []).

(** [d.append(x)]: the item is added on the right; when the deque then
    holds more than [maxlen] items, the leftmost one is discarded. *)
Definition append {A : Type} (d : t A) (x : A) : t A :=
  let l := items d ++ [x] in
  mk (maxlen d)
     (if maxlen d <? Z.of_nat (length l) then tail l else l).

End Deque.

(** ** The file system *)

(** The regular files that exist, by path.  Directories are not among
    them: [os.makedirs("events", exist_ok=True)] leaves an [FS] as it
    is. *)
Abbreviation FS := (gset string).

Definition path_exists (fs : FS) (p : string) : bool := bool_decide (p ∈ fs).

(** [os.remove(p)] and [os.rename(src, dst)] on existing paths. *)
Definition fs_remove (fs : FS) (p : string) : FS := fs ∖ {[ p ]}.
Definition fs_rename (fs : FS) (src dst : string) : FS :=
  {[ dst ]} ∪ (fs ∖ {[ src ]}).
Definition fs_create (fs : FS) (p : string) : FS := {[ p ]} ∪ fs.

(** ** [engine/object_detection.py] *)

Module Detector.

(** The events of [process_frame] are dicts [{"type", "time"}], those of
    [handle_clip] are dicts [{"type", "clip_path"}]. *)
Inductive Event : Type :=
| Accident (time : Q)
| ClipReady (clip_path : string).

Definition ev_type (e : Event) : string := "ACCIDENT".

(** [ev.get("clip_path")] *)
Definition ev_clip_path (e : Event) : option string :=
  match e with
  | Accident _ => None
  | ClipReady p => Some p
  end.

(** The outcome of the [subprocess.run(['ffmpeg', ...], check=True,
    timeout=30)] call, by the [except] clause that receives it. *)
Inductive Transcode : Type :=
| Transcoded            (* exit status 0 *)
| CalledProcessError    (* non-zero exit status *)
| FfmpegNotFound        (* FileNotFoundError: no ffmpeg executable *)
| OtherException.       (* TimeoutExpired and every other exception *)

(** What [write_clip] observes of the outside world. *)
Record EncodeEnv : Type := {
  t_temp : Q;             (* time.time() read for temp_name *)
  t_final : Q;            (* time.time() read for final_name *)
  writer_wrote : bool;    (* cv2.VideoWriter produced the temp file *)
  ffmpeg : Transcode
}.

Definition GLOBAL_COOLDOWN : Q := 12.
Definition CONF_THRESHOLD : Q := 0.4.

Section WithFrames.

(** Frames are opaque images; [model frame] is the list of the
    confidences [float(box.conf[0])] of the boxes YOLO returns. *)
Context {Frame : Type}.
Variable model : Frame -> list Q.

(** [self.active_clip]: the dict [{"start", "end", "frames", "last"}]. *)
Record ClipWindow : Type := {
  clip_start : Z;
  clip_end : Z;
  clip_frames : list Frame;
  clip_last : Z
}.

Record AccidentDetector : Type := {
  fps : Z;
  frame_id : Z;
  frame_buffer : Deque.t (Frame * Z);
  pending : list Q;
  global_last : Q;
  active_clip : option ClipWindow
}.

(** [AccidentDetector(model_path, fps)] *)
Definition init (fps0 : Z) : option AccidentDetector :=
  match Deque.new (fps0 * 20) with
  | None => None
  | Some buf =>
      Some {| fps := fps0; frame_id := 0; frame_buffer := buf;
              pending := []; global_last := 0; active_clip := None |}
  end.

Definition start_clip (event_time : Q) (d : AccidentDetector)
  : AccidentDetector :=
  let start := frame_id d - fps d * 5 in
  let end_ := frame_id d + fps d * 5 in
  {| fps := fps d; frame_id := frame_id d;
     frame_buffer := frame_buffer d;
     pending := pending d; global_last := global_last d;
     active_clip := Some {| clip_start := start; clip_end := end_;
                            clip_frames := []; clip_last := 0 |} |}.

(** The window [start_clip] opens when the sequence number is [seq]. *)
Definition fresh_window (fps0 seq : Z) : ClipWindow :=
  {| clip_start := seq - fps0 * 5; clip_end := seq + fps0 * 5;
     clip_frames := []; clip_last := 0 |}.

(** The boxes kept by the loop [if float(box.conf[0]) > 0.4]. *)
Definition detections (frame : Frame) : list Q :=
  List.filter (fun c => Qltb CONF_THRESHOLD c) (model frame).

Definition is_nil {A : Type} (l : list A) : bool :=
  match l with [] => true | _ => false end.

(** The guard of line 38: [detections and now - global_last > 12]. *)
Definition qualifies (d : AccidentDetector) (frame : Frame) (now : Q)
  : bool :=
  negb (is_nil (detections frame))
  && Qltb GLOBAL_COOLDOWN (now - global_last d).

(** [process_frame(frame)]; [now] is the reading of [time.time()]. *)
Definition process_frame (d : AccidentDetector) (frame : Frame) (now : Q)
  : AccidentDetector * list Event :=
  let fid := frame_id d + 1 in
  let buf := Deque.append (frame_buffer d) (frame, fid) in
  if qualifies d frame now then
    let pend := pending d ++ [now] in
    if (3 <=? length pend)%nat then
      (start_clip now
         {| fps := fps d; frame_id := fid; frame_buffer := buf;
            pending := []; global_last := now;
            active_clip := active_clip d |},
       [Accident now])
    else
      ({| fps := fps d; frame_id := fid; frame_buffer := buf;
          pending := pend; global_last := global_last d;
          active_clip := active_clip d |}, [])
  else
    ({| fps := fps d; frame_id := fid; frame_buffer := buf;
        pending := pending d; global_last := global_last d;
        active_clip := active_clip d |}, []).

Definition temp_name (env : EncodeEnv) : string :=
  ("events/ACCIDENT_" ++ str_of_int (int_of_time (t_temp env))
     ++ "_temp.avi")%string.

Definition final_name (env : EncodeEnv) : string :=
  ("events/ACCIDENT_" ++ str_of_int (int_of_time (t_final env))
     ++ ".mp4")%string.

Definition fallback_name (env : EncodeEnv) : string :=
  str_replace ".mp4" ".avi" (final_name env).

(** The three [except] clauses have the same body. *)
Definition fallback (env : EncodeEnv) (fs : FS) : option string * FS :=
  if path_exists fs (temp_name env)
  then (Some (fallback_name env),
        fs_rename fs (temp_name env) (fallback_name env))
  else (None, fs).

(** [write_clip(clip)]: the returned path ([None] for Python's [None])
    and the file system it leaves. *)
Definition write_clip (env : EncodeEnv) (fs : FS) (clip : ClipWindow)
  : option string * FS :=
  match clip_frames clip with
  | [] => (None, fs)
  | _ :: _ =>
      let fs1 :=
        if writer_wrote env then fs_create fs (temp_name env) else fs in
      match ffmpeg env with
      | Transcoded =>
          let fs2 := fs_create fs1 (final_name env) in
          (Some (final_name env),
           if path_exists fs2 (temp_name env)
           then fs_remove fs2 (temp_name env) else fs2)
      | CalledProcessError => fallback env fs1
      | FfmpegNotFound => fallback env fs1
      | OtherException => fallback env fs1
      end
  end.

(** The body of the loop [for frame, fid in self.frame_buffer]. *)
Definition collect_step (clip : ClipWindow) (entry : Frame * Z)
  : ClipWindow :=
  let '(frame, fid) := entry in
  if (clip_start clip <=? fid) && (fid <=? clip_end clip)
     && (clip_last clip <? fid)
  then {| clip_start := clip_start clip; clip_end := clip_end clip;
          clip_frames := clip_frames clip ++ [frame];
          clip_last := fid |}
  else clip.

Definition collect (buf : list (Frame * Z)) (clip : ClipWindow)
  : ClipWindow :=
  fold_left collect_step buf clip.

Definition set_active_clip (d : AccidentDetector)
    (c : option ClipWindow) : AccidentDetector :=
  {| fps := fps d; frame_id := frame_id d;
     frame_buffer := frame_buffer d; pending := pending d;
     global_last := global_last d; active_clip := c |}.

(** The test of line 72. *)
Definition finalizes (final : bool) (d : AccidentDetector)
    (clip : ClipWindow) : bool :=
  final || (clip_end clip <? frame_id d).

(** [if path:] on the result of [write_clip]. *)
Definition ready_of (path : option string) : list Event :=
  match path with
  | Some p => if String.eqb p "" then [] else [ClipReady p]
  | None => []
  end.

(** [handle_clip(final)]: the ready list, the detector and the file
    system afterwards.  [clip] aliases [self.active_clip], so the
    frames collected by a call that does not finalize stay in the
    window. *)
Definition handle_clip (env : EncodeEnv) (fs : FS)
    (d : AccidentDetector) (final : bool)
  : list Event * AccidentDetector * FS :=
  match active_clip d with
  | None => ([], d, fs)
  | Some clip0 =>
      let clip := collect (Deque.items (frame_buffer d)) clip0 in
      if finalizes final d clip then
        let '(path, fs') := write_clip env fs clip in
        (ready_of path, set_active_clip d None, fs')
      else
        ([], set_active_clip d (Some clip), fs)
  end.

(** The detector states a camera can be in: built by the constructor,
    then driven by any sequence of [process_frame] and [handle_clip]
    calls. *)
Inductive reachable (fps0 : Z) : AccidentDetector -> Prop :=
| reach_init d :
    init fps0 = Some d -> reachable fps0 d
| reach_frame d frame now :
    reachable fps0 d -> reachable fps0 (process_frame d frame now).1
| reach_clip d env fs final :
    reachable fps0 d -> reachable fps0 (handle_clip env fs d final).1.2.

(** The invariant of the ring buffer and of the debounce state: the
    buffer respects its bound, its sequence numbers are the last ones
    given, in order, and fewer than three qualifying frames are pending. *)
Record detector_inv (fps0 : Z) (d : AccidentDetector) : Prop := {
  inv_fps : fps d = fps0;
  inv_fps_nonneg : 0 <= fps0;
  inv_maxlen : Deque.maxlen (frame_buffer d) = fps0 * 20;
  inv_bounded :
    Z.of_nat (length (Deque.items (frame_buffer d))) <= fps0 * 20;
  inv_count : Z.of_nat (length (Deque.items (frame_buffer d))) <= frame_id d;
  inv_seq :
    (Deque.items (frame_buffer d)).*2
    = seqZ (frame_id d - Z.of_nat (length (Deque.items (frame_buffer d))) + 1)
           (Z.of_nat (length (Deque.items (frame_buffer d))));
  inv_pending : (length (pending d) < 3)%nat
}.

(** Successive [process_frame] calls: the final detector and the event
    list of each call. *)
Fixpoint process_frames (d : AccidentDetector) (inputs : list (Frame * Q))
  : AccidentDetector * list (list Event) :=
  match inputs with
  | [] => (d, [])
  | (frame, now) :: rest =>
      let '(d1, evs) := process_frame d frame now in
      let '(d2, evss) := process_frames d1 rest in
      (d2, evs :: evss)
  end.

(** What the main loop does with a camera's detector for each of its
    frames: [process_frame], then [handle_clip()]. *)
Definition feed (env : EncodeEnv) (fs : FS) (d : AccidentDetector)
    (frame : Frame) (now : Q)
  : list Event * list Event * AccidentDetector * FS :=
  let '(d1, events) := process_frame d frame now in
  let '(ready, d2, fs2) := handle_clip env fs d1 false in
  (events, ready, d2, fs2).

(** [feed] over the successive frames of a camera: the events of each
    call, the final detector and file system. *)
Fixpoint feeds (env : EncodeEnv) (fs : FS) (d : AccidentDetector)
    (inputs : list (Frame * Q))
  : list (list Event * list Event) * AccidentDetector * FS :=
  match inputs with
  | [] => ([], d, fs)
  | (frame, now) :: rest =>
      let '(events, ready, d1, fs1) := feed env fs d frame now in
      let '(log, d2, fs2) := feeds env fs1 d1 rest in
      ((events, ready) :: log, d2, fs2)
  end.

(** The window is open. *)
Definition window_open (d : AccidentDetector) : bool :=
  match active_clip d with Some _ => true | None => false end.

(** The buffered entries whose sequence number the loop of
    [handle_clip] accepts for the window [clip]. *)
Definition in_window (clip : ClipWindow) (entry : Frame * Z) : bool :=
  (clip_start clip <=? entry.2) && (entry.2 <=? clip_end clip)
  && (clip_last clip <? entry.2).

End WithFrames.

Arguments ClipWindow : clear implicits.
Arguments AccidentDetector : clear implicits.

End Detector.

(** ** [engine/multithreading_tracker.py] *)

Module Tracker.

Section WithFrames.

Context {Frame : Type}.

(** The tuples [(True, source_id, frame, time.time())] put on the queue. *)
Record Msg : Type := {
  msg_ret : bool;
  msg_source : string;
  msg_frame : Frame;
  msg_time : Q
}.

(** [queue.Queue(maxsize)]: a non-positive [maxsize] is unbounded. *)
Record FrameQueue : Type := { maxsize : Z; qitems : list Msg }.

(** [Queue.full()] *)
Definition full (q : FrameQueue) : bool :=
  (0 <? maxsize q) && (maxsize q <=? Z.of_nat (length (qitems q))).

(** [Queue.put(item)] with its default [block=True]: the caller waits
    as long as the queue is full; [None] stands for "still waiting". *)
Definition put (q : FrameQueue) (m : Msg) : option FrameQueue :=
  if full q then None
  else Some {| maxsize := maxsize q; qitems := qitems q ++ [m] |}.

(** [Queue.get(timeout=1)] as [get_frame] uses it: the oldest item is
    taken; an empty queue is left as it is ([queue.Empty]). *)
Definition get (q : FrameQueue) : option Msg * FrameQueue :=
  match qitems q with
  | [] => (None, q)
  | m :: rest => (Some m, {| maxsize := maxsize q; qitems := rest |})
  end.

(** Where a capture thread stands in [_capture_loop]. *)
Inductive Pc : Type :=
| AtWhile                  (* while self.running: *)
| AtRead                   (* ret, frame = cap.read() *)
| AtFullTest (frame : Frame)  (* if not self.frame_queue.full(): *)
| AtPut (frame : Frame)       (* self.frame_queue.put(...) *)
| AtSleep                  (* time.sleep(delay) *)
| Released.                (* cap.release(); the thread has ended *)

(** A capture thread: its source id, the frames its capture will still
    deliver, and its control point. *)
Record Producer : Type := {
  source_id : string;
  cap : list Frame;
  pc : Pc
}.

Definition at_pc (p : Producer) (c : Pc) (frames : list Frame)
  : Producer :=
  {| source_id := source_id p; cap := frames; pc := c |}.

(** One atomic step of a capture thread.  [full()], [put()] and [get()]
    each run under the mutex of the queue, so each is one step; the
    interpreter may switch threads between any two of them.  [now] is the
    reading of [time.time()] taken when the tuple is built.  [None]: the
    thread cannot move (it waits inside [put], or it has ended). *)
Definition step_producer (running : bool) (now : Q) (q : FrameQueue)
    (p : Producer) : option (FrameQueue * Producer) :=
  match pc p with
  | AtWhile =>
      Some (q, at_pc p (if running then AtRead else Released) (cap p))
  | AtRead =>
      match cap p with
      | [] => Some (q, at_pc p Released [])
      | frame :: rest => Some (q, at_pc p (AtFullTest frame) rest)
      end
  | AtFullTest frame =>
      Some (q, at_pc p (if full q then AtSleep else AtPut frame) (cap p))
  | AtPut frame =>
      match put q {| msg_ret := true; msg_source := source_id p;
                     msg_frame := frame; msg_time := now |} with
      | None => None
      | Some q' => Some (q', at_pc p AtSleep (cap p))
      end
  | AtSleep => Some (q, at_pc p AtWhile (cap p))
  | Released => None
  end.

(** The tracker with its capture threads. *)
Record Tracker : Type := {
  running : bool;
  frame_queue : FrameQueue;
  producers : list Producer
}.

(** What the scheduler lets happen next: capture thread [i] runs one
    step, or the coordinator calls [get_frame], which takes a frame from
    the queue while the tracker is running. *)
Inductive Action : Type :=
| Run (i : nat) (now : Q)
| GetFrame.

(** [None]: the chosen thread cannot move. *)
Definition sys_step (a : Action) (s : Tracker) : option Tracker :=
  match a with
  | Run i now =>
      match producers s !! i with
      | None => None
      | Some p =>
          match step_producer (running s) now (frame_queue s) p with
          | None => None
          | Some (q', p') =>
              Some {| running := running s; frame_queue := q';
                      producers := <[ i := p' ]> (producers s) |}
          end
      end
  | GetFrame =>
      Some {| running := running s;
              frame_queue :=
                if running s then (get (frame_queue s)).2
                else frame_queue s;
              producers := producers s |}
  end.

Fixpoint run_schedule (sched : list Action) (s : Tracker)
  : option Tracker :=
  match sched with
  | [] => Some s
  | a :: rest =>
      match sys_step a s with
      | None => None
      | Some s' => run_schedule rest s'
      end
  end.

(** Thread [i] is inside [put] and the queue is full: it waits. *)
Definition blocked_in_put (s : Tracker) (i : nat) : bool :=
  match producers s !! i with
  | Some p =>
      match pc p with
      | AtPut _ => full (frame_queue s)
      | _ => false
      end
  | None => false
  end.

(** [start_cap_thread(video_paths)] on an empty tracker, every source
    having opened. *)
Definition start_cap_thread (queue_size : Z)
    (sources : list (string * list Frame)) : Tracker :=
  {| running := true;
     frame_queue := {| maxsize := queue_size; qitems := [] |};
     producers :=
       List.map (fun sf => {| source_id := sf.1; cap := sf.2;
                              pc := AtWhile |}) sources |}.

(** One whole iteration of the loop body for a read frame, run without
    any other thread in between. *)
Definition offer (now : Q) (q : FrameQueue) (src : string)
    (frame : Frame) : FrameQueue :=
  if full q then q
  else {| maxsize := maxsize q;
          qitems := qitems q ++ [{| msg_ret := true; msg_source := src;
                                    msg_frame := frame;
                                    msg_time := now |}] |}.

End WithFrames.

Arguments Msg : clear implicits.
Arguments FrameQueue : clear implicits.
Arguments Producer : clear implicits.
Arguments Tracker : clear implicits.
Arguments Pc : clear implicits.

End Tracker.

(** ** [main.py]: the calls to the collaborators *)

(** A call made to the record store, to the storage bucket or to the
    process launcher.  The [data] dict of an update is the list of its
    items. *)
Inductive Effect : Type :=
| InsertAccident (camera_id : string) (latitude longitude : Q)
    (severity status : string)
| UpdateAccident (accident_id : Z) (data : list (string * string))
| StorageUpload (clip_path : string)
| StartUpload (clip_path : string) (accident_id : Z).

(** [update_accident(accident_id, data)]: the request is sent; an error of
    the store is printed and swallowed. *)
Definition update_accident (accident_id : Z) (data : list (string * string))
  : list Effect :=
  [UpdateAccident accident_id data].

Module Uploader.

(** How the [try] block of [upload_clip_async] ends. *)
Inductive Outcome : Type :=
| Uploaded (url : string)   (* upload and get_public_url returned *)
| OpenRaised                (* open(clip_path, "rb") raised *)
| UploadRaised              (* storage upload raised *)
| PublicUrlRaised.          (* get_public_url raised *)

Record UploadEnv : Type := {
  outcome : Outcome;
  remove_ok : bool          (* os.remove(clip_path) did not raise *)
}.

Definition upload_failed (clip_path : string) (accident_id : Z)
  : list Effect :=
  update_accident accident_id
    [("status", "UPLOAD_FAILED"); ("clip_path", clip_path)]%string.

(** [upload_clip_async(clip_path, accident_id)], run in the child
    process: the file system it leaves and the calls it makes. *)
Definition upload_clip_async (env : UploadEnv) (fs : FS)
    (clip_path : string) (accident_id : Z) : FS * list Effect :=
  if negb (path_exists fs clip_path) then (fs, [])
  else
    match outcome env with
    | Uploaded url =>
        (if remove_ok env then fs_remove fs clip_path else fs,
         StorageUpload clip_path
           :: update_accident accident_id
                [("video_url", url); ("status", "UPLOADED")]%string)
    | OpenRaised => (fs, upload_failed clip_path accident_id)
    | UploadRaised =>
        (fs, StorageUpload clip_path :: upload_failed clip_path accident_id)
    | PublicUrlRaised =>
        (fs, StorageUpload clip_path :: upload_failed clip_path accident_id)
    end.

(** The upload did not go through: the file was missing when the child
    started, or the [try] block raised. *)
Definition failed (env : UploadEnv) (fs : FS) (clip_path : string) : bool :=
  negb (path_exists fs clip_path)
  || match outcome env with Uploaded _ => false | _ => true end.

End Uploader.

(** ** [main.py]: [track_videos_multithreaded] *)

Module Coordinator.

Import Detector.

(** The per-camera dict of [accident_states].  A record id is an int of
    the store; [if accident_id:] holds for a non-zero id. *)
Record AccidentState : Type := {
  active : bool;
  accident_id : option Z;
  last_event_time : Q;
  camera_id : string;
  latitude : Q;
  longitude : Q
}.

Definition RECORD_COOLDOWN : Q := 45.
Definition FORCE_TIMEOUT : Q := 45.

(** [state["active"] = False; state["accident_id"] = None] *)
Definition reset (st : AccidentState) : AccidentState :=
  {| active := false; accident_id := None;
     last_event_time := last_event_time st; camera_id := camera_id st;
     latitude := latitude st; longitude := longitude st |}.

Definition activate (st : AccidentState) (id : Z) (now : Q)
  : AccidentState :=
  {| active := true; accident_id := Some id; last_event_time := now;
     camera_id := camera_id st; latitude := latitude st;
     longitude := longitude st |}.

(** [state["active"] and state["accident_id"]]: the id when the test
    holds. *)
Definition active_id (st : AccidentState) : option Z :=
  match accident_id st with
  | Some id => if active st && negb (id =? 0) then Some id else None
  | None => None
  end.

(** The readings of one pass of the safety net over one camera. *)
Record SafetyEnv : Type := {
  t_safety : Q;           (* time.time() of line 315 *)
  enc_forced : EncodeEnv  (* for handle_clip(final=True) *)
}.

(** What one iteration of the main loop observes of the outside. *)
Record TickEnv : Type := {
  t_now : Q;              (* time.time() inside process_frame *)
  t_since : Q;            (* time.time() of line 261 *)
  created : option Z;     (* result of create_accident_event *)
  t_created : Q;          (* time.time() of line 271 *)
  enc : EncodeEnv;        (* for handle_clip() of line 278 *)
  safety : string -> SafetyEnv
}.

(** [create_accident_event(camera_id, latitude, longitude)] *)
Definition create_accident_event (st : AccidentState) : list Effect :=
  [InsertAccident (camera_id st) (latitude st) (longitude st)
     "medium" "DETECTED"].

(** The loop [for ev in events] of lines 259-275; it ends at the first
    ACCIDENT event met after the record cooldown.  [process_frame]
    returns at most one event, so the clock is read at most once. *)
Fixpoint on_events (env : TickEnv) (st : AccidentState)
    (events : list Event) : AccidentState * list Effect :=
  match events with
  | [] => (st, [])
  | ev :: rest =>
      let time_since_last := (t_since env - last_event_time st)%Q in
      if String.eqb (ev_type ev) "ACCIDENT"
         && Qltb RECORD_COOLDOWN time_since_last
      then
        match created env with
        | Some id =>
            if negb (id =? 0)
            then (activate st id (t_created env), create_accident_event st)
            else (st, create_accident_event st)
        | None => (st, create_accident_event st)
        end
      else on_events env st rest
  end.

(** Step 1 of the loop body. *)
Definition detect_step (env : TickEnv) (st : AccidentState)
    (events : list Event) : AccidentState * list Effect :=
  if active st then (st, []) else on_events env st events.

(** The loops over the ready clips (lines 286-309 and 326-343): the first
    event with a clip path marks the record TRIMMED, starts the upload
    process and resets the state. *)
Fixpoint on_clips (id : Z) (st : AccidentState) (clips : list Event)
  : AccidentState * list Effect :=
  match clips with
  | [] => (st, [])
  | ev :: rest =>
      match ev_clip_path ev with
      | Some p =>
          if String.eqb p "" then on_clips id st rest
          else (reset st,
                update_accident id
                  [("status", "TRIMMED"); ("clip_path", p)]%string
                ++ [StartUpload p id])
      | None => on_clips id st rest
      end
  end.

(** Step 2 of the loop body, after [handle_clip()]. *)
Definition clip_step (st : AccidentState) (ready : list Event)
  : AccidentState * list Effect :=
  match active_id st with
  | Some id => on_clips id st ready
  | None => (st, [])
  end.

Definition failed_message (time_since_detection : Q) : string :=
  ("No clip generated after " ++ fmt_0f time_since_detection ++ "s")%string.

Section WithFrames.

Context {Frame : Type}.
Variable model : Frame -> list Q.

(** The dicts [detectors] and [accident_states], both keyed by the
    video source.  [cam_order] is the order of the keys of
    [accident_states], the order in which [.items()] yields them. *)
Record Coordinator : Type := {
  detectors : gmap string (AccidentDetector Frame);
  accident_states : gmap string AccidentState;
  cam_order : list string;
  files : FS
}.

(** [cam_order] lists the keys of [accident_states], each once. *)
Definition well_formed (c : Coordinator) : Prop :=
  NoDup (cam_order c)
  /\ (forall k, k ∈ cam_order c <-> is_Some (accident_states c !! k)).

(** The body of the loop of step 3 for the camera [check_cam]. *)
Definition safety_check (senv : SafetyEnv) (check_cam : string)
    (c : Coordinator) : Coordinator * list Effect :=
  match accident_states c !! check_cam with
  | None => (c, [])
  | Some check_state =>
      match active_id check_state with
      | None => (c, [])
      | Some id =>
          let time_since_detection :=
            (t_safety senv - last_event_time check_state)%Q in
          if Qltb FORCE_TIMEOUT time_since_detection then
            match detectors c !! check_cam with
            | None => (c, [])
            | Some check_detector =>
                let '(forced_clips, det', fs') :=
                  handle_clip (enc_forced senv) (files c)
                    check_detector true in
                let '(st', effs) :=
                  if is_nil forced_clips
                  then (reset check_state,
                        update_accident id
                          [("status", "FAILED");
                           ("clip_path",
                            failed_message time_since_detection)]%string)
                  else on_clips id check_state forced_clips in
                ({| detectors := <[ check_cam := det' ]> (detectors c);
                    accident_states :=
                      <[ check_cam := st' ]> (accident_states c);
                    cam_order := cam_order c;
                    files := fs' |}, effs)
            end
          else (c, [])
      end
  end.

(** Step 3: [for check_cam, check_state in accident_states.items()]. *)
Fixpoint safety_net (senv : string -> SafetyEnv) (cams : list string)
    (c : Coordinator) : Coordinator * list Effect :=
  match cams with
  | [] => (c, [])
  | k :: rest =>
      let '(c1, e1) := safety_check (senv k) k c in
      let '(c2, e2) := safety_net senv rest c1 in
      (c2, e1 ++ e2)
  end.

(** Steps 1 and 2 of the loop body for a frame of camera [cam_id]. *)
Definition tick_front (env : TickEnv) (cam_id : string) (frame : Frame)
    (c : Coordinator) : option (Coordinator * list Effect) :=
  match detectors c !! cam_id, accident_states c !! cam_id with
  | Some detector, Some state =>
      let '(det1, events) := process_frame model detector frame (t_now env) in
      let '(st1, e1) := detect_step env state events in
      let '(ready_clips, det2, fs2) :=
        handle_clip (enc env) (files c) det1 false in
      let '(st2, e2) := clip_step st1 ready_clips in
      Some ({| detectors := <[ cam_id := det2 ]> (detectors c);
               accident_states := <[ cam_id := st2 ]> (accident_states c);
               cam_order := cam_order c;
               files := fs2 |}, e1 ++ e2)
  | _, _ => None
  end.

(** One iteration of [while True] that received a frame.  A frame of an
    unknown camera is skipped ([continue]). *)
Definition tick (env : TickEnv) (cam_id : string) (frame : Frame)
    (c : Coordinator) : Coordinator * list Effect :=
  match tick_front env cam_id frame c with
  | None => (c, [])
  | Some (c2, e12) =>
      let '(c3, e3) := safety_net (safety env) (cam_order c2) c2 in
      (c3, e12 ++ e3)
  end.

(** The frames received during a session, each with what the loop
    observes while it handles it. *)
Definition Input : Type := TickEnv * string * Frame.

(** The loop over the received frames: the final state and, per
    iteration, the camera of the frame and the calls made. *)
Fixpoint run (inputs : list Input) (c : Coordinator)
  : Coordinator * list (string * list Effect) :=
  match inputs with
  | [] => (c, [])
  | (env, cam_id, frame) :: rest =>
      let '(c1, e) := tick env cam_id frame c in
      let '(c2, es) := run rest c1 in
      (c2, (cam_id, e) :: es)
  end.

End WithFrames.

Arguments Coordinator : clear implicits.
Arguments Input : clear implicits.

(** The calls made when a clip is ready. *)
Definition trimmed (id : Z) (p : string) : list Effect :=
  [UpdateAccident id [("status", "TRIMMED"); ("clip_path", p)]%string;
   StartUpload p id].

(** The call made when forcing yields no clip. *)
Definition failed (id : Z) (time_since_detection : Q) : list Effect :=
  [UpdateAccident id
     [("status", "FAILED");
      ("clip_path", failed_message time_since_detection)]%string].

Definition is_insert (e : Effect) : bool :=
  match e with InsertAccident _ _ _ _ _ => true | _ => false end.

End Coordinator.

(** ** Histories of a detector *)

(** The entries [process_frame] appends for the successive [frames]: each
    frame with its sequence number, the first one being [start + 1]. *)
Fixpoint numbered {Frame : Type} (start : Z) (frames : list Frame)
  : list (Frame * Z) :=
  match frames with
  | [] => []
  | frame :: rest => (frame, start + 1) :: numbered (start + 1) rest
  end.

(** The last [n] elements of [l]. *)
Definition last_n {A : Type} (n : nat) (l : list A) : list A :=
  drop (length l - n) l.


(** The ring buffer of [d] holds the latest entries of the frames given
    to [process_frame] so far, numbered from 1. *)
Definition holds_latest {Frame : Type} (d : Detector.AccidentDetector Frame)
    (history : list Frame) : Prop :=
  Deque.items (Detector.frame_buffer d)
  = last_n (Z.to_nat (Deque.maxlen (Detector.frame_buffer d)))
      (numbered 0 history)
  /\ Detector.frame_id d = Z.of_nat (length history).

(** An open window of [d] holds the frames of the history from its
    start on, up to the newest one. *)
Definition holds_segment {Frame : Type} (d : Detector.AccidentDetector Frame)
    (history : list Frame) : Prop :=
  forall w, Detector.active_clip d = Some w ->
    Detector.clip_start w <= Detector.frame_id d <= Detector.clip_end w
    /\ Detector.clip_frames w
       = drop (Z.to_nat (Detector.clip_start w - 1)) history
    /\ Detector.clip_last w = Detector.frame_id d.

(** [d'] is [d] except that its window may have been closed. *)
Definition closed_at_most {Frame : Type}
    (d d' : Detector.AccidentDetector Frame) : Prop :=
  Detector.fps d' = Detector.fps d
  /\ Detector.frame_id d' = Detector.frame_id d
  /\ Detector.frame_buffer d' = Detector.frame_buffer d
  /\ Detector.pending d' = Detector.pending d
  /\ Detector.global_last d' = Detector.global_last d
  /\ (Detector.active_clip d' = Detector.active_clip d
      \/ Detector.active_clip d' = None).

(** The calls that start a child process. *)
Definition is_start_upload (e : Effect) : bool :=
  match e with StartUpload _ _ => true | _ => false end.

(** The times of the ACCIDENT events of a list of events. *)
Definition accident_times (events : list Detector.Event) : list Q :=
  omap (fun e => match e with
                 | Detector.Accident t => Some t
                 | Detector.ClipReady _ => None
                 end) events.

(** Each time of [ts] comes more than [gap] after the one before it, the
    first one more than [gap] after [prev]. *)
Fixpoint spaced (gap prev : Q) (ts : list Q) : Prop :=
  match ts with
  | [] => True
  | t :: rest => (gap < t - prev)%Q /\ spaced gap t rest
  end.

(** ** [engine/multithreading_tracker.py]: the public API *)

Module TrackerApi.

Import Tracker.

Section WithFrames.

Context {Frame : Type}.

(** The tuple [(ret, cam_id, frame, timestamp)] that [get_frame] returns;
    [None] stands for [(False, None, None, None)]. *)
Definition Received : Type := option (bool * string * Frame * Q).

(** [get_frame()]: nothing is taken from a tracker that is not running or
    whose queue stays empty for the second of the timeout. *)
Definition get_frame (s : Tracker Frame) : Received * Tracker Frame :=
  if negb (running s) then (None, s)
  else
    match get (frame_queue s) with
    | (None, _) => (None, s)
    | (Some m, q') =>
        (Some (msg_ret m, msg_source m, msg_frame m, msg_time m),
         {| running := running s; frame_queue := q';
            producers := producers s |})
    end.

(** Successive [get_frame] calls, with no capture thread moving in
    between. *)
Fixpoint get_frames (n : nat) (s : Tracker Frame)
  : list Received * Tracker Frame :=
  match n with
  | O => ([], s)
  | S n' =>
      let '(r, s1) := get_frame s in
      let '(rs, s2) := get_frames n' s1 in
      (r :: rs, s2)
  end.

(** [stop()], with no capture thread moving while it runs: the flag is
    cleared and the queue is emptied ([join] waits one second per thread
    and changes nothing). *)
Definition stop (s : Tracker Frame) : Tracker Frame :=
  {| running := false;
     frame_queue := {| maxsize := maxsize (frame_queue s); qitems := [] |};
     producers := producers s |}.

(** [start_cap_thread(video_paths)]: a source that does not open gets no
    thread.  [start_cap_thread] of [Module Tracker] is the case where all
    sources open. *)
Definition start_threads (queue_size : Z) (opened : string -> bool)
    (sources : list (string * list Frame)) : Tracker Frame :=
  start_cap_thread queue_size
    (List.filter (fun sf => opened sf.1) sources).

(** The frames of camera [src] in the queue, oldest first. *)
Definition queued_of (src : string) (q : FrameQueue Frame) : list Frame :=
  msg_frame <$> List.filter (fun m => String.eqb (msg_source m) src) (qitems q).

End WithFrames.

Arguments Received : clear implicits.

End TrackerApi.

(** ** [engine/multithreading_tracker.py]: what the coordinator receives *)

Module TrackerLog.

Import Tracker.

Section WithFrames.

Context {Frame : Type}.

(** The frames of camera [src] among the tuples [ms], in order. *)
Definition frames_of (src : string) (ms : list (Msg Frame)) : list Frame :=
  msg_frame <$> List.filter (fun m => String.eqb (msg_source m) src) ms.

(** The frame a capture thread has read and not yet put or dropped. *)
Definition in_hand (p : Producer Frame) : list Frame :=
  match pc p with
  | AtFullTest frame => [frame]
  | AtPut frame => [frame]
  | _ => []
  end.

(** The tuple a [GetFrame] action hands to the coordinator. *)
Definition taken (a : Action) (s : Tracker Frame) : list (Msg Frame) :=
  match a with
  | Run _ _ => []
  | GetFrame =>
      if running s then
        match (get (frame_queue s)).1 with Some m => [m] | None => [] end
      else []
  end.

(** [run_schedule], with the tuples the coordinator received, in the
    order of their [get_frame] calls. *)
Fixpoint run_logged (sched : list Action) (s : Tracker Frame)
  : option (list (Msg Frame) * Tracker Frame) :=
  match sched with
  | [] => Some ([], s)
  | a :: rest =>
      match sys_step a s with
      | None => None
      | Some s1 =>
          match run_logged rest s1 with
          | None => None
          | Some (log, s2) => Some (taken a s ++ log, s2)
          end
      end
  end.

(** Every frame of camera [src] that thread [p] has read or will read
    and that was not dropped: those received, those queued, the one in
    hand and those not yet read. *)
Definition kept_frames (src : string) (received : list (Msg Frame))
    (q : FrameQueue Frame) (p : Producer Frame) : list Frame :=
  frames_of src received ++ frames_of src (qitems q) ++ in_hand p ++ cap p.

End WithFrames.

End TrackerLog.

(** ** [main.py]: start-up and shutdown of a session *)

Module Session.

Import Detector Coordinator.

(** An entry of the [cameras] table. *)
Record Camera : Type := {
  cam_camera_id : string;
  cam_latitude : Q;
  cam_longitude : Q;
  cctv_url : string
}.

(** What start-up observes: whether a source opens when it is validated,
    whether it opens again when its frame rate is read, the value of
    [cap.get(cv2.CAP_PROP_FPS)], and whether [YOLO(model_path)], the
    first statement of the constructor, returns when the detector of the
    source is built. *)
Record SetupEnv : Type := {
  validates : string -> bool;
  reopens : string -> bool;
  fps_prop : string -> Q;
  model_loads : string -> bool
}.

(** [max(1, int(cap.get(cv2.CAP_PROP_FPS)))], or 30 when the source does
    not open. *)
Definition detector_fps (env : SetupEnv) (url : string) : Z :=
  if reopens env url then Z.max 1 (int_of_time (fps_prop env url)) else 30.

(** The state a camera starts with. *)
Definition initial_state (cam : Camera) : AccidentState :=
  {| active := false; accident_id := None; last_event_time := 0;
     camera_id := cam_camera_id cam; latitude := cam_latitude cam;
     longitude := cam_longitude cam |}.

(** Assigning to a dict: a new key goes last, a known key keeps its
    place. *)
Definition add_key (k : string) (order : list string) : list string :=
  if bool_decide (k ∈ order) then order else order ++ [k].

Section WithFrames.

Context {Frame : Type}.
Variable model : Frame -> list Q.

(** How [track_videos_multithreaded] gets to its loop. *)
Inductive Setup : Type :=
| NoCameras                        (* one of the two early returns *)
| ConstructorError                 (* AccidentDetector(...) raised *)
| Ready (c : Coordinator Frame).

(** [AccidentDetector(model_path, fps=fps)] as start-up calls it for the
    source [url]: the model is loaded first (line 11 of the constructor)
    and that may raise; what follows is [Detector.init].  [None]: the
    constructor raised. *)
Definition construct (env : SetupEnv) (url : string)
  : option (AccidentDetector Frame) :=
  if model_loads env url then Detector.init (detector_fps env url) else None.

(** The body of the loop of lines 185-207 for one validated camera. *)
Definition add_camera (env : SetupEnv) (c : Coordinator Frame) (cam : Camera)
  : option (Coordinator Frame) :=
  match construct env (cctv_url cam) with
  | None => None
  | Some det =>
      Some {| detectors := <[ cctv_url cam := det ]> (detectors c);
              accident_states :=
                <[ cctv_url cam := initial_state cam ]> (accident_states c);
              cam_order := add_key (cctv_url cam) (cam_order c);
              files := files c |}
  end.

Fixpoint add_cameras (env : SetupEnv) (c : Coordinator Frame)
    (cams : list Camera) : option (Coordinator Frame) :=
  match cams with
  | [] => Some c
  | cam :: rest =>
      match add_camera env c cam with
      | None => None
      | Some c1 => add_cameras env c1 rest
      end
  end.

(** The cameras whose source opens (lines 158-169). *)
Definition validated_cameras (env : SetupEnv) (cameras_data : list Camera)
  : list Camera :=
  List.filter (fun cam => validates env (cctv_url cam)) cameras_data.

(** Lines 151-207, on the file system [fs]. *)
Definition setup (env : SetupEnv) (fs : FS) (cameras_data : list Camera)
  : Setup :=
  match validated_cameras env cameras_data with
  | [] => NoCameras
  | cams =>
      match add_cameras env
              {| detectors := ∅; accident_states := ∅; cam_order := [];
                 files := fs |} cams with
      | None => ConstructorError
      | Some c => Ready c
      end
  end.

(** The loop state besides the two dicts. *)
Record Session : Type := {
  coordinator : Coordinator Frame;
  active_cameras : gset string;
  frame_count : Z
}.

Definition start (c : Coordinator Frame) : Session :=
  {| coordinator := c; active_cameras := ∅; frame_count := 0 |}.

(** What an iteration of [while True] receives: no frame (and then
    whether the second [get_frame] of line 229 gives one), or a frame,
    with the readings of the iteration and whether ESC is pressed. *)
Inductive Poll : Type :=
| NoFrame (ret2 : bool)
| GotFrame (env : TickEnv) (cam_id : string) (frame : Frame) (esc : bool).

(** Why the loop is left. *)
Inductive Exit : Type :=
| NoMoreFrames     (* line 232 *)
| EscPressed.      (* line 361 *)

(** The test of line 226. *)
Definition session_over (s : Session) : bool :=
  (0 <? frame_count s) && (Z.of_nat (size (active_cameras s)) =? 0).

(** One iteration of [while True]: the session, the calls made, and the
    exit taken if any.  The ESC test comes after the three steps; a frame
    of an unknown camera skips them and the test. *)
Definition loop_step (p : Poll) (s : Session)
  : Session * list Effect * option Exit :=
  match p with
  | NoFrame ret2 =>
      (s, [], if session_over s && negb ret2 then Some NoMoreFrames else None)
  | GotFrame env cam_id frame esc =>
      let s1 :=
        {| coordinator := coordinator s;
           active_cameras := {[ cam_id ]} ∪ active_cameras s;
           frame_count := frame_count s + 1 |} in
      match tick_front model env cam_id frame (coordinator s) with
      | None => (s1, [], None)
      | Some _ =>
          let '(c', effs) := tick model env cam_id frame (coordinator s) in
          ({| coordinator := c'; active_cameras := active_cameras s1;
              frame_count := frame_count s1 |},
           effs, if esc then Some EscPressed else None)
      end
  end.

(** The loop over what is received, up to its first exit. *)
Fixpoint loop (polls : list Poll) (s : Session)
  : Session * list Effect * option Exit :=
  match polls with
  | [] => (s, [], None)
  | p :: rest =>
      let '(s1, e1, x) := loop_step p s in
      match x with
      | Some _ => (s1, e1, x)
      | None =>
          let '(s2, e2, x2) := loop rest s1 in
          (s2, e1 ++ e2, x2)
      end
  end.

(** What the [finally] block observes for one camera. *)
Record ShutdownEnv : Type := {
  enc_final : EncodeEnv;
  upload : Uploader.UploadEnv
}.

(** The loop [for ev in final_clips] of lines 407-414: the upload runs in
    the main process. *)
Fixpoint finalize_clips (senv : ShutdownEnv) (st : AccidentState) (fs : FS)
    (clips : list Event) : FS * list Effect :=
  match clips with
  | [] => (fs, [])
  | ev :: rest =>
      let '(fs1, e1) :=
        match accident_id st, ev_clip_path ev with
        | Some id, Some p =>
            if negb (id =? 0) && negb (String.eqb p "") then
              let '(fs', eu) :=
                Uploader.upload_clip_async (upload senv) fs p id in
              (fs', update_accident id
                      [("status", "TRIMMED"); ("clip_path", p)]%string ++ eu)
            else (fs, [])
        | _, _ => (fs, [])
        end in
      let '(fs2, e2) := finalize_clips senv st fs1 rest in
      (fs2, e1 ++ e2)
  end.

(** The body of the loop of lines 398-414 for the key [k] of [detectors].
    [None]: [accident_states[cam_id]] raises [KeyError]. *)
Definition shutdown_cam (senv : ShutdownEnv) (k : string) (s : Session)
  : option (Session * list Effect) :=
  let c := coordinator s in
  match detectors c !! k with
  | None => Some (s, [])
  | Some detector =>
      match accident_states c !! k with
      | None => None
      | Some state =>
          if bool_decide (k ∈ active_cameras s) then
            let '(final_clips, det', fs1) :=
              handle_clip (enc_final senv) (files c) detector true in
            let '(fs2, effs) := finalize_clips senv state fs1 final_clips in
            Some ({| coordinator :=
                       {| detectors := <[ k := det' ]> (detectors c);
                          accident_states := accident_states c;
                          cam_order := cam_order c; files := fs2 |};
                     active_cameras := active_cameras s;
                     frame_count := frame_count s |}, effs)
          else Some (s, [])
      end
  end.

(** The [finally] block after [tracker.stop()], over the keys of
    [detectors] in their order, which is that of [accident_states]. *)
Fixpoint shutdown (senv : string -> ShutdownEnv) (cams : list string)
    (s : Session) : option (Session * list Effect) :=
  match cams with
  | [] => Some (s, [])
  | k :: rest =>
      match shutdown_cam (senv k) k s with
      | None => None
      | Some (s1, e1) =>
          match shutdown senv rest s1 with
          | None => None
          | Some (s2, e2) => Some (s2, e1 ++ e2)
          end
      end
  end.

(** The two dicts have the same keys, listed once each by [cam_order]. *)
Definition same_keys (c : Coordinator Frame) : Prop :=
  well_formed c
  /\ (forall k, is_Some (detectors c !! k)
                <-> is_Some (accident_states c !! k)).

(** A camera is active exactly when it holds a record, and a record id is
    never zero. *)
Definition consistent (st : AccidentState) : Prop :=
  (active st = true /\ exists id, accident_id st = Some id /\ id <> 0)
  \/ (active st = false /\ accident_id st = None).

(** What start-up establishes for the cameras [cams] it has set up. *)
Record started (env : SetupEnv) (fs : FS) (cams : list Camera)
    (c : Coordinator Frame) : Prop := {
  started_keys : same_keys c;
  started_files : files c = fs;
  started_urls : forall k, k ∈ cam_order c <-> k ∈ cctv_url <$> cams;
  started_loaded :
    forall cam, cam ∈ cams -> model_loads env (cctv_url cam) = true;
  started_detectors :
    forall k d, detectors c !! k = Some d ->
      1 <= detector_fps env k
      /\ Detector.init (detector_fps env k) = Some d;
  started_states :
    forall k st, accident_states c !! k = Some st ->
      exists cam, cam ∈ cams /\ cctv_url cam = k /\ st = initial_state cam
}.

End WithFrames.

Arguments Setup : clear implicits.
Arguments Session : clear implicits.
Arguments Poll : clear implicits.

End Session.

(** ** Concrete cameras used to exercise the definitions *)

Module Examples.

Import Detector.

(** A frame is represented by the confidences of the boxes the model
    finds in it. *)
Definition yolo (frame : list Q) : list Q := frame.

Definition hit : list Q := [0.9%Q].
Definition weak : list Q := [0.3%Q].
Definition blank : list Q := [].

(** A detector as the constructor builds it. *)
Definition fresh (fps0 : Z) : AccidentDetector (list Q) :=
  {| fps := fps0; frame_id := 0;
     frame_buffer := Deque.mk (fps0 * 20) [];
     pending := []; global_last := 0; active_clip := None |}.

Definition enc_ok : EncodeEnv :=
  {| t_temp := 1000.25; t_final := 1000.75; writer_wrote := true;
     ffmpeg := Transcoded |}.

Definition enc_no_ffmpeg : EncodeEnv :=
  {| t_temp := 1000.25; t_final := 1000.75; writer_wrote := true;
     ffmpeg := FfmpegNotFound |}.

(** The writer could not produce the intermediate file, so ffmpeg has no
    input and exits with an error. *)
Definition enc_no_temp : EncodeEnv :=
  {| t_temp := 1000.25; t_final := 1000.75; writer_wrote := false;
     ffmpeg := CalledProcessError |}.

(** A camera at 1 frame per second whose ring buffer is full: twenty
    frames without detection have been processed. *)
Definition full1 : AccidentDetector (list Q) :=
  (process_frames yolo (fresh 1) (replicate 20 (blank, 0%Q))).1.

(** A camera at 10 frames per second that has processed 99 frames, two of
    them qualifying and still pending. *)
Definition two_pending : AccidentDetector (list Q) :=
  (process_frames yolo (fresh 10)
     (replicate 97 (blank, 50%Q) ++ [(hit, 60%Q); (hit, 61%Q)])).1.

(** A camera at 25 frames per second, handled as the main loop does:
    three qualifying frames at 100 s, 101 s and 102 s open a window, two
    more qualifying frames follow at 115 s and 116 s. *)
Definition slow_camera : AccidentDetector (list Q) :=
  (feeds yolo enc_ok ∅ (fresh 25)
     [(hit, 100%Q); (hit, 101%Q); (hit, 102%Q);
      (hit, 115%Q); (hit, 116%Q)]).1.2.

(** A camera at 25 frames per second right after its first two frames,
    both qualifying. *)
Definition early_pending : AccidentDetector (list Q) :=
  (process_frames yolo (fresh 25) [(hit, 100%Q); (hit, 101%Q)]).1.

(** A window that has collected one frame. *)
Definition one_frame : ClipWindow (list Q) :=
  {| clip_start := 1; clip_end := 11; clip_frames := [hit]; clip_last := 1 |}.

(** Two cameras on a tracker built with [queue_size=20], as [main.py]
    does; each capture still has frames to deliver. *)
Definition two_cameras : Tracker.Tracker (list Q) :=
  Tracker.start_cap_thread 20
    [("cam0"%string, replicate 30 blank); ("cam1"%string, replicate 30 blank)].

(** One full pass of capture thread [i] through the loop body: test of
    [running], read, test of [full()], [put], sleep. *)
Definition iteration (i : nat) (now : Q) : list Tracker.Action :=
  replicate 5 (Tracker.Run i now).

(** Thread 0 puts 19 frames while nothing is consumed; then both threads
    read a frame and both find the queue not full; thread 0 puts its
    frame, which fills the queue. *)
Definition race : list Tracker.Action :=
  concat (replicate 19 (iteration 0 1%Q))
  ++ [Tracker.Run 0 2%Q; Tracker.Run 0 2%Q;     (* while, read *)
      Tracker.Run 1 2%Q; Tracker.Run 1 2%Q;     (* while, read *)
      Tracker.Run 0 2%Q;                        (* full() is False *)
      Tracker.Run 1 2%Q;                        (* full() is False *)
      Tracker.Run 0 2%Q].                       (* put: 20 items *)

(** The state [main.py] gives a camera at start-up. *)
Definition idle (cid : string) : Coordinator.AccidentState :=
  {| Coordinator.active := false; Coordinator.accident_id := None;
     Coordinator.last_event_time := 0; Coordinator.camera_id := cid;
     Coordinator.latitude := 11.748; Coordinator.longitude := 75.4938 |}.

(** Two cameras at 1 frame per second, as [main.py] sets them up. *)
Definition two_idle : Coordinator.Coordinator (list Q) :=
  {| Coordinator.detectors :=
       {[ "a.mp4"%string := fresh 1; "b.mp4"%string := fresh 1 ]};
     Coordinator.accident_states :=
       {[ "a.mp4"%string := idle "CAM001"; "b.mp4"%string := idle "CAM002" ]};
     Coordinator.cam_order := ["a.mp4"%string; "b.mp4"%string];
     Coordinator.files := ∅ |}.

(** The encoding [e] taking place at time [t]. *)
Definition at_time (t : Q) (e : EncodeEnv) : EncodeEnv :=
  {| t_temp := t; t_final := t; writer_wrote := writer_wrote e;
     ffmpeg := ffmpeg e |}.

(** An iteration in which every clock reading is [t], the store answers a
    creation request with [rec] and every encoding behaves as [e]. *)
Definition env_at (t : Q) (rec : option Z) (e : EncodeEnv)
  : Coordinator.TickEnv :=
  {| Coordinator.t_now := t; Coordinator.t_since := t;
     Coordinator.created := rec; Coordinator.t_created := t;
     Coordinator.enc := at_time t e;
     Coordinator.safety :=
       fun _ => {| Coordinator.t_safety := t;
                   Coordinator.enc_forced := at_time t e |} |}.

Definition frame_a (t : Q) (frame : list Q) : Coordinator.Input (list Q) :=
  (env_at t (Some 7) enc_no_temp, "a.mp4"%string, frame).

Definition frame_b (t : Q) (frame : list Q) : Coordinator.Input (list Q) :=
  (env_at t (Some 8) enc_no_temp, "b.mp4"%string, frame).

(** Camera a triggers at 1002 s on its third frame and record 7 is
    created; six more frames pass the window end, the window is closed but
    no clip comes out of it because the video writer produces no file.
    Camera a then stays active with nothing left to collect. *)
Definition stuck : Coordinator.Coordinator (list Q) :=
  (Coordinator.run yolo
     [frame_a 1000 hit; frame_a 1001 hit; frame_a 1002 hit;
      frame_a 1003 blank; frame_a 1004 blank; frame_a 1005 blank;
      frame_a 1006 blank; frame_a 1007 blank; frame_a 1008 blank]
     two_idle).1.

(** Camera a became active at 0 s and its window never got a frame. *)
Definition never_fed : Coordinator.Coordinator (list Q) :=
  {| Coordinator.detectors :=
       {[ "a.mp4"%string :=
            {| fps := 25; frame_id := 0; frame_buffer := Deque.mk 500 [];
               pending := []; global_last := 0;
               active_clip := Some (fresh_window 25 0) |};
          "b.mp4"%string := fresh 25 ]};
     Coordinator.accident_states :=
       {[ "a.mp4"%string :=
            {| Coordinator.active := true;
               Coordinator.accident_id := Some 7;
               Coordinator.last_event_time := 0;
               Coordinator.camera_id := "CAM001";
               Coordinator.latitude := 11.748;
               Coordinator.longitude := 75.4938 |};
          "b.mp4"%string := idle "CAM002" ]};
     Coordinator.cam_order := ["a.mp4"%string; "b.mp4"%string];
     Coordinator.files := ∅ |}.

(** Camera a after its first two frames, both qualifying. *)
Definition before_trigger : Coordinator.Coordinator (list Q) :=
  (Coordinator.run yolo [frame_a 1000 hit; frame_a 1001 hit] two_idle).1.

(** Three more qualifying frames of camera a, more than 12 s and less
    than 45 s after the record was created at 1002 s. *)
Definition second_burst : list (Coordinator.Input (list Q)) :=
  [frame_a 1015 hit; frame_a 1016 hit; frame_b 1016 blank; frame_a 1017 hit].

Definition upload_down : Uploader.UploadEnv :=
  {| Uploader.outcome := Uploader.UploadRaised; Uploader.remove_ok := true |}.

Definition upload_fine : Uploader.UploadEnv :=
  {| Uploader.outcome := Uploader.Uploaded "https://videos/accident.mp4";
     Uploader.remove_ok := true |}.

(** Both cameras at 25 frames per second have triggered (records 7 and
    8) and hold an open window when their streams stall. *)
Definition both_open : Coordinator.Coordinator (list Q) :=
  (Coordinator.run yolo
     [(env_at 1000 (Some 7) enc_ok, "a.mp4"%string, hit);
      (env_at 1001 (Some 7) enc_ok, "a.mp4"%string, hit);
      (env_at 1002 (Some 7) enc_ok, "a.mp4"%string, hit);
      (env_at 1003 (Some 8) enc_ok, "b.mp4"%string, hit);
      (env_at 1004 (Some 8) enc_ok, "b.mp4"%string, hit);
      (env_at 1005 (Some 8) enc_ok, "b.mp4"%string, hit)]
     {| Coordinator.detectors :=
          {[ "a.mp4"%string := fresh 25; "b.mp4"%string := fresh 25 ]};
        Coordinator.accident_states :=
          {[ "a.mp4"%string := idle "CAM001";
             "b.mp4"%string := idle "CAM002" ]};
        Coordinator.cam_order := ["a.mp4"%string; "b.mp4"%string];
        Coordinator.files := ∅ |}).1.

(** The iteration at 1060 s, started by a frame of camera a: both
    cameras are past the timeout and both windows are forced. *)
Definition forced_both : Coordinator.Coordinator (list Q) * list Effect :=
  Coordinator.tick yolo (env_at 1060 (Some 9) enc_ok) "a.mp4" blank both_open.

(** Camera a after two more qualifying frames at 1061 s and 1062 s. *)
Definition after_forced : Coordinator.Coordinator (list Q) :=
  (Coordinator.run yolo
     [(env_at 1061 (Some 9) enc_ok, "a.mp4"%string, hit);
      (env_at 1062 (Some 9) enc_ok, "a.mp4"%string, hit)]
     forced_both.1).1.

(** The tracker after the schedule [race]: the queue is full and thread 1
    is inside [put]. *)
Definition after_race : Tracker.Tracker (list Q) :=
  default two_cameras (Tracker.run_schedule race two_cameras).

(** Two sources whose frames can be told apart. *)
Definition marked_sources : list (string * list (list Q)) :=
  [("cam0"%string, [[0.1%Q]; [0.2%Q]; [0.3%Q]]);
   ("cam1"%string, [[0.5%Q]; [0.6%Q]])].

(** On a queue of size 1: thread 0 puts its first frame; thread 1 reads
    its first frame, finds the queue full and drops it; the coordinator
    takes a frame; both threads go round again, thread 1 first. *)
Definition interleaved : list Tracker.Action :=
  replicate 4 (Tracker.Run 0 1%Q)
  ++ replicate 3 (Tracker.Run 1 1%Q)
  ++ [Tracker.GetFrame]
  ++ replicate 2 (Tracker.Run 1 2%Q) ++ replicate 2 (Tracker.Run 0 2%Q)
  ++ replicate 4 (Tracker.Run 1 3%Q) ++ replicate 3 (Tracker.Run 0 3%Q)
  ++ [Tracker.GetFrame].

Definition cam_a : Session.Camera :=
  {| Session.cam_camera_id := "CAM001"; Session.cam_latitude := 11.748;
     Session.cam_longitude := 75.4938; Session.cctv_url := "a.mp4" |}.

Definition cam_b : Session.Camera :=
  {| Session.cam_camera_id := "CAM002"; Session.cam_latitude := 11.749;
     Session.cam_longitude := 75.4948; Session.cctv_url := "b.mp4" |}.

(** Source b does not open; source a opens and reports 25 frames per
    second; the model loads. *)
Definition only_a_opens : Session.SetupEnv :=
  {| Session.validates := fun url => String.eqb url "a.mp4";
     Session.reopens := fun _ => true;
     Session.fps_prop := fun _ => 25%Q;
     Session.model_loads := fun _ => true |}.

(** Camera a triggers on its third frame; then nothing arrives, and ESC
    is pressed on the next frame. *)
Definition short_session : list (Session.Poll (list Q)) :=
  [Session.GotFrame (env_at 1000 (Some 7) enc_ok) "a.mp4" hit false;
   Session.GotFrame (env_at 1001 (Some 7) enc_ok) "a.mp4" hit false;
   Session.GotFrame (env_at 1002 (Some 7) enc_ok) "a.mp4" hit false;
   Session.NoFrame false;
   Session.GotFrame (env_at 1003 (Some 7) enc_ok) "a.mp4" blank true].

Definition final_env (k : string) : Session.ShutdownEnv :=
  {| Session.enc_final := at_time 1004 enc_ok;
     Session.upload := upload_fine |}.

(** The session in which only camera a of [never_fed] has sent a
    frame. *)
Definition a_was_active : Session.Session (list Q) :=
  {| Session.coordinator := never_fed;
     Session.active_cameras := {[ "a.mp4"%string ]};
     Session.frame_count := 1 |}.

(** A camera at 1 frame per second: three qualifying frames open the
    window [-2, 8] at frame 3, five frames without detection follow. *)
Definition to_window_end : list (list Q * Q) :=
  [(hit, 100%Q); (hit, 101%Q); (hit, 102%Q); (blank, 103%Q);
   (blank, 104%Q); (blank, 105%Q); (blank, 106%Q); (blank, 107%Q)].

End Examples.

(** * Properties *)

Import Detector.

(** ** Clock comparisons *)

Lemma Qltb_lt (x y : Q) : Qltb x y = true <-> (x < y)%Q.
Proof.
  unfold Qltb. rewrite negb_true_iff, <- not_true_iff_false, Qle_bool_iff.
  split; intros H; lra.
Qed.

Lemma Qltb_ge (x y : Q) : Qltb x y = false <-> (y <= x)%Q.
Proof.
  unfold Qltb. rewrite negb_false_iff, Qle_bool_iff. reflexivity.
Qed.

(** ** The bounded deque *)

Section DequeFacts.

Context {A : Type}.
Implicit Types (d : Deque.t A) (x : A).

Lemma deque_append_maxlen d x :
  Deque.maxlen (Deque.append d x) = Deque.maxlen d.
Proof. reflexivity. Qed.

Lemma deque_append_room d x :
  Z.of_nat (length (Deque.items d)) < Deque.maxlen d ->
  Deque.items (Deque.append d x) = Deque.items d ++ [x].
Proof.
  intros H. unfold Deque.append. simpl.
  rewrite length_app. simpl.
  destruct (Z.ltb_spec (Deque.maxlen d)
              (Z.of_nat (length (Deque.items d) + 1))); [lia | done].
Qed.

Lemma deque_append_full d x :
  Deque.maxlen d <= Z.of_nat (length (Deque.items d)) ->
  Deque.items (Deque.append d x) = tail (Deque.items d ++ [x]).
Proof.
  intros H. unfold Deque.append. simpl.
  rewrite length_app. simpl.
  destruct (Z.ltb_spec (Deque.maxlen d)
              (Z.of_nat (length (Deque.items d) + 1))); [done | lia].
Qed.

Lemma length_tail (l : list A) : length (tail l) = (length l - 1)%nat.
Proof. destruct l; simpl; lia. Qed.

Lemma deque_append_bounded d x :
  0 <= Deque.maxlen d ->
  Z.of_nat (length (Deque.items d)) <= Deque.maxlen d ->
  Z.of_nat (length (Deque.items (Deque.append d x))) <= Deque.maxlen d.
Proof.
  intros H0 H.
  destruct (Z.lt_ge_cases (Z.of_nat (length (Deque.items d)))
              (Deque.maxlen d)) as [Hlt | Hge].
  - rewrite deque_append_room by done. rewrite length_app. simpl. lia.
  - rewrite deque_append_full by done.
    rewrite length_tail, length_app. simpl. lia.
Qed.

End DequeFacts.

(** ** What the two methods leave untouched *)

Section DetectorFacts.

Context {Frame : Type}.
Variable model : Frame -> list Q.
Implicit Types (d : AccidentDetector Frame) (frame : Frame) (now : Q).

Lemma process_frame_frame_id d frame now :
  frame_id (process_frame model d frame now).1 = frame_id d + 1.
Proof.
  unfold process_frame.
  destruct (qualifies model d frame now); [|done].
  destruct (3 <=? _)%nat; done.
Qed.

Lemma process_frame_buffer d frame now :
  frame_buffer (process_frame model d frame now).1
  = Deque.append (frame_buffer d) (frame, frame_id d + 1).
Proof.
  unfold process_frame.
  destruct (qualifies model d frame now); [|done].
  destruct (3 <=? _)%nat; done.
Qed.

Lemma process_frame_fps d frame now :
  fps (process_frame model d frame now).1 = fps d.
Proof.
  unfold process_frame.
  destruct (qualifies model d frame now); [|done].
  destruct (3 <=? _)%nat; done.
Qed.

Lemma handle_clip_detector env fs d final :
  let d' := (handle_clip env fs d final).1.2 in
  fps d' = fps d /\ frame_id d' = frame_id d
  /\ frame_buffer d' = frame_buffer d
  /\ pending d' = pending d /\ global_last d' = global_last d.
Proof.
  unfold handle_clip.
  destruct (active_clip d) as [clip|]; [|done].
  destruct (finalizes _ _ _); [|done].
  destruct (write_clip _ _ _); done.
Qed.

Lemma init_inv fps0 d : init fps0 = Some d -> detector_inv fps0 d.
Proof.
  unfold init, Deque.new.
  destruct (Z.ltb_spec (fps0 * 20) 0) as [|Hge]; [done|].
  intros [= <-]. split; simpl; try done; lia.
Qed.

Lemma seqZ_snoc_tail m (n : nat) :
  tail (seqZ m (Z.of_nat n) ++ [m + Z.of_nat n])
  = seqZ (m + 1) (Z.of_nat n).
Proof.
  rewrite <- seqZ_S.
  rewrite seqZ_cons by lia. simpl.
  f_equal; lia.
Qed.

Lemma process_frame_inv fps0 d frame now :
  detector_inv fps0 d ->
  detector_inv fps0 (process_frame model d frame now).1.
Proof.
  intros [Hfps H0 Hmax Hb Hc Hseq Hp].
  assert (Hpend : (length (pending (process_frame model d frame now).1) < 3)%nat).
  { unfold process_frame.
    destruct (qualifies model d frame now); [|done].
    destruct (Nat.leb_spec 3 (length (pending d ++ [now]))); simpl; lia. }
  split; try done.
  - by rewrite process_frame_fps.
  - by rewrite process_frame_buffer, deque_append_maxlen.
  - rewrite process_frame_buffer.
    rewrite <- Hmax. apply deque_append_bounded; lia.
  - rewrite process_frame_buffer, process_frame_frame_id.
    destruct (Z.lt_ge_cases (Z.of_nat (length (Deque.items (frame_buffer d))))
                (Deque.maxlen (frame_buffer d))) as [Hlt | Hge].
    + rewrite deque_append_room by done. rewrite length_app. simpl. lia.
    + rewrite deque_append_full by done.
      rewrite length_tail, length_app. simpl. lia.
  - rewrite process_frame_buffer, process_frame_frame_id.
    set (l := Deque.items (frame_buffer d)) in *.
    set (n := length l) in *.
    destruct (Z.lt_ge_cases (Z.of_nat n) (Deque.maxlen (frame_buffer d)))
      as [Hlt | Hge].
    + rewrite deque_append_room by done. fold l.
      rewrite fmap_app, length_app. simpl. fold n.
      replace (Z.of_nat (n + 1)) with (Z.of_nat (S n)) by lia.
      rewrite seqZ_S, Hseq.
      replace (frame_id d + 1 - Z.of_nat (S n) + 1)
        with (frame_id d - Z.of_nat n + 1) by lia.
      do 2 f_equal. lia.
    + rewrite deque_append_full by done. fold l.
      rewrite length_tail, length_app. simpl. fold n.
      replace (n + 1 - 1)%nat with n by lia.
      rewrite fmap_tail, fmap_app, Hseq. simpl.
      replace (frame_id d + 1)
        with (frame_id d - Z.of_nat n + 1 + Z.of_nat n) at 1 by lia.
      rewrite seqZ_snoc_tail. f_equal. lia.
Qed.

Lemma handle_clip_inv fps0 d env fs final :
  detector_inv fps0 d ->
  detector_inv fps0 (handle_clip env fs d final).1.2.
Proof.
  intros [Hfps H0 Hmax Hb Hc Hseq Hp].
  destruct (handle_clip_detector env fs d final) as (E1 & E2 & E3 & E4 & E5).
  split; rewrite ?E1, ?E2, ?E3, ?E4, ?E5; done.
Qed.

Lemma reachable_inv fps0 d : reachable model fps0 d -> detector_inv fps0 d.
Proof.
  induction 1 as [d Hd | d frame now _ IH | d env fs final _ IH].
  - by apply init_inv.
  - by apply process_frame_inv.
  - by apply handle_clip_inv.
Qed.

Lemma reachable_process_frames fps0 d inputs :
  reachable model fps0 d ->
  reachable model fps0 (process_frames model d inputs).1.
Proof.
  revert d. induction inputs as [|[frame now] rest IH]; intros d Hd; [done|].
  simpl.
  pose proof (reach_frame model fps0 d frame now Hd) as H1.
  destruct (process_frame model d frame now) as [d1 evs]. simpl in H1.
  specialize (IH d1 H1).
  destruct (process_frames model d1 rest) as [d2 evss]. done.
Qed.

End DetectorFacts.

(** ** The ring buffer *)

(** C8.  In every reachable state of a camera's detector the ring buffer
    holds at most FPS×20 frames, before and after a frame is appended, and
    it holds the frames last processed, oldest first: its sequence numbers
    are consecutive and end at the current one.  A frame appended while
    there is room goes to the right end; appended to a full buffer, it
    goes to the right end and the leftmost, that is the oldest, entry is
    dropped. *)
Theorem ring_buffer_bounded_fifo {Frame : Type} (model : Frame -> list Q)
    (fps0 : Z) (d : AccidentDetector Frame) (frame : Frame) (now : Q) :
  reachable model fps0 d ->
  let buf := Deque.items (frame_buffer d) in
  let buf' := Deque.items (frame_buffer (process_frame model d frame now).1) in
  Z.of_nat (length buf) <= fps0 * 20
  /\ Z.of_nat (length buf') <= fps0 * 20
  /\ buf.*2 = seqZ (frame_id d - Z.of_nat (length buf) + 1)
                   (Z.of_nat (length buf))
  /\ (Z.of_nat (length buf) < fps0 * 20 ->
      buf' = buf ++ [(frame, frame_id d + 1)])
  /\ (0 < fps0 -> Z.of_nat (length buf) = fps0 * 20 ->
      exists oldest rest,
        buf = oldest :: rest /\ buf' = rest ++ [(frame, frame_id d + 1)]).
Proof.
  intros Hr buf buf'.
  pose proof (reachable_inv model fps0 d Hr) as Hd.
  pose proof (reachable_inv model fps0 _ (reach_frame model fps0 d frame now Hr))
    as Hd'.
  destruct Hd as [Hfps H0 Hmax Hb Hc Hseq Hp].
  split; [exact Hb|]. split; [exact (inv_bounded _ _ Hd')|].
  split; [exact Hseq|].
  subst buf'. rewrite process_frame_buffer. split.
  - intros Hlt. apply deque_append_room. rewrite Hmax. exact Hlt.
  - intros Hpos Hfull.
    rewrite deque_append_full by (rewrite Hmax; fold buf; lia).
    fold buf. destruct buf as [|oldest rest] eqn:E.
    + simpl in Hfull. lia.
    + exists oldest, rest. done.
Qed.

(** ** The debounce protocol *)

Section Debounce.

Context {Frame : Type}.
Variable model : Frame -> list Q.
Implicit Types (d : AccidentDetector Frame) (frame : Frame) (now : Q).

Lemma qualifies_spec d frame now :
  qualifies model d frame now = true
  <-> (exists c, c ∈ model frame /\ (CONF_THRESHOLD < c)%Q)
      /\ (GLOBAL_COOLDOWN < now - global_last d)%Q.
Proof.
  unfold qualifies. rewrite andb_true_iff, Qltb_lt, negb_true_iff.
  apply and_iff_compat_r. unfold detections. split.
  - destruct (List.filter _ _) as [|c l] eqn:E; [done|]. intros _.
    assert (Hin : In c (List.filter (fun c => Qltb CONF_THRESHOLD c)
                          (model frame))) by (rewrite E; left; done).
    apply filter_In in Hin as [Hin Hc].
    exists c. split; [by apply list_elem_of_In | by apply Qltb_lt].
  - intros (c & Hin & Hc).
    assert (Hf : In c (List.filter (fun c => Qltb CONF_THRESHOLD c)
                         (model frame))).
    { apply filter_In. split; [by apply list_elem_of_In | by apply Qltb_lt]. }
    destruct (List.filter _ _); [done | done].
Qed.

Lemma process_frame_quiet d frame now :
  qualifies model d frame now = false ->
  let r := process_frame model d frame now in
  r.2 = [] /\ pending r.1 = pending d
  /\ global_last r.1 = global_last d /\ active_clip r.1 = active_clip d.
Proof. intros H. unfold process_frame. rewrite H. done. Qed.

Lemma process_frame_pending d frame now :
  qualifies model d frame now = true ->
  (length (pending d) < 2)%nat ->
  let r := process_frame model d frame now in
  r.2 = [] /\ pending r.1 = pending d ++ [now]
  /\ global_last r.1 = global_last d /\ active_clip r.1 = active_clip d.
Proof.
  intros H Hlen. unfold process_frame. rewrite H.
  destruct (Nat.leb_spec 3 (length (pending d ++ [now]))) as [Hge|]; [|done].
  rewrite length_app in Hge. simpl in Hge. lia.
Qed.

Lemma process_frame_trigger d frame now :
  qualifies model d frame now = true ->
  (2 <= length (pending d))%nat ->
  let r := process_frame model d frame now in
  r.2 = [Accident now] /\ pending r.1 = []
  /\ global_last r.1 = now
  /\ frame_id r.1 = frame_id d + 1
  /\ active_clip r.1 = Some (fresh_window (fps d) (frame_id d + 1)).
Proof.
  intros H Hlen. unfold process_frame. rewrite H.
  destruct (Nat.leb_spec 3 (length (pending d ++ [now]))) as [|Hlt]; [done|].
  rewrite length_app in Hlt. simpl in Hlt. lia.
Qed.

(** A call that returns an event is a trigger. *)
Lemma process_frame_event d frame now :
  (process_frame model d frame now).2 <> [] ->
  qualifies model d frame now = true /\ (2 <= length (pending d))%nat.
Proof.
  unfold process_frame.
  destruct (qualifies model d frame now); [|done].
  destruct (Nat.leb_spec 3 (length (pending d ++ [now]))) as [Hge|]; [|done].
  rewrite length_app in Hge. simpl in Hge. intros _. split; [done | lia].
Qed.

Lemma qualifies_same_last d d' frame now :
  global_last d' = global_last d ->
  qualifies model d' frame now = qualifies model d frame now.
Proof. intros H. unfold qualifies. by rewrite H. Qed.

Lemma process_frames_app d l1 l2 :
  process_frames model d (l1 ++ l2)
  = let r1 := process_frames model d l1 in
    let r2 := process_frames model r1.1 l2 in
    (r2.1, r1.2 ++ r2.2).
Proof.
  revert d. induction l1 as [|[frame now] l1 IH]; intros d; simpl.
  - by destruct (process_frames model d l2).
  - destruct (process_frame model d frame now) as [d1 evs].
    rewrite IH. simpl.
    destruct (process_frames model d1 l1) as [d2 evss]. simpl.
    by destruct (process_frames model d2 l2).
Qed.

(** Frames that do not qualify leave the debounce state as it is. *)
Lemma process_frames_quiet d inputs :
  Forall (fun i => qualifies model d i.1 i.2 = false) inputs ->
  let r := process_frames model d inputs in
  r.2 = replicate (length inputs) [] /\ pending r.1 = pending d
  /\ global_last r.1 = global_last d /\ active_clip r.1 = active_clip d.
Proof.
  revert d. induction inputs as [|[frame now] rest IH]; intros d HF; [done|].
  apply Forall_cons in HF as [Hq HF]. simpl in Hq. simpl.
  destruct (process_frame_quiet d frame now Hq) as (E1 & E2 & E3 & E4).
  destruct (process_frame model d frame now) as [d1 evs]. simpl in *.
  assert (HF1 : Forall (fun i => qualifies model d1 i.1 i.2 = false) rest).
  { eapply Forall_impl; [exact HF|]. intros [f n] Hfn. simpl in *.
    by rewrite (qualifies_same_last d d1). }
  destruct (IH d1 HF1) as (F1 & F2 & F3 & F4).
  destruct (process_frames model d1 rest) as [d2 evss]. simpl in *.
  subst. repeat split; congruence.
Qed.

End Debounce.

Section DebounceRuns.

Context {Frame : Type}.
Variable model : Frame -> list Q.
Implicit Types (d : AccidentDetector Frame) (frame : Frame) (now : Q).

(** A frame that does not qualify for the detector [d]. *)
#[local] Abbreviation quiet d := (fun i : Frame * Q => qualifies model d i.1 i.2 = false).

(** A run that starts with frames that do not qualify. *)
Lemma process_frames_skip d q rest :
  Forall (quiet d) q ->
  exists d',
    pending d' = pending d /\ global_last d' = global_last d
    /\ active_clip d' = active_clip d
    /\ (process_frames model d (q ++ rest)).2
       = replicate (length q) [] ++ (process_frames model d' rest).2
    /\ (process_frames model d (q ++ rest)).1
       = (process_frames model d' rest).1.
Proof.
  intros HF. exists (process_frames model d q).1.
  destruct (process_frames_quiet model d q HF) as (E1 & E2 & E3 & E4).
  rewrite process_frames_app. simpl. rewrite E1. done.
Qed.

(** C2.  A frame qualifies when the model returns a box of confidence
    above 0.4 and more than 12 s have passed since the last trigger.  A
    qualifying frame appends the current time to the pending sequence;
    when that makes three entries, the sequence is cleared, the last
    trigger time becomes the current time, the call returns exactly one
    ACCIDENT event and a new window is opened around the current
    sequence number.  A frame that does not qualify changes nothing of
    this and returns no event.  Hence, from an empty pending sequence,
    the third qualifying frame returns the ACCIDENT event and every
    earlier call returns an empty list, whatever frames that do not
    qualify come in between. *)
Theorem debounce_fires_on_third d frame now q0 q1 q2 f1 n1 f2 n2 f3 n3 :
  let r := process_frame model d frame now in
  (qualifies model d frame now = true ->
   if (3 <=? length (pending d ++ [now]))%nat
   then pending r.1 = [] /\ global_last r.1 = now
        /\ r.2 = [Accident now]
        /\ active_clip r.1 = Some (fresh_window (fps d) (frame_id d + 1))
   else pending r.1 = pending d ++ [now] /\ global_last r.1 = global_last d
        /\ r.2 = [] /\ active_clip r.1 = active_clip d)
  /\ (qualifies model d frame now = false ->
      pending r.1 = pending d /\ global_last r.1 = global_last d
      /\ r.2 = [] /\ active_clip r.1 = active_clip d)
  /\ (pending d = [] ->
      Forall (quiet d) q0 -> Forall (quiet d) q1 -> Forall (quiet d) q2 ->
      qualifies model d f1 n1 = true ->
      qualifies model d f2 n2 = true ->
      qualifies model d f3 n3 = true ->
      (process_frames model d
         (q0 ++ (f1, n1) :: q1 ++ (f2, n2) :: q2 ++ [(f3, n3)])).2
      = replicate (length q0) [] ++ [] ::
        replicate (length q1) [] ++ [] ::
        replicate (length q2) [] ++ [[Accident n3]]).
Proof.
  intros r. split; [|split].
  - intros Hq. subst r.
    destruct (Nat.leb_spec 3 (length (pending d ++ [now]))) as [Hge|Hlt];
      rewrite length_app in *; simpl in *.
    + destruct (process_frame_trigger model d frame now Hq)
        as (E1 & E2 & E3 & E4 & E5); [lia|done].
    + destruct (process_frame_pending model d frame now Hq)
        as (E1 & E2 & E3 & E4); [lia|done].
  - intros Hq. subst r.
    destruct (process_frame_quiet model d frame now Hq) as (E1 & E2 & E3 & E4).
    done.
  - intros Hp H0 H1 H2 Hq1 Hq2 Hq3.
    (* the quiet prefix *)
    destruct (process_frames_skip d q0
                ((f1, n1) :: q1 ++ (f2, n2) :: q2 ++ [(f3, n3)]) H0)
      as (d0 & P0 & G0 & _ & -> & _).
    f_equal. simpl.
    (* first qualifying frame *)
    assert (Hq1' : qualifies model d0 f1 n1 = true)
      by (by rewrite (qualifies_same_last model d d0)).
    destruct (process_frame_pending model d0 f1 n1 Hq1')
      as (E1 & P1 & G1 & _); [rewrite P0, Hp; simpl; lia|].
    destruct (process_frame model d0 f1 n1) as [d1 ev1]. simpl in *.
    subst ev1.
    assert (H1' : Forall (quiet d1) q1).
    { eapply Forall_impl; [exact H1|]. intros [f n] Hfn. simpl in *.
      rewrite (qualifies_same_last model d d1); [done | congruence]. }
    destruct (process_frames_skip d1 q1 ((f2, n2) :: q2 ++ [(f3, n3)]) H1')
      as (d1' & P1' & G1' & _ & E & _).
    destruct (process_frames model d1 _) as [dx evx]. simpl in E. subst evx.
    f_equal. f_equal. simpl.
    (* second qualifying frame *)
    assert (Hq2' : qualifies model d1' f2 n2 = true).
    { rewrite (qualifies_same_last model d d1'); [done | congruence]. }
    destruct (process_frame_pending model d1' f2 n2 Hq2')
      as (E2 & P2 & G2 & _); [rewrite P1', P1, P0, Hp; simpl; lia|].
    destruct (process_frame model d1' f2 n2) as [d2 ev2]. simpl in *.
    subst ev2.
    assert (H2' : Forall (quiet d2) q2).
    { eapply Forall_impl; [exact H2|]. intros [f n] Hfn. simpl in *.
      rewrite (qualifies_same_last model d d2); [done | congruence]. }
    destruct (process_frames_skip d2 q2 [(f3, n3)] H2')
      as (d2' & P2' & G2' & _ & E & _).
    destruct (process_frames model d2 _) as [dy evy]. simpl in E. subst evy.
    f_equal. f_equal. simpl.
    (* third qualifying frame *)
    assert (Hq3' : qualifies model d2' f3 n3 = true).
    { rewrite (qualifies_same_last model d d2'); [done | congruence]. }
    destruct (process_frame_trigger model d2' f3 n3 Hq3')
      as (E3 & _).
    { rewrite P2', P2, P1', P1, P0, Hp. simpl. lia. }
    destruct (process_frame model d2' f3 n3) as [d3 ev3]. simpl in *.
    by subst ev3.
Qed.

End DebounceRuns.

(** ** Worked instances of the ring buffer and of the debounce protocol *)

Lemma reachable_fresh_run (fps0 : Z) (inputs : list (list Q * Q)) :
  0 <= fps0 ->
  reachable Examples.yolo fps0
    (process_frames Examples.yolo (Examples.fresh fps0) inputs).1.
Proof.
  intros H. apply reachable_process_frames. apply reach_init.
  unfold init, Deque.new, Examples.fresh.
  destruct (Z.ltb_spec (fps0 * 20) 0); [lia | done].
Qed.

Lemma ring_buffer_bounded_fifo_witness :
  reachable Examples.yolo 1 Examples.full1
  /\ Z.of_nat (length (Deque.items (frame_buffer Examples.full1))) = 20
  /\ Deque.items
       (frame_buffer
          (process_frame Examples.yolo Examples.full1 Examples.hit 7).1)
     = tail (Deque.items (frame_buffer Examples.full1))
       ++ [(Examples.hit, 21)].
Proof.
  assert (Hr : reachable Examples.yolo 1 Examples.full1)
    by (apply reachable_fresh_run; lia).
  split; [exact Hr|]. split; [reflexivity|].
  destruct (ring_buffer_bounded_fifo Examples.yolo 1 Examples.full1
              Examples.hit 7 Hr) as (_ & _ & _ & _ & Hfifo).
  destruct Hfifo as (oldest & rest & Hbuf & Hbuf'); [lia | reflexivity |].
  rewrite Hbuf'. rewrite Hbuf. reflexivity.
Defined.

Lemma debounce_fires_on_third_witness :
  (process_frames Examples.yolo (Examples.fresh 25)
     [(Examples.blank, 99%Q); (Examples.hit, 100%Q); (Examples.weak, 101%Q);
      (Examples.hit, 102%Q); (Examples.hit, 103%Q)]).2
  = [[]; []; []; []; [Accident 103]].
Proof.
  destruct (debounce_fires_on_third Examples.yolo (Examples.fresh 25)
              Examples.hit 100
              [(Examples.blank, 99%Q)] [(Examples.weak, 101%Q)] []
              Examples.hit 100 Examples.hit 102 Examples.hit 103)
    as (_ & _ & H).
  apply H; try reflexivity; repeat constructor.
Defined.

(** ** The clip window *)

Section ClipWindowFacts.

Context {Frame : Type}.
Variable model : Frame -> list Q.
Implicit Types (d : AccidentDetector Frame) (c w : ClipWindow Frame).

Lemma collect_step_bounds c e :
  clip_start (collect_step c e) = clip_start c
  /\ clip_end (collect_step c e) = clip_end c.
Proof. destruct e as [f fid]. unfold collect_step. by destruct (_ && _). Qed.

Lemma collect_bounds buf c :
  clip_start (collect buf c) = clip_start c
  /\ clip_end (collect buf c) = clip_end c.
Proof.
  revert c. induction buf as [|e buf IH]; intros c; [done|].
  unfold collect in *. simpl.
  destruct (IH (collect_step c e)) as [-> ->]. apply collect_step_bounds.
Qed.

(** On a buffer whose sequence numbers increase, the loop of [handle_clip]
    appends exactly the entries that [in_window] accepts at the start of
    the loop, in buffer order. *)
Lemma collect_frames buf c :
  StronglySorted Z.lt buf.*2 ->
  clip_frames (collect buf c)
  = clip_frames c ++ (List.filter (in_window c) buf).*1.
Proof.
  revert c. induction buf as [|[f fid] buf IH]; intros c Hs.
  - simpl. by rewrite app_nil_r.
  - apply StronglySorted_inv in Hs as [Hs Hall].
    change (collect ((f, fid) :: buf) c)
      with (collect buf (collect_step c (f, fid))).
    rewrite IH by done. simpl.
    unfold collect_step, in_window at 2. simpl.
    destruct (_ && _) eqn:E; simpl.
    + rewrite <- app_assoc. simpl. do 3 f_equal.
      apply filter_ext_in. intros [f' fid'] Hin.
      unfold in_window. simpl. f_equal.
      assert (fid < fid').
      { rewrite Forall_forall in Hall. apply Hall.
        apply list_elem_of_In in Hin. apply list_elem_of_fmap. by exists (f', fid'). }
      apply andb_true_iff in E as [_ E]. apply Z.ltb_lt in E.
      destruct (Z.ltb_spec fid fid'), (Z.ltb_spec (clip_last c) fid'); lia.
    + done.
Qed.

Lemma seqZ_sorted m (n : nat) : StronglySorted Z.lt (seqZ m (Z.of_nat n)).
Proof.
  revert m. induction n as [|n IH]; intros m.
  - rewrite seqZ_nil by lia. constructor.
  - rewrite seqZ_cons by lia.
    replace (Z.pred (Z.of_nat (S n))) with (Z.of_nat n) by lia.
    constructor; [apply IH|].
    apply Forall_seqZ. intros; lia.
Qed.

Lemma inv_sorted fps0 d :
  detector_inv fps0 d ->
  StronglySorted Z.lt (Deque.items (frame_buffer d)).*2.
Proof. intros H. rewrite (inv_seq _ _ H). apply seqZ_sorted. Qed.

Lemma inv_positive fps0 d e :
  detector_inv fps0 d -> e ∈ Deque.items (frame_buffer d) ->
  1 <= e.2 <= frame_id d.
Proof.
  intros H Hin.
  assert (He : e.2 ∈ (Deque.items (frame_buffer d)).*2)
    by (apply list_elem_of_fmap; by exists e).
  rewrite (inv_seq _ _ H) in He. apply elem_of_seqZ in He.
  pose proof (inv_count _ _ H). lia.
Qed.

Lemma handle_clip_open d w env fs final :
  active_clip d = Some w ->
  let w' := collect (Deque.items (frame_buffer d)) w in
  handle_clip env fs d final
  = if final || (clip_end w <? frame_id d)
    then (ready_of (write_clip env fs w').1, set_active_clip d None,
          (write_clip env fs w').2)
    else ([], set_active_clip d (Some w'), fs).
Proof.
  intros Hw w'. unfold handle_clip. rewrite Hw. fold w'.
  unfold finalizes.
  destruct (collect_bounds (Deque.items (frame_buffer d)) w) as [_ E].
  fold w' in E. rewrite E.
  destruct (final || _); [|done].
  by destruct (write_clip env fs w').
Qed.

Lemma handle_clip_closed d env fs final :
  active_clip d = None -> handle_clip env fs d final = ([], d, fs).
Proof. intros H. unfold handle_clip. by rewrite H. Qed.

End ClipWindowFacts.

(** C3.  The window opened by a trigger at sequence number [seq] spans
    [seq - FPS×5, seq + FPS×5] and starts empty; with FPS = 10 and
    [seq = 100] this is [50, 150].  A call of [handle_clip] on an open
    window closes it exactly when [final] is true or the current sequence
    number is beyond the window end; it then hands the collected frames to
    [write_clip], and otherwise keeps the window with the collected
    frames. *)
Theorem clip_window_span_and_finalize {Frame : Type}
    (model : Frame -> list Q) (d d2 : AccidentDetector Frame)
    (frame : Frame) (now : Q) (w : ClipWindow Frame)
    (env : EncodeEnv) (fs : FS) (final : bool) :
  (process_frame model d frame now).2 <> [] ->
  active_clip d2 = Some w ->
  let d1 := (process_frame model d frame now).1 in
  let seq := frame_id d1 in
  let r := handle_clip env fs d2 final in
  let w' := collect (Deque.items (frame_buffer d2)) w in
  active_clip d1
  = Some {| clip_start := seq - fps d1 * 5; clip_end := seq + fps d1 * 5;
            clip_frames := []; clip_last := 0 |}
  /\ (fps d = 10 -> seq = 100 ->
      exists w0, active_clip d1 = Some w0
                 /\ clip_start w0 = 50 /\ clip_end w0 = 150)
  /\ (active_clip r.1.2 = None <-> final = true \/ clip_end w < frame_id d2)
  /\ (final = true \/ clip_end w < frame_id d2 ->
      r = (ready_of (write_clip env fs w').1, set_active_clip d2 None,
           (write_clip env fs w').2))
  /\ (final = false /\ frame_id d2 <= clip_end w ->
      r = ([], set_active_clip d2 (Some w'), fs)
      /\ clip_start w' = clip_start w /\ clip_end w' = clip_end w).
Proof.
  intros Hev Hw d1 seq r w'.
  destruct (process_frame_event model d frame now Hev) as [Hq Hlen].
  destruct (process_frame_trigger model d frame now Hq Hlen)
    as (_ & _ & _ & Hid & Hclip).
  assert (Hfps : fps d1 = fps d) by apply process_frame_fps.
  subst seq. fold d1 in Hid, Hclip.
  assert (Hr : r = if final || (clip_end w <? frame_id d2)
                   then (ready_of (write_clip env fs w').1,
                         set_active_clip d2 None, (write_clip env fs w').2)
                   else ([], set_active_clip d2 (Some w'), fs))
    by (apply handle_clip_open; done).
  split; [|split; [|split; [|split]]].
  - rewrite Hclip, Hid, Hfps. reflexivity.
  - intros H10 H100. eexists. split; [exact Hclip|].
    unfold fresh_window. simpl. rewrite Hid in H100. rewrite H10. lia.
  - rewrite Hr.
    destruct final; simpl; [by split; auto|].
    destruct (Z.ltb_spec (clip_end w) (frame_id d2)); simpl.
    + split; auto.
    + split; [done|]. intros [|]; [done | lia].
  - intros H. rewrite Hr.
    destruct final; simpl; [done|].
    destruct (Z.ltb_spec (clip_end w) (frame_id d2)); [done|].
    destruct H; [done | lia].
  - intros [-> H]. rewrite Hr. simpl.
    destruct (Z.ltb_spec (clip_end w) (frame_id d2)); [lia|].
    split; [done|]. apply collect_bounds.
Qed.

Lemma clip_window_span_and_finalize_witness :
  let d1 := (process_frame Examples.yolo Examples.two_pending
               Examples.hit 62).1 in
  (process_frame Examples.yolo Examples.two_pending Examples.hit 62).2
  = [Accident 62]
  /\ frame_id d1 = 100
  /\ (exists w0, active_clip d1 = Some w0
                 /\ clip_start w0 = 50 /\ clip_end w0 = 150)
  /\ window_open (handle_clip Examples.enc_ok ∅ d1 false).1.2 = true
  /\ active_clip (handle_clip Examples.enc_ok ∅ d1 true).1.2 = None.
Proof.
  split; [reflexivity|]. split; [reflexivity|].
  destruct (clip_window_span_and_finalize Examples.yolo Examples.two_pending
              (process_frame Examples.yolo Examples.two_pending
                 Examples.hit 62).1
              Examples.hit 62 (fresh_window 10 100) Examples.enc_ok ∅ true)
    as (_ & H50 & Hfin & _);
    [vm_compute; discriminate | vm_compute; reflexivity |].
  split; [apply H50; vm_compute; reflexivity|].
  split; [vm_compute; reflexivity|].
  apply Hfin. left. reflexivity.
Defined.

(** ** The cooldown gate and the single window slot *)

Section Feeding.

Context {Frame : Type}.
Variable model : Frame -> list Q.
Implicit Types (d : AccidentDetector Frame).

Lemma reachable_feed fps0 env fs d frame now :
  reachable model fps0 d ->
  reachable model fps0 (feed model env fs d frame now).1.2.
Proof.
  intros Hd. unfold feed.
  pose proof (reach_frame model fps0 d frame now Hd) as H1.
  destruct (process_frame model d frame now) as [d1 events]. simpl in H1.
  pose proof (reach_clip model fps0 d1 env fs false H1) as H2.
  destruct (handle_clip env fs d1 false) as [[ready d2] fs2]. done.
Qed.

Lemma reachable_feeds fps0 env fs d inputs :
  reachable model fps0 d ->
  reachable model fps0 (feeds model env fs d inputs).1.2.
Proof.
  revert fs d. induction inputs as [|[frame now] rest IH]; intros fs d Hd.
  - done.
  - simpl.
    pose proof (reachable_feed fps0 env fs d frame now Hd) as H1.
    destruct (feed model env fs d frame now) as [[[events ready] d1] fs1].
    simpl in H1. specialize (IH fs1 d1 H1).
    destruct (feeds model env fs1 d1 rest) as [[log d2] fs2]. done.
Qed.

End Feeding.

(** C1, as the code has it.  A detector holds its window in the single
    slot [active_clip], so it never has two.  The cooldown gate is about
    time only: a call made no more than 12 s after the last trigger returns
    no event and leaves the pending sequence and the window as they are,
    and a call that returns an event was made more than 12 s after the
    last trigger.  Such a call does not look at the slot: it stores the new
    window there, whatever was in it.  The life of a window is not counted
    in seconds: [process_frame] never empties the slot, and [handle_clip]
    empties it exactly when [final] holds or the sequence number is beyond
    the window end. *)
Theorem cooldown_gate_and_window_slot {Frame : Type}
    (model : Frame -> list Q) (d : AccidentDetector Frame)
    (frame : Frame) (now : Q) (env : EncodeEnv) (fs : FS) (final : bool) :
  let r := process_frame model d frame now in
  let h := handle_clip env fs d final in
  ((now - global_last d <= GLOBAL_COOLDOWN)%Q ->
   r.2 = [] /\ pending r.1 = pending d /\ active_clip r.1 = active_clip d)
  /\ (r.2 <> [] ->
      (GLOBAL_COOLDOWN < now - global_last d)%Q
      /\ r.2 = [Accident now] /\ global_last r.1 = now
      /\ active_clip r.1 = Some (fresh_window (fps d) (frame_id d + 1)))
  /\ (r.2 = [] -> active_clip r.1 = active_clip d)
  /\ (window_open d = true -> window_open r.1 = true)
  /\ (forall w, active_clip d = Some w ->
        (active_clip h.1.2 = None <-> final = true \/ clip_end w < frame_id d))
  /\ (active_clip d = None -> h = ([], d, fs)).
Proof.
  intros r h.
  assert (Hgate : (now - global_last d <= GLOBAL_COOLDOWN)%Q ->
                  r.2 = [] /\ pending r.1 = pending d
                  /\ active_clip r.1 = active_clip d).
  { intros Hle. subst r.
    assert (Hq : qualifies model d frame now = false).
    { unfold qualifies. apply andb_false_iff. right. by apply Qltb_ge. }
    destruct (process_frame_quiet model d frame now Hq) as (E1 & E2 & E3 & E4).
    done. }
  assert (Hfire : r.2 <> [] ->
                  (GLOBAL_COOLDOWN < now - global_last d)%Q
                  /\ r.2 = [Accident now] /\ global_last r.1 = now
                  /\ active_clip r.1
                     = Some (fresh_window (fps d) (frame_id d + 1))).
  { intros Hev. subst r.
    destruct (process_frame_event model d frame now Hev) as [Hq Hlen].
    destruct (process_frame_trigger model d frame now Hq Hlen)
      as (E1 & E2 & E3 & E4 & E5).
    apply qualifies_spec in Hq as [_ Hq]. done. }
  assert (Hsame : r.2 = [] -> active_clip r.1 = active_clip d).
  { intros Hnil. subst r.
    destruct (qualifies model d frame now) eqn:Hq.
    - destruct (le_lt_dec 2 (length (pending d))) as [Hge|Hlt].
      + destruct (process_frame_trigger model d frame now Hq Hge) as (E1 & _).
        rewrite E1 in Hnil. discriminate.
      + by destruct (process_frame_pending model d frame now Hq Hlt)
          as (_ & _ & _ & E4).
    - by destruct (process_frame_quiet model d frame now Hq)
        as (_ & _ & _ & E4). }
  split; [exact Hgate|]. split; [exact Hfire|]. split; [exact Hsame|].
  split; [|split].
  - unfold window_open. intros Hopen.
    destruct (r.2) as [|ev evs] eqn:E.
    + by rewrite (Hsame eq_refl).
    + destruct Hfire as (_ & _ & _ & ->); done.
  - intros w Hw. subst h. rewrite (handle_clip_open d w) by done.
    destruct final; simpl; [by split; auto|].
    destruct (Z.ltb_spec (clip_end w) (frame_id d)); simpl.
    + split; auto.
    + split; [done|]. intros [|]; [done | lia].
  - intros Hnone. subst h. by apply handle_clip_closed.
Qed.

Lemma cooldown_gate_and_window_slot_witness :
  (process_frame Examples.yolo Examples.slow_camera Examples.hit 110).2 = []
  /\ (process_frame Examples.yolo Examples.slow_camera Examples.hit 117).2
     = [Accident 117]
  /\ active_clip
       (process_frame Examples.yolo Examples.slow_camera Examples.hit 117).1
     = Some (fresh_window 25 6)
  /\ window_open
       (handle_clip Examples.enc_ok ∅ Examples.slow_camera false).1.2 = true.
Proof.
  destruct (cooldown_gate_and_window_slot Examples.yolo Examples.slow_camera
              Examples.hit 110 Examples.enc_ok ∅ false) as (Hgate & _).
  destruct (cooldown_gate_and_window_slot Examples.yolo Examples.slow_camera
              Examples.hit 117 Examples.enc_ok ∅ false)
    as (_ & Hfire & _ & _ & Hlife & _).
  destruct Hgate as (E & _ & _); [vm_compute; discriminate|].
  destruct Hfire as (_ & E1 & _ & E2); [vm_compute; discriminate|].
  split; [exact E|]. split; [exact E1|]. split; [exact E2|].
  vm_compute. reflexivity.
Defined.

(** C1 as stated fails: a camera at 25 frames per second, handled as the
    main loop does, gets three qualifying frames at 100 s, 101 s and
    102 s.  The third opens the window [-122, 128].  Two more qualifying
    frames at 115 s and 116 s are pending; the window is still open, since
    only five frames have been processed.  The qualifying frame at 117 s
    then triggers again and the open window, with the five frames it
    held, is replaced by the window around sequence number 6. *)
Lemma second_trigger_with_open_window :
  reachable Examples.yolo 25 Examples.slow_camera
  /\ window_open Examples.slow_camera = true
  /\ active_clip Examples.slow_camera
     = Some {| clip_start := -122; clip_end := 128;
               clip_frames := replicate 5 Examples.hit; clip_last := 5 |}
  /\ global_last Examples.slow_camera = 102%Q
  /\ (process_frame Examples.yolo Examples.slow_camera Examples.hit 117).2
     = [Accident 117]
  /\ active_clip
       (process_frame Examples.yolo Examples.slow_camera Examples.hit 117).1
     = Some {| clip_start := -119; clip_end := 131;
               clip_frames := []; clip_last := 0 |}.
Proof.
  split.
  - apply reachable_feeds. apply reach_init. reflexivity.
  - vm_compute. repeat split; reflexivity.
Qed.

(** ** Windows that start at or below zero *)



(** ** The names of the artifacts *)

Section Names.

#[local] Open Scope string_scope.

Lemma str_forallb_app P s1 s2 :
  str_forallb P (s1 ++ s2) = str_forallb P s1 && str_forallb P s2.
Proof.
  induction s1 as [|c s1 IH]; simpl; [done|].
  by rewrite IH, andb_assoc.
Qed.

Lemma str_forallb_impl (P Q : Ascii.ascii -> bool) s :
  (forall c, P c = true -> Q c = true) ->
  str_forallb P s = true -> str_forallb Q s = true.
Proof.
  intros HPQ. induction s as [|c s IH]; simpl; [done|].
  rewrite !andb_true_iff. intros [H1 H2]. auto.
Qed.

Lemma string_of_uint_num d :
  str_forallb is_num_char (NilEmpty.string_of_uint d) = true.
Proof. induction d; simpl; try done; by rewrite IHd. Qed.

Lemma str_of_int_num n : str_forallb is_num_char (str_of_int n) = true.
Proof.
  unfold str_of_int, NilZero.string_of_int, NilZero.string_of_uint.
  destruct (Z.to_int n) as [d|d]; destruct d; simpl; try done;
    apply string_of_uint_num.
Qed.

Lemma is_num_char_not c (x : Ascii.ascii) :
  is_num_char x = false -> is_num_char c = true -> c <> x.
Proof. intros Hx Hc ->. congruence. Qed.

(** Replacing the extension of a name that has no other dot. *)
Lemma str_replace_extension s :
  str_forallb (fun c => negb (Ascii.eqb c "."%char)) s = true ->
  str_replace ".mp4" ".avi" (s ++ ".mp4") = s ++ ".avi".
Proof.
  unfold str_replace. induction s as [|c s IH]; intros H; [done|].
  simpl in H. apply andb_true_iff in H as [Hc Hs].
  apply negb_true_iff, Ascii.eqb_neq in Hc.
  change ((String c s) ++ ".mp4") with (String c (s ++ ".mp4")).
  cbn [replace_go String.prefix].
  destruct (Ascii.ascii_dec "."%char c) as [E|_]; [congruence|].
  change (String c s ++ ".avi") with (String c (s ++ ".avi")).
  f_equal. by apply IH.
Qed.

Lemma num_chars_no_dot s :
  str_forallb is_num_char s = true ->
  str_forallb (fun c => negb (Ascii.eqb c "."%char)) s = true.
Proof.
  apply str_forallb_impl. intros c Hc.
  apply negb_true_iff, Ascii.eqb_neq. by apply is_num_char_not.
Qed.

Lemma str_app_assoc s1 s2 s3 : s1 ++ (s2 ++ s3) = (s1 ++ s2) ++ s3.
Proof.
  induction s1 as [|c s1 IH]; [done|].
  change (String c (s1 ++ (s2 ++ s3)) = String c ((s1 ++ s2) ++ s3)).
  by rewrite IH.
Qed.

Lemma fallback_name_eq env :
  fallback_name env
  = "events/ACCIDENT_" ++ str_of_int (int_of_time (t_final env)) ++ ".avi".
Proof.
  unfold fallback_name, final_name.
  rewrite (str_app_assoc "events/ACCIDENT_" _ ".mp4").
  rewrite str_replace_extension.
  - by rewrite <- str_app_assoc.
  - rewrite str_forallb_app. apply andb_true_iff. split; [done|].
    apply num_chars_no_dot, str_of_int_num.
Qed.

Lemma list_ascii_app s1 s2 :
  String.list_ascii_of_string (s1 ++ s2)
  = (String.list_ascii_of_string s1 ++ String.list_ascii_of_string s2)%list.
Proof. induction s1 as [|c s1 IH]; simpl; [done | by rewrite IH]. Qed.

Lemma str_forallb_Forall P s :
  str_forallb P s = true -> Forall (fun c => P c = true) (String.list_ascii_of_string s).
Proof.
  induction s as [|c s IH]; simpl; [constructor|].
  rewrite andb_true_iff. intros [H1 H2]. constructor; auto.
Qed.

(** The intermediate file and the transcoded file never share a name. *)
Lemma temp_name_not_final env env' : temp_name env <> final_name env'.
Proof.
  unfold temp_name, final_name. intros E.
  apply (inj (String.app "events/ACCIDENT_")) in E.
  apply (f_equal String.list_ascii_of_string) in E.
  rewrite !list_ascii_app in E.
  change (String.list_ascii_of_string "_temp.avi")
    with (String.list_ascii_of_string "_temp" ++ String.list_ascii_of_string ".avi")%list
    in E.
  rewrite (assoc (++)%list) in E.
  apply app_inj_2 in E as [_ E]; [discriminate | done].
Qed.

(** Nor do the intermediate file and the fallback artifact. *)
Lemma temp_name_not_fallback env env' : temp_name env <> fallback_name env'.
Proof.
  rewrite fallback_name_eq. unfold temp_name. intros E.
  apply (inj (String.app "events/ACCIDENT_")) in E.
  apply (f_equal String.list_ascii_of_string) in E.
  rewrite !list_ascii_app in E.
  change (String.list_ascii_of_string "_temp.avi")
    with (String.list_ascii_of_string "_temp" ++ String.list_ascii_of_string ".avi")%list
    in E.
  rewrite (assoc (++)%list) in E.
  apply app_inj_2 in E as [E _]; [|done].
  pose proof (str_forallb_Forall _ _
                (str_of_int_num (int_of_time (t_final env')))) as HF.
  rewrite <- E in HF. apply Forall_app in HF as [_ HF].
  simpl in HF. repeat (apply Forall_cons in HF as [? HF]). done.
Qed.

End Names.

(** ** The clip writer *)

Section ClipWriter.

Context {Frame : Type}.
Implicit Types (clip : ClipWindow Frame) (env : EncodeEnv) (fs : FS).

Lemma path_exists_true fs p : path_exists fs p = true <-> p ∈ fs.
Proof. unfold path_exists. apply bool_decide_eq_true. Qed.

Lemma path_exists_false fs p : path_exists fs p = false <-> p ∉ fs.
Proof. unfold path_exists. apply bool_decide_eq_false. Qed.

Lemma fallback_renames env fs :
  temp_name env ∈ fs ->
  fallback env fs
  = (Some (fallback_name env),
     fs_rename fs (temp_name env) (fallback_name env)).
Proof.
  intros H. unfold fallback.
  by rewrite (proj2 (path_exists_true fs (temp_name env)) H).
Qed.

Lemma fallback_gives_up env fs :
  temp_name env ∉ fs -> fallback env fs = (None, fs).
Proof.
  intros H. unfold fallback.
  by rewrite (proj2 (path_exists_false fs (temp_name env)) H).
Qed.

Lemma write_clip_failure env fs clip :
  clip_frames clip <> [] -> ffmpeg env <> Transcoded ->
  write_clip env fs clip
  = fallback env
      (if writer_wrote env then fs_create fs (temp_name env) else fs).
Proof.
  intros Hne Hfail. unfold write_clip.
  destruct (clip_frames clip); [done|].
  by destruct (ffmpeg env).
Qed.

(** C4, as the code has it.  With an empty frame list the writer returns
    no path and touches nothing.  With frames, a successful transcode
    returns the MP4 path, which then exists, and the intermediate file is
    gone.  When the transcode fails in any way and the intermediate file
    exists, the writer renames it to the name of the MP4 with the
    extension [.avi] and returns that name.  When the transcode fails and
    the intermediate file does not exist (the video writer produced none),
    the writer returns no path.  So no path is returned exactly when there
    is no frame, or the transcode failed and there is no intermediate
    file. *)
Theorem write_clip_artifact env fs clip :
  let fs1 := if writer_wrote env then fs_create fs (temp_name env) else fs in
  let r := write_clip env fs clip in
  (clip_frames clip = [] -> r = (None, fs))
  /\ (clip_frames clip <> [] -> ffmpeg env = Transcoded ->
      r.1 = Some (final_name env)
      /\ final_name env ∈ r.2 /\ temp_name env ∉ r.2)
  /\ (clip_frames clip <> [] -> ffmpeg env <> Transcoded ->
      temp_name env ∈ fs1 ->
      r.1 = Some (fallback_name env)
      /\ fallback_name env
         = ("events/ACCIDENT_" ++ str_of_int (int_of_time (t_final env))
              ++ ".avi")%string
      /\ fallback_name env ∈ r.2 /\ temp_name env ∉ r.2)
  /\ (clip_frames clip <> [] -> ffmpeg env <> Transcoded ->
      temp_name env ∉ fs1 -> r = (None, fs1))
  /\ (writer_wrote env = true -> temp_name env ∈ fs1)
  /\ (r.1 = None <->
      clip_frames clip = []
      \/ (ffmpeg env <> Transcoded /\ temp_name env ∉ fs1)).
Proof.
  intros fs1 r.
  pose proof (temp_name_not_final env env) as Hnf.
  pose proof (temp_name_not_fallback env env) as Hnb.
  assert (Hempty : clip_frames clip = [] -> r = (None, fs)).
  { intros H. subst r. unfold write_clip. by rewrite H. }
  assert (Hok : clip_frames clip <> [] -> ffmpeg env = Transcoded ->
                r.1 = Some (final_name env)
                /\ final_name env ∈ r.2 /\ temp_name env ∉ r.2).
  { intros Hne Hff. subst r. unfold write_clip.
    destruct (clip_frames clip); [done|]. rewrite Hff. fold fs1. simpl.
    split; [done|].
    destruct (path_exists _ _) eqn:E.
    - unfold fs_remove, fs_create.
      rewrite !elem_of_difference, !elem_of_union, !elem_of_singleton.
      split; [split; [by left | congruence] | tauto].
    - apply path_exists_false in E. split; [|done].
      unfold fs_create. apply elem_of_union_l. by apply elem_of_singleton. }
  assert (Hren : clip_frames clip <> [] -> ffmpeg env <> Transcoded ->
                 temp_name env ∈ fs1 ->
                 r.1 = Some (fallback_name env)
                 /\ fallback_name env ∈ r.2 /\ temp_name env ∉ r.2).
  { intros Hne Hff Hin. subst r.
    rewrite write_clip_failure by done. fold fs1.
    rewrite fallback_renames by done. simpl.
    split; [done|]. unfold fs_rename.
    rewrite !elem_of_union, !elem_of_difference, !elem_of_singleton.
    split; [by left|]. intros [E | [_ E]]; congruence. }
  assert (Hnone : clip_frames clip <> [] -> ffmpeg env <> Transcoded ->
                  temp_name env ∉ fs1 -> r = (None, fs1)).
  { intros Hne Hff Hin. subst r.
    rewrite write_clip_failure by done. fold fs1.
    by rewrite fallback_gives_up. }
  split; [exact Hempty|]. split; [exact Hok|].
  split.
  { intros Hne Hff Hin. destruct (Hren Hne Hff Hin) as (E1 & E2 & E3).
    split; [done|]. split; [apply fallback_name_eq | done]. }
  split; [exact Hnone|].
  split.
  { intros Hw. subst fs1. rewrite Hw. unfold fs_create.
    apply elem_of_union_l. by apply elem_of_singleton. }
  split.
  - intros HN.
    destruct (clip_frames clip) as [|f fl] eqn:Hfr; [by left | right].
    assert (Hne : f :: fl <> []) by done.
    assert (Hff : ffmpeg env <> Transcoded).
    { intros Hff. destruct (Hok Hne Hff) as (E & _). congruence. }
    split; [done|]. intros Hin.
    destruct (Hren Hne Hff Hin) as (E & _). congruence.
  - intros [H | [Hff Hin]].
    + by rewrite (Hempty H).
    + destruct (clip_frames clip) as [|f fl] eqn:Hfr.
      * by rewrite Hempty.
      * by rewrite (Hnone ltac:(done) Hff Hin).
Qed.

End ClipWriter.

Lemma write_clip_artifact_witness :
  write_clip Examples.enc_ok ∅ Examples.one_frame
  = (Some "events/ACCIDENT_1000.mp4"%string, {[ "events/ACCIDENT_1000.mp4"%string ]})
  /\ (write_clip Examples.enc_no_ffmpeg ∅ Examples.one_frame).1
     = Some "events/ACCIDENT_1000.avi"%string
  /\ write_clip Examples.enc_no_temp ∅ Examples.one_frame = (None, ∅).
Proof.
  destruct (write_clip_artifact Examples.enc_ok ∅ Examples.one_frame)
    as (_ & Hok & _).
  destruct (write_clip_artifact Examples.enc_no_ffmpeg ∅ Examples.one_frame)
    as (_ & _ & Hren & _).
  destruct (write_clip_artifact Examples.enc_no_temp ∅ Examples.one_frame)
    as (_ & _ & _ & Hnone & _).
  split; [|split].
  - destruct Hok as (E & _); [discriminate | reflexivity |].
    vm_compute. reflexivity.
  - destruct Hren as (E & _); [discriminate | discriminate | |].
    + change (temp_name Examples.enc_no_ffmpeg
              ∈ ({[ temp_name Examples.enc_no_ffmpeg ]} ∪ ∅ : FS)).
      apply elem_of_union_l. by apply elem_of_singleton.
    + rewrite E. vm_compute. reflexivity.
  - apply Hnone; [discriminate | discriminate |].
    change (temp_name Examples.enc_no_temp ∉ (∅ : FS)).
    apply not_elem_of_empty.
Defined.

(** C4 as stated fails: the video writer produces no intermediate file
    (OpenCV opens no writer when the codec is missing and reports
    nothing), ffmpeg then exits with an error for want of an input, and
    the writer, given one frame, returns no path. *)
Lemma write_clip_none_with_frames :
  clip_frames Examples.one_frame = [Examples.hit]
  /\ ffmpeg Examples.enc_no_temp = CalledProcessError
  /\ write_clip Examples.enc_no_temp ∅ Examples.one_frame = (None, ∅).
Proof. vm_compute. repeat split; reflexivity. Qed.

(** ** The capture loop and the frame queue *)

Section CaptureLoop.

Context {Frame : Type}.
Implicit Types (q : Tracker.FrameQueue Frame) (p : Tracker.Producer Frame)
  (s : Tracker.Tracker Frame).

(** Run without interruption, the loop body drops the frame when the queue
    is full and appends it otherwise; the queue never exceeds its size. *)
Lemma offer_drops_or_enqueues now q src (frame : Frame) :
  Tracker.offer now q src frame
  = if Tracker.full q then q
    else {| Tracker.maxsize := Tracker.maxsize q;
            Tracker.qitems :=
              Tracker.qitems q
              ++ [{| Tracker.msg_ret := true; Tracker.msg_source := src;
                     Tracker.msg_frame := frame;
                     Tracker.msg_time := now |}] |}.
Proof. reflexivity. Qed.

Lemma get_keeps_room q :
  Tracker.full q = false -> Tracker.full (Tracker.get q).2 = false.
Proof.
  unfold Tracker.full, Tracker.get.
  destruct (Tracker.qitems q) as [|m rest] eqn:E; simpl; [by rewrite E|].
  rewrite !andb_false_iff, !Z.ltb_ge, !Z.leb_gt. simpl. lia.
Qed.

(** With a single capture thread, the thread is never inside [put] with a
    full queue: nothing but the thread itself adds to the queue between
    its test of [full()] and its [put]. *)
Lemma single_producer_never_blocks sched s s' p0 :
  Tracker.producers s = [p0] ->
  (forall f, Tracker.pc p0 = Tracker.AtPut f ->
             Tracker.full (Tracker.frame_queue s) = false) ->
  Tracker.run_schedule sched s = Some s' ->
  Tracker.blocked_in_put s' 0 = false.
Proof.
  revert s p0. induction sched as [|a sched IH]; intros s p0 Hp Hinv Hrun.
  - simpl in Hrun. injection Hrun as <-.
    unfold Tracker.blocked_in_put. rewrite Hp. simpl.
    destruct (Tracker.pc p0) eqn:E; try done. by eapply Hinv.
  - simpl in Hrun.
    destruct (Tracker.sys_step a s) as [s1|] eqn:Hstep; [|done].
    destruct a as [i now|]; simpl in Hstep.
    + rewrite Hp in Hstep. destruct i as [|i]; simpl in Hstep; [|done].
      destruct (Tracker.step_producer _ _ _ _) as [[q' p']|] eqn:Hsp; [|done].
      injection Hstep as <-.
      refine (IH _ p' _ _ Hrun); [done|]. simpl.
      unfold Tracker.step_producer in Hsp.
      destruct (Tracker.pc p0) eqn:Epc.
      * injection Hsp as <- <-. simpl. intros f.
        by destruct (Tracker.running s).
      * destruct (Tracker.cap p0); injection Hsp as <- <-; done.
      * injection Hsp as <- <-. simpl. intros f.
        destruct (Tracker.full (Tracker.frame_queue s)) eqn:Ef; done.
      * destruct (Tracker.put _ _); [|done]. injection Hsp as <- <-. done.
      * injection Hsp as <- <-. done.
      * done.
    + injection Hstep as <-.
      refine (IH _ p0 _ _ Hrun); [done|]. simpl.
      intros f Hf. destruct (Tracker.running s); [|by eapply Hinv].
      apply get_keeps_room. by eapply Hinv.
Qed.

End CaptureLoop.

(** C9 does not hold of the capture loop when several cameras run.  The
    loop tests [full()] and then calls the blocking [put]; between the two
    another capture thread can fill the queue.  Here thread 1 has read a
    frame and found the queue not full, thread 0 then puts the twentieth
    item, and thread 1 is inside [put] with a full queue: it cannot move,
    its frame is neither dropped nor enqueued, and it stays so until the
    coordinator takes a frame. *)
Lemma capture_put_can_block :
  exists s : Tracker.Tracker (list Q),
    Tracker.run_schedule Examples.race Examples.two_cameras = Some s
    /\ Z.of_nat (length (Tracker.qitems (Tracker.frame_queue s))) = 20
    /\ Tracker.full (Tracker.frame_queue s) = true
    /\ (Tracker.pc <$> Tracker.producers s !! 1%nat)
       = Some (Tracker.AtPut Examples.blank)
    /\ Tracker.blocked_in_put s 1 = true
    /\ Tracker.sys_step (Tracker.Run 1 3) s = None
    /\ (exists s', Tracker.run_schedule
                     [Tracker.GetFrame; Tracker.Run 1 3] s = Some s'
                   /\ Tracker.blocked_in_put s' 1 = false).
Proof.
  destruct (Tracker.run_schedule Examples.race Examples.two_cameras)
    as [s|] eqn:E; [|vm_compute in E; discriminate].
  exists s. split; [reflexivity|].
  vm_compute in E. injection E as <-.
  repeat split; try (vm_compute; reflexivity).
  eexists. split; vm_compute; reflexivity.
Qed.

(** ** The coordinator: the steps on one camera's state *)

Import Coordinator.

Section StateSteps.

Implicit Types (st : AccidentState) (id : Z) (clips : list Event).

(** The loop over the ready clips has two outcomes: nothing, or the
    record is marked TRIMMED, the upload is started and the state reset. *)
Lemma on_clips_cases id st clips :
  on_clips id st clips = (st, [])
  \/ exists p, ClipReady p ∈ clips /\ p <> ""%string
               /\ on_clips id st clips = (reset st, trimmed id p).
Proof.
  induction clips as [|ev clips IH]; [by left|].
  simpl. destruct ev as [t|p]; simpl.
  - destruct IH as [IH | (p & Hin & Hp & IH)]; [by left | right].
    exists p. split; [by apply list_elem_of_further | done].
  - destruct (String.eqb_spec p ""%string) as [->|Hp].
    + destruct IH as [IH | (p & Hin & Hp & IH)]; [by left | right].
      exists p. split; [by apply list_elem_of_further | done].
    + right. exists p. split; [apply list_elem_of_here | done].
Qed.

Lemma on_clips_single id st p :
  p <> ""%string ->
  on_clips id st [ClipReady p] = (reset st, trimmed id p).
Proof.
  intros Hp. simpl. by destruct (String.eqb_spec p ""%string).
Qed.

Lemma on_clips_last_event_time id st clips :
  last_event_time (on_clips id st clips).1 = last_event_time st.
Proof.
  destruct (on_clips_cases id st clips) as [-> | (p & _ & _ & ->)]; done.
Qed.

Lemma on_clips_no_insert id st clips :
  Forall (fun e => is_insert e = false) (on_clips id st clips).2.
Proof.
  destruct (on_clips_cases id st clips) as [-> | (p & _ & _ & ->)]; simpl.
  - constructor.
  - repeat constructor.
Qed.

Lemma clip_step_last_event_time st clips :
  last_event_time (clip_step st clips).1 = last_event_time st.
Proof.
  unfold clip_step. destruct (active_id st); [|done].
  apply on_clips_last_event_time.
Qed.

Lemma clip_step_no_insert st clips :
  Forall (fun e => is_insert e = false) (clip_step st clips).2.
Proof.
  unfold clip_step. destruct (active_id st); [|constructor].
  apply on_clips_no_insert.
Qed.

Lemma active_id_Some st id :
  active_id st = Some id
  <-> active st = true /\ accident_id st = Some id /\ id <> 0.
Proof.
  unfold active_id. destruct (accident_id st) as [i|].
  - destruct (active st); simpl.
    + destruct (Z.eqb_spec i 0) as [->|Hne]; simpl.
      * split; [done|]. intros (_ & [= <-] & H). done.
      * split; [intros [= <-]; done | intros (_ & [= <-] & _); done].
    + split; [done|]. intros (H & _). done.
  - split; [done|]. intros (_ & H & _). done.
Qed.

Lemma active_id_inactive st : active st = false -> active_id st = None.
Proof.
  intros H. unfold active_id. rewrite H.
  by destruct (accident_id st).
Qed.

(** Step 1 asks for a record only when its guard holds. *)
Lemma on_events_guard env st events :
  (on_events env st events).2 <> [] ->
  (RECORD_COOLDOWN < t_since env - last_event_time st)%Q
  /\ (on_events env st events).2 = create_accident_event st.
Proof.
  induction events as [|ev events IH]; [done|]. simpl.
  destruct (Qltb RECORD_COOLDOWN _) eqn:E; simpl.
  - intros _. apply Qltb_lt in E. split; [done|].
    destruct (created env) as [id|]; [|done].
    by destruct (negb (id =? 0)).
  - exact IH.
Qed.

Lemma on_events_blocked env st events :
  (t_since env - last_event_time st <= RECORD_COOLDOWN)%Q ->
  on_events env st events = (st, []).
Proof.
  intros Hle. apply Qltb_ge in Hle.
  induction events as [|ev events IH]; [done|]. simpl.
  rewrite Hle. simpl. exact IH.
Qed.

Lemma on_events_accident env st now rest :
  (RECORD_COOLDOWN < t_since env - last_event_time st)%Q ->
  on_events env st (Accident now :: rest)
  = (match created env with
     | Some id => if negb (id =? 0) then activate st id (t_created env) else st
     | None => st
     end, create_accident_event st).
Proof.
  intros Hlt. apply Qltb_lt in Hlt. simpl. rewrite Hlt. simpl.
  destruct (created env) as [id|]; [|done].
  by destruct (negb (id =? 0)).
Qed.

Lemma detect_step_guard env st events :
  (detect_step env st events).2 <> [] ->
  active st = false
  /\ (RECORD_COOLDOWN < t_since env - last_event_time st)%Q
  /\ (detect_step env st events).2 = create_accident_event st.
Proof.
  unfold detect_step. destruct (active st); [done|].
  intros H. split; [done|]. by apply on_events_guard.
Qed.

Lemma detect_step_blocked env st events :
  (t_since env - last_event_time st <= RECORD_COOLDOWN)%Q ->
  detect_step env st events = (st, []).
Proof.
  intros H. unfold detect_step. destruct (active st); [done|].
  by apply on_events_blocked.
Qed.

(** A successful creation stamps the state with the creation time. *)
Lemma detect_step_created env st events id :
  (detect_step env st events).2 <> [] ->
  created env = Some id -> id <> 0 ->
  (detect_step env st events).1 = activate st id (t_created env).
Proof.
  unfold detect_step. destruct (active st); [done|].
  induction events as [|ev events IH]; [done|]. simpl.
  destruct (Qltb RECORD_COOLDOWN _) eqn:E; simpl; [|exact IH].
  intros _ -> Hid. by destruct (Z.eqb_spec id 0).
Qed.

End StateSteps.

(** ** The coordinator: the safety net *)

Section SafetyNet.

Context {Frame : Type}.
Implicit Types (c : Coordinator Frame) (det : AccidentDetector Frame)
  (st : AccidentState) (k : string).

Lemma ready_of_cases (path : option string) :
  ready_of path = []
  \/ exists p, p <> ""%string /\ ready_of path = [ClipReady p].
Proof.
  destruct path as [p|]; [|by left]. simpl.
  destruct (String.eqb_spec p ""%string); [by left | right; by exists p].
Qed.

(** [handle_clip] returns at most one clip, with a non-empty path. *)
Lemma handle_clip_ready env fs det final :
  (handle_clip env fs det final).1.1 = []
  \/ exists p, p <> ""%string
               /\ (handle_clip env fs det final).1.1 = [ClipReady p].
Proof.
  unfold handle_clip. destruct (active_clip det) as [w|]; [|by left].
  destruct (finalizes _ _ _); [|by left].
  destruct (write_clip _ _ _) as [path fs']. simpl. apply ready_of_cases.
Qed.

(** A forced call on a detector with no window, or with a window that
    holds no frame after the loop, yields nothing. *)
Lemma handle_clip_nothing env fs det :
  active_clip det = None
  \/ (exists w, active_clip det = Some w
                /\ clip_frames (collect (Deque.items (frame_buffer det)) w)
                   = []) ->
  (handle_clip env fs det true).1.1 = [].
Proof.
  intros [H | (w & Hw & Hfr)].
  - by rewrite handle_clip_closed.
  - rewrite (handle_clip_open det w) by done. simpl.
    unfold write_clip. by rewrite Hfr.
Qed.

(** The check of one camera that is active past the timeout. *)
Lemma safety_check_forced senv k c st id det :
  accident_states c !! k = Some st ->
  active_id st = Some id ->
  (FORCE_TIMEOUT < t_safety senv - last_event_time st)%Q ->
  detectors c !! k = Some det ->
  let h := handle_clip (enc_forced senv) (files c) det true in
  exists effs,
    safety_check senv k c
    = ({| detectors := <[ k := h.1.2 ]> (detectors c);
          accident_states := <[ k := reset st ]> (accident_states c);
          cam_order := cam_order c; files := h.2 |}, effs)
    /\ ((h.1.1 = []
         /\ effs = failed id (t_safety senv - last_event_time st))
        \/ (exists p, h.1.1 = [ClipReady p] /\ p <> ""%string
                      /\ effs = trimmed id p)).
Proof.
  intros Hst Hid Ht Hdet h. unfold safety_check.
  rewrite Hst, Hid. apply Qltb_lt in Ht. rewrite Ht, Hdet.
  pose proof (handle_clip_ready (enc_forced senv) (files c) det true) as Hr.
  fold h in Hr. subst h.
  destruct (handle_clip _ _ _ _) as [[forced det'] fs']. simpl in *.
  destruct Hr as [-> | (p & Hp & ->)].
  - simpl. eexists. split; [reflexivity|]. left. split; reflexivity.
  - rewrite on_clips_single by done. simpl.
    eexists. split; [reflexivity|]. right. by exists p.
Qed.

(** Every check either leaves the coordinator alone or is a forced one. *)
Lemma safety_check_cases senv k c :
  safety_check senv k c = (c, [])
  \/ exists st id det,
       accident_states c !! k = Some st /\ active_id st = Some id
       /\ (FORCE_TIMEOUT < t_safety senv - last_event_time st)%Q
       /\ detectors c !! k = Some det.
Proof.
  unfold safety_check.
  destruct (accident_states c !! k) as [st|] eqn:Hst; [|by left].
  destruct (active_id st) as [id|] eqn:Hid; [|by left].
  destruct (Qltb _ _) eqn:E; [|by left].
  destruct (detectors c !! k) as [det|] eqn:Hdet; [|by left].
  right. exists st, id, det. apply Qltb_lt in E. done.
Qed.

(** What a check of [k0] changes: nothing of another camera; of [k0], at
    most the detector's window slot, and the state is reset. *)
Lemma safety_check_frame senv k0 c :
  let c' := (safety_check senv k0 c).1 in
  cam_order c' = cam_order c
  /\ (forall k, k <> k0 ->
        accident_states c' !! k = accident_states c !! k
        /\ detectors c' !! k = detectors c !! k)
  /\ (forall k st, accident_states c !! k = Some st ->
        accident_states c' !! k = Some st
        \/ accident_states c' !! k = Some (reset st))
  /\ Forall (fun e => is_insert e = false) (safety_check senv k0 c).2.
Proof.
  destruct (safety_check_cases senv k0 c) as [E | (st & id & det & H1 & H2 & H3 & H4)].
  - rewrite E. simpl. repeat split; auto.
  - destruct (safety_check_forced senv k0 c st id det H1 H2 H3 H4)
      as (effs & E & Heffs).
    rewrite E. simpl. split; [done|]. split; [|split].
    + intros k Hk. by rewrite !lookup_insert_ne.
    + intros k st' Hst'. destruct (decide (k = k0)) as [->|Hk].
      * right. rewrite lookup_insert_eq. congruence.
      * left. by rewrite lookup_insert_ne.
    + destruct Heffs as [[_ ->] | (p & _ & _ & ->)]; repeat constructor.
Qed.

Lemma safety_net_frame senv cams c :
  let c' := (safety_net senv cams c).1 in
  cam_order c' = cam_order c
  /\ (forall k, k ∉ cams ->
        accident_states c' !! k = accident_states c !! k
        /\ detectors c' !! k = detectors c !! k)
  /\ (forall k st, accident_states c !! k = Some st ->
        accident_states c' !! k = Some st
        \/ accident_states c' !! k = Some (reset st))
  /\ Forall (fun e => is_insert e = false) (safety_net senv cams c).2.
Proof.
  revert c. induction cams as [|k0 cams IH]; intros c; simpl.
  - repeat split; auto.
  - destruct (safety_check_frame (senv k0) k0 c) as (A1 & A2 & A3 & A4).
    destruct (safety_check (senv k0) k0 c) as [c1 e1]. simpl in *.
    destruct (IH c1) as (B1 & B2 & B3 & B4).
    destruct (safety_net senv cams c1) as [c2 e2]. simpl in *.
    split; [congruence|]. split; [|split].
    + intros k Hk. apply not_elem_of_cons in Hk as [Hk0 Hk].
      destruct (A2 k Hk0) as [<- <-]. by apply B2.
    + intros k st Hst. destruct (A3 k st Hst) as [H1 | H1].
      * by apply B3.
      * destruct (B3 k _ H1) as [H2 | H2]; [by right | right; exact H2].
    + by apply Forall_app.
Qed.

(** The checks add no camera and remove none. *)
Lemma safety_check_keys senv k0 c k :
  is_Some (accident_states (safety_check senv k0 c).1 !! k)
  <-> is_Some (accident_states c !! k).
Proof.
  destruct (safety_check_cases senv k0 c)
    as [E | (st & id & det & H1 & H2 & H3 & H4)].
  - by rewrite E.
  - destruct (safety_check_forced senv k0 c st id det H1 H2 H3 H4)
      as (effs & E & _).
    rewrite E. simpl. rewrite lookup_insert_is_Some.
    split; [|destruct (decide (k0 = k)); auto].
    intros [<- | [_ H]]; [by rewrite H1 | done].
Qed.

Lemma safety_net_keys senv cams c k :
  is_Some (accident_states (safety_net senv cams c).1 !! k)
  <-> is_Some (accident_states c !! k).
Proof.
  revert c. induction cams as [|k0 cams IH]; intros c; simpl; [done|].
  pose proof (safety_check_keys (senv k0) k0 c k) as H1.
  destruct (safety_check (senv k0) k0 c) as [c1 e1]. simpl in *.
  pose proof (IH c1) as H2.
  destruct (safety_net senv cams c1) as [c2 e2]. simpl in *.
  by rewrite H2.
Qed.

(** The net resets every camera in its list that is active past the
    timeout, and makes the calls for it. *)
Lemma safety_net_forced senv cams c k st id det :
  NoDup cams -> k ∈ cams ->
  accident_states c !! k = Some st ->
  active_id st = Some id ->
  (FORCE_TIMEOUT < t_safety (senv k) - last_event_time st)%Q ->
  detectors c !! k = Some det ->
  exists fs_k effs,
    let h := handle_clip (enc_forced (senv k)) fs_k det true in
    accident_states (safety_net senv cams c).1 !! k = Some (reset st)
    /\ detectors (safety_net senv cams c).1 !! k = Some h.1.2
    /\ effs ⊆ (safety_net senv cams c).2
    /\ ((h.1.1 = []
         /\ effs = failed id (t_safety (senv k) - last_event_time st))
        \/ (exists p, h.1.1 = [ClipReady p] /\ p <> ""%string
                      /\ effs = trimmed id p)).
Proof.
  revert c. induction cams as [|k0 cams IH]; intros c Hnd Hin Hst Hid Ht Hdet.
  - by apply elem_of_nil in Hin.
  - apply NoDup_cons in Hnd as [Hk0 Hnd]. simpl.
    destruct (decide (k = k0)) as [->|Hne].
    + destruct (safety_check_forced (senv k0) k0 c st id det Hst Hid Ht Hdet)
        as (effs & E & Heffs).
      rewrite E.
      match goal with |- context [safety_net senv cams ?c1] =>
        destruct (safety_net_frame senv cams c1) as (_ & B2 & _);
        destruct (safety_net senv cams c1) as [c2 e2] end.
      simpl in *. destruct (B2 k0 Hk0) as [-> ->].
      rewrite !lookup_insert_eq.
      exists (files c), effs. split; [done|]. split; [done|].
      split; [|exact Heffs].
      intros e He. apply elem_of_app. by left.
    + apply elem_of_cons in Hin as [Hin | Hin]; [done|].
      destruct (safety_check_frame (senv k0) k0 c) as (_ & A2 & _).
      destruct (safety_check (senv k0) k0 c) as [c1 e1]. simpl in *.
      destruct (A2 k Hne) as [A2s A2d].
      destruct (IH c1 Hnd Hin) as (fs_k & effs & H1 & H2 & H3 & H4);
        [congruence | done | done | congruence |].
      destruct (safety_net senv cams c1) as [c2 e2]. simpl in *.
      exists fs_k, effs. split; [done|]. split; [done|].
      split; [|exact H4].
      intros e He. apply elem_of_app. right. by apply H3.
Qed.

End SafetyNet.

(** ** The coordinator: one iteration of the main loop *)

Section Tick.

Context {Frame : Type}.
Variable model : Frame -> list Q.
Implicit Types (c : Coordinator Frame) (det : AccidentDetector Frame)
  (st : AccidentState) (k cam : string).

(** Steps 1 and 2 spelled out for a known camera. *)
Lemma tick_front_known env cam frame c detector state :
  detectors c !! cam = Some detector ->
  accident_states c !! cam = Some state ->
  let p := process_frame model detector frame (t_now env) in
  let s1 := detect_step env state p.2 in
  let h := handle_clip (enc env) (files c) p.1 false in
  let s2 := clip_step s1.1 h.1.1 in
  tick_front model env cam frame c
  = Some ({| detectors := <[ cam := h.1.2 ]> (detectors c);
             accident_states := <[ cam := s2.1 ]> (accident_states c);
             cam_order := cam_order c; files := h.2 |},
          s1.2 ++ s2.2).
Proof.
  intros Hd Hs. unfold tick_front. rewrite Hd, Hs. simpl.
  destruct (process_frame _ _ _ _) as [d1 events]. simpl.
  destruct (detect_step _ _ _) as [st1 e1]. simpl.
  destruct (handle_clip _ _ _ _) as [[ready d2] fs2]. simpl.
  by destruct (clip_step _ _) as [st2 e2].
Qed.

Lemma tick_front_unknown env cam frame c :
  detectors c !! cam = None \/ accident_states c !! cam = None ->
  tick_front model env cam frame c = None.
Proof.
  intros [H | H]; unfold tick_front; rewrite H; [done|].
  by destruct (detectors c !! cam).
Qed.

Lemma tick_front_cam_order env cam frame c c2 e12 :
  tick_front model env cam frame c = Some (c2, e12) ->
  cam_order c2 = cam_order c.
Proof.
  destruct (detectors c !! cam) as [detector|] eqn:Hd;
    [|by rewrite tick_front_unknown by (by left)].
  destruct (accident_states c !! cam) as [state|] eqn:Hs;
    [|by rewrite tick_front_unknown by (by right)].
  rewrite (tick_front_known env cam frame c detector state) by done.
  by intros [= <- _].
Qed.

Lemma tick_unfold env cam frame c c2 e12 :
  tick_front model env cam frame c = Some (c2, e12) ->
  tick model env cam frame c
  = ((safety_net (safety env) (cam_order c2) c2).1,
     e12 ++ (safety_net (safety env) (cam_order c2) c2).2).
Proof.
  intros H. unfold tick. rewrite H.
  by destruct (safety_net _ _ _).
Qed.

Lemma tick_front_keys env cam frame c c2 e12 k :
  tick_front model env cam frame c = Some (c2, e12) ->
  is_Some (accident_states c2 !! k) <-> is_Some (accident_states c !! k).
Proof.
  destruct (detectors c !! cam) as [detector|] eqn:Hd;
    [|by rewrite tick_front_unknown by (by left)].
  destruct (accident_states c !! cam) as [state|] eqn:Hs;
    [|by rewrite tick_front_unknown by (by right)].
  rewrite (tick_front_known env cam frame c detector state) by done.
  intros [= <- _]. simpl. rewrite lookup_insert_is_Some.
  split; [|destruct (decide (cam = k)); auto].
  intros [<- | [_ H]]; [by rewrite Hs | done].
Qed.

(** The key order stays that of the dict of states through the loop. *)
Lemma tick_well_formed env cam frame c :
  well_formed c -> well_formed (tick model env cam frame c).1.
Proof.
  intros [Hnd Hkeys].
  destruct (tick_front model env cam frame c) as [[c2 e12]|] eqn:Hfront;
    [|unfold tick; rewrite Hfront; done].
  rewrite (tick_unfold env cam frame c c2 e12 Hfront). simpl.
  destruct (safety_net_frame (safety env) (cam_order c2) c2) as (Ho & _).
  pose proof (tick_front_cam_order env cam frame c c2 e12 Hfront) as Ho2.
  split.
  - by rewrite Ho, Ho2.
  - intros k. rewrite Ho, Ho2, safety_net_keys.
    rewrite (tick_front_keys env cam frame c c2 e12 k Hfront). apply Hkeys.
Qed.

(** C5, as the code has it.  In every iteration that handles a frame of a
    known camera, the safety net passes over all cameras ([well_formed]:
    [cam_order] lists the keys of the dict of states, each once).  For every
    camera [k] that, after steps 1 and 2, is active with a record id and
    whose [last_event_time] lies strictly more than 45 s before the clock
    reading of its check, [handle_clip(final=True)] is called on its
    detector.  If that yields a clip, the record is updated to TRIMMED with
    the clip path, an upload process is started, and the state is reset;
    if it yields nothing, the record is updated to FAILED with the message
    [No clip generated after ...s] and the state is reset.  The call
    yields nothing when the detector has no window or its window holds no
    frame.  ([fs_k] is the file system when camera [k] is checked: it
    depends on the clips written for the cameras checked before.) *)
Theorem safety_net_forces_stuck_cameras env cam frame c c2 e12 k st id det :
  tick_front model env cam frame c = Some (c2, e12) ->
  well_formed c ->
  accident_states c2 !! k = Some st ->
  active_id st = Some id ->
  (FORCE_TIMEOUT < t_safety (safety env k) - last_event_time st)%Q ->
  detectors c2 !! k = Some det ->
  let r := tick model env cam frame c in
  let since := (t_safety (safety env k) - last_event_time st)%Q in
  exists fs_k,
    let h := handle_clip (enc_forced (safety env k)) fs_k det true in
    accident_states r.1 !! k = Some (reset st)
    /\ active (reset st) = false /\ accident_id (reset st) = None
    /\ detectors r.1 !! k = Some h.1.2
    /\ (h.1.1 = [] \/ exists p, h.1.1 = [ClipReady p])
    /\ (h.1.1 = [] -> failed id since ⊆ r.2)
    /\ (forall p, h.1.1 = [ClipReady p] -> trimmed id p ⊆ r.2)
    /\ (active_clip det = None
        \/ (exists w, active_clip det = Some w
                      /\ clip_frames
                           (collect (Deque.items (frame_buffer det)) w) = []) ->
        h.1.1 = []).
Proof.
  intros Hfront [Hnd Hkeys] Hst Hid Ht Hdet r since.
  assert (Hin : k ∈ cam_order c).
  { apply Hkeys. apply (tick_front_keys env cam frame c c2 e12 k Hfront).
    by rewrite Hst. }
  subst r. rewrite (tick_unfold env cam frame c c2 e12 Hfront). simpl.
  rewrite <- (tick_front_cam_order env cam frame c c2 e12 Hfront) in Hnd, Hin.
  destruct (safety_net_forced (safety env) (cam_order c2) c2 k st id det
              Hnd Hin Hst Hid Ht Hdet)
    as (fs_k & effs & H1 & H2 & H3 & H4).
  exists fs_k. simpl. split; [exact H1|].
  split; [done|]. split; [done|]. split; [exact H2|].
  split; [|split; [|split]].
  - destruct H4 as [[E _] | (p & E & _)]; [by left | right; by exists p].
  - intros E. destruct H4 as [[_ ->] | (p & E' & _)]; [|congruence].
    intros e He. apply elem_of_app. right. by apply H3.
  - intros p E. destruct H4 as [[E' _] | (p' & E' & _ & ->)]; [congruence|].
    assert (p' = p) as -> by congruence.
    intros e He. apply elem_of_app. right. by apply H3.
  - apply handle_clip_nothing.
Qed.

End Tick.

Lemma two_keys_well_formed {Frame : Type} (a b : string)
    (x y : AccidentState) dets fs :
  a <> b ->
  well_formed (Frame := Frame)
    {| detectors := dets; accident_states := {[ a := x; b := y ]};
       cam_order := [a; b]; files := fs |}.
Proof.
  intros Hab. split; simpl.
  - apply NoDup_cons. split; [|apply NoDup_singleton].
    by rewrite list_elem_of_singleton.
  - intros k. rewrite elem_of_cons, list_elem_of_singleton.
    rewrite lookup_insert_is_Some.
    destruct (decide (a = k)) as [->|Ha]; [by split; auto|].
    destruct (decide (b = k)) as [->|Hb].
    + rewrite lookup_singleton_eq. split; [right; split; done | auto].
    + rewrite lookup_singleton_ne by done.
      split; [intros [|]; congruence|].
      intros [|[_ H]]; [congruence | by destruct H].
Qed.

Lemma never_fed_well_formed : well_formed Examples.never_fed.
Proof. by apply two_keys_well_formed. Qed.

Lemma safety_net_forces_stuck_cameras_witness :
  let env := Examples.env_at 46 (Some 8) Examples.enc_no_temp in
  let r := tick Examples.yolo env "b.mp4" Examples.blank Examples.never_fed in
  accident_states r.1 !! "a.mp4"%string
  = Some {| active := false; accident_id := None; last_event_time := 0;
            camera_id := "CAM001"; latitude := 11.748;
            longitude := 75.4938 |}
  /\ r.2 = [UpdateAccident 7
              [("status", "FAILED");
               ("clip_path", "No clip generated after 46s")]%string].
Proof.
  intros env r.
  destruct (tick_front Examples.yolo env "b.mp4" Examples.blank
              Examples.never_fed) as [[c2 e12]|] eqn:Hfront;
    [|vm_compute in Hfront; discriminate].
  destruct (accident_states c2 !! "a.mp4"%string) as [st|] eqn:Hst;
    [|vm_compute in Hfront; injection Hfront as <- <-;
      vm_compute in Hst; discriminate].
  destruct (detectors c2 !! "a.mp4"%string) as [det|] eqn:Hdet;
    [|vm_compute in Hfront; injection Hfront as <- <-;
      vm_compute in Hdet; discriminate].
  assert (Hid : active_id st = Some 7).
  { vm_compute in Hfront. injection Hfront as <- <-.
    vm_compute in Hst. injection Hst as <-. reflexivity. }
  assert (Ht : (FORCE_TIMEOUT
                < t_safety (safety env "a.mp4") - last_event_time st)%Q).
  { vm_compute in Hfront. injection Hfront as <- <-.
    vm_compute in Hst. injection Hst as <-. reflexivity. }
  destruct (safety_net_forces_stuck_cameras Examples.yolo env "b.mp4"
              Examples.blank Examples.never_fed c2 e12 "a.mp4" st 7 det
              Hfront) as (fs_k & H1 & _);
    [exact never_fed_well_formed
    | exact Hst | exact Hid | exact Ht | exact Hdet |].
  split; [|vm_compute; reflexivity].
  fold r in H1. rewrite H1.
  vm_compute in Hfront. injection Hfront as <- <-.
  vm_compute in Hst. injection Hst as <-. reflexivity.
Defined.

(** C5 as stated fails at its last clause: the test of the safety net is
    strict.  Camera a became active at 0 s and its window never got a
    frame; the iteration at 45 s, started by a frame of camera b, leaves
    camera a active and makes no call (the one at 46 s marks the record
    FAILED).  The same holds of a state the loop reaches: camera a, active
    since 1002 s with its window closed without a clip, is left alone by
    the iteration at 1047 s. *)
Lemma safety_net_idle_at_45s :
  let at45 := tick Examples.yolo
                (Examples.env_at 45 (Some 8) Examples.enc_no_temp)
                "b.mp4" Examples.blank Examples.never_fed in
  let at1047 := tick Examples.yolo
                  (Examples.env_at 1047 (Some 8) Examples.enc_no_temp)
                  "b.mp4" Examples.blank Examples.stuck in
  (active <$> accident_states Examples.never_fed !! "a.mp4"%string) = Some true
  /\ (last_event_time <$> accident_states Examples.never_fed !! "a.mp4"%string)
     = Some 0%Q
  /\ at45.2 = []
  /\ accident_states at45.1 !! "a.mp4"%string
     = accident_states Examples.never_fed !! "a.mp4"%string
  /\ (active <$> accident_states Examples.stuck !! "a.mp4"%string) = Some true
  /\ (last_event_time <$> accident_states Examples.stuck !! "a.mp4"%string)
     = Some 1002%Q
  /\ at1047.2 = []
  /\ accident_states at1047.1 !! "a.mp4"%string
     = accident_states Examples.stuck !! "a.mp4"%string.
Proof. vm_compute. repeat split; reflexivity. Qed.

(** ** The record-level debounce *)

Section Debounce45.

Context {Frame : Type}.
Variable model : Frame -> list Q.
Implicit Types (c : Coordinator Frame) (st : AccidentState) (k cam : string).

#[local] Abbreviation no_insert := (Forall (fun e : Effect => is_insert e = false)).

Lemma no_insert_elem (effs : list Effect) e :
  no_insert effs -> e ∈ effs -> is_insert e = true -> False.
Proof.
  intros HF Hin He. rewrite Forall_forall in HF.
  specialize (HF e Hin). congruence.
Qed.

(** The safety net keeps every camera's [last_event_time]. *)
Lemma safety_net_last_event_time senv cams c k st :
  accident_states c !! k = Some st ->
  exists st', accident_states (safety_net senv cams c).1 !! k = Some st'
              /\ last_event_time st' = last_event_time st.
Proof.
  intros Hst.
  destruct (safety_net_frame senv cams c) as (_ & _ & H & _).
  destruct (H k st Hst) as [E | E]; eauto.
Qed.

(** An iteration for another camera, or one whose guard fails, keeps the
    [last_event_time] of camera [k]; the latter asks for no record. *)
Lemma tick_keeps_last_event_time env cam frame c k st :
  accident_states c !! k = Some st ->
  cam <> k \/ (t_since env - last_event_time st <= RECORD_COOLDOWN)%Q ->
  (exists st', accident_states (tick model env cam frame c).1 !! k = Some st'
               /\ last_event_time st' = last_event_time st)
  /\ (cam = k -> no_insert (tick model env cam frame c).2).
Proof.
  intros Hst Hcase.
  destruct (tick_front model env cam frame c) as [[c2 e12]|] eqn:Hfront.
  2:{ unfold tick. rewrite Hfront. simpl. split; [eauto | by constructor]. }
  rewrite (tick_unfold model env cam frame c c2 e12 Hfront). simpl.
  destruct (detectors c !! cam) as [detector|] eqn:Hd;
    [|by rewrite tick_front_unknown in Hfront by (by left)].
  destruct (accident_states c !! cam) as [state|] eqn:Hs;
    [|by rewrite tick_front_unknown in Hfront by (by right)].
  rewrite (tick_front_known model env cam frame c detector state) in Hfront
    by done.
  injection Hfront as <- <-. simpl in *.
  set (p := process_frame model detector frame (t_now env)) in *.
  set (h := handle_clip (enc env) (files c) p.1 false) in *.
  set (s1 := detect_step env state p.2) in *.
  set (s2 := clip_step s1.1 h.1.1) in *.
  match goal with |- context [safety_net ?s ?l ?c2] =>
    destruct (safety_net_frame s l c2) as (_ & _ & _ & Hni);
    pose proof (safety_net_last_event_time s l c2 k) as Hlet end.
  simpl in Hlet.
  destruct (decide (cam = k)) as [->|Hne].
  - destruct Hcase as [|Hle]; [done|].
    assert (state = st) as -> by congruence.
    assert (Es1 : s1 = (st, [])) by (by apply detect_step_blocked).
    split.
    + destruct (Hlet s2.1) as (st' & E1 & E2); [apply lookup_insert_eq|].
      exists st'. split; [exact E1|]. rewrite E2. subst s2.
      rewrite clip_step_last_event_time, Es1. done.
    + intros _. apply Forall_app. split; [|exact Hni].
      apply Forall_app. split; [rewrite Es1; constructor|].
      apply clip_step_no_insert.
  - split; [|done].
    apply Hlet. by rewrite lookup_insert_ne.
Qed.

(** An iteration asks for a record only in step 1, under its guard. *)
Lemma tick_insert_guard env cam frame c e :
  e ∈ (tick model env cam frame c).2 -> is_insert e = true ->
  exists st, accident_states c !! cam = Some st /\ active st = false
             /\ (RECORD_COOLDOWN < t_since env - last_event_time st)%Q
             /\ e = InsertAccident (camera_id st) (latitude st) (longitude st)
                      "medium" "DETECTED"
             /\ (forall id, created env = Some id -> id <> 0 ->
                   exists st', accident_states (tick model env cam frame c).1
                                 !! cam = Some st'
                               /\ last_event_time st' = t_created env).
Proof.
  intros Hin He.
  destruct (tick_front model env cam frame c) as [[c2 e12]|] eqn:Hfront.
  2:{ unfold tick in Hin. rewrite Hfront in Hin. simpl in Hin.
      by apply elem_of_nil in Hin. }
  rewrite (tick_unfold model env cam frame c c2 e12 Hfront) in *. simpl in *.
  destruct (detectors c !! cam) as [detector|] eqn:Hd;
    [|by rewrite tick_front_unknown in Hfront by (by left)].
  destruct (accident_states c !! cam) as [state|] eqn:Hs;
    [|by rewrite tick_front_unknown in Hfront by (by right)].
  rewrite (tick_front_known model env cam frame c detector state) in Hfront
    by done.
  injection Hfront as <- <-. simpl in *.
  set (p := process_frame model detector frame (t_now env)) in *.
  set (h := handle_clip (enc env) (files c) p.1 false) in *.
  set (s1 := detect_step env state p.2) in *.
  match type of Hin with context [safety_net ?s ?l ?c2] =>
    destruct (safety_net_frame s l c2) as (_ & _ & _ & Hni);
    pose proof (safety_net_last_event_time s l c2 cam) as Hlet end.
  simpl in Hlet.
  apply elem_of_app in Hin as [Hin | Hin];
    [|exfalso; by eapply no_insert_elem].
  apply elem_of_app in Hin as [Hin | Hin];
    [|exfalso; eapply no_insert_elem; [apply clip_step_no_insert|done..]].
  assert (Hne : s1.2 <> []) by (intros E; rewrite E in Hin; by apply elem_of_nil in Hin).
  destruct (detect_step_guard env state p.2 Hne) as (Hact & Hlt & Heff).
  fold s1 in Heff. rewrite Heff in Hin.
  apply list_elem_of_singleton in Hin.
  exists state. split; [done|]. split; [done|]. split; [done|].
  split; [done|].
  intros id Hcr Hid.
  pose proof (detect_step_created env state p.2 id Hne Hcr Hid) as E1.
  fold s1 in E1.
  destruct (Hlet (clip_step s1.1 h.1.1).1) as (st' & F1 & F2);
    [apply lookup_insert_eq|].
  exists st'. split; [exact F1|].
  rewrite F2, clip_step_last_event_time, E1. done.
Qed.

(** As long as every iteration for camera [cam] reads its clock no later
    than 45 s after [T], the [last_event_time] of the camera, none of them
    asks for a record. *)
Lemma run_blocked inputs c cam st (T : Q) :
  accident_states c !! cam = Some st ->
  last_event_time st = T ->
  Forall (fun i : Input Frame =>
            i.1.2 = cam -> (t_since i.1.1 - T <= RECORD_COOLDOWN)%Q) inputs ->
  Forall (fun ce : string * list Effect => ce.1 = cam -> no_insert ce.2)
    (run model inputs c).2.
Proof.
  revert c st. induction inputs as [|[[env cam'] frame] inputs IH];
    intros c st Hst HT HF; simpl; [constructor|].
  apply Forall_cons in HF as [Hhd HF]. simpl in Hhd.
  assert (Hcase : cam' <> cam
                  \/ (t_since env - last_event_time st <= RECORD_COOLDOWN)%Q).
  { destruct (decide (cam' = cam)) as [E|]; [right | by left].
    rewrite HT. by apply Hhd. }
  destruct (tick_keeps_last_event_time env cam' frame c cam st Hst Hcase)
    as ((st' & Hst' & HT') & Hni).
  destruct (tick model env cam' frame c) as [c1 e1]. simpl in *.
  specialize (IH c1 st' Hst' ltac:(congruence) HF).
  destruct (run model inputs c1) as [c2 es]. simpl in *.
  constructor; [|exact IH]. simpl. exact Hni.
Qed.

(** C6.  An iteration asks the store for a record only for the camera of
    its frame, only when that camera is not active and strictly more than
    45 s separate the clock from the camera's [last_event_time]; it then
    asks once.  When the store creates the record, [last_event_time]
    becomes the time of creation, so every later iteration for that camera
    whose clock reads at most 45 s after the creation asks for no record:
    two triggers within 45 s give one record. *)
Theorem record_creation_debounce env cam frame c inputs e id :
  let r := tick model env cam frame c in
  e ∈ r.2 -> is_insert e = true ->
  (exists st, accident_states c !! cam = Some st /\ active st = false
              /\ (RECORD_COOLDOWN < t_since env - last_event_time st)%Q
              /\ e = InsertAccident (camera_id st) (latitude st)
                       (longitude st) "medium" "DETECTED")
  /\ (created env = Some id -> id <> 0 ->
      Forall (fun i : Input Frame =>
                i.1.2 = cam ->
                (t_since i.1.1 - t_created env <= RECORD_COOLDOWN)%Q) inputs ->
      Forall (fun ce : string * list Effect => ce.1 = cam -> no_insert ce.2)
        (run model inputs r.1).2).
Proof.
  intros r Hin He.
  destruct (tick_insert_guard env cam frame c e Hin He)
    as (st & Hst & Hact & Hlt & -> & Hcreated).
  split; [by exists st|].
  intros Hcr Hid HF.
  destruct (Hcreated id Hcr Hid) as (st' & Hst' & HT).
  by eapply run_blocked.
Qed.

End Debounce45.

Lemma record_creation_debounce_witness :
  let env := Examples.env_at 1002 (Some 7) Examples.enc_no_temp in
  let r := tick Examples.yolo env "a.mp4" Examples.hit
             Examples.before_trigger in
  let later := run Examples.yolo Examples.second_burst r.1 in
  r.2 = [InsertAccident "CAM001" 11.748 75.4938 "medium" "DETECTED"]
  /\ (global_last <$> detectors r.1 !! "a.mp4"%string) = Some 1002%Q
  /\ (global_last <$> detectors later.1 !! "a.mp4"%string) = Some 1017%Q
  /\ Forall (fun ce : string * list Effect =>
               ce.1 = "a.mp4"%string ->
               Forall (fun e => is_insert e = false) ce.2) later.2.
Proof.
  intros env r later.
  split; [vm_compute; reflexivity|].
  split; [vm_compute; reflexivity|].
  split; [vm_compute; reflexivity|].
  destruct (record_creation_debounce Examples.yolo env "a.mp4" Examples.hit
              Examples.before_trigger Examples.second_burst
              (InsertAccident "CAM001" 11.748 75.4938 "medium" "DETECTED") 7)
    as [_ H].
  - vm_compute. apply list_elem_of_here.
  - reflexivity.
  - apply H; [reflexivity | discriminate |].
    repeat constructor; intros _; vm_compute; discriminate.
Defined.

(** ** Uploads and the coordinator *)

Section Uploads.

Context {Frame : Type}.
Variable model : Frame -> list Q.
Implicit Types (c : Coordinator Frame) (st : AccidentState) (k cam : string).

Lemma reset_reset st : reset (reset st) = reset st.
Proof. reflexivity. Qed.

Lemma active_id_reset st : active_id (reset st) = None.
Proof. reflexivity. Qed.

(** A check that starts an upload for a record finds the camera it checks
    holding that record, and resets it. *)
Lemma safety_check_start_upload senv k0 c p id :
  StartUpload p id ∈ (safety_check senv k0 c).2 ->
  exists st, accident_states c !! k0 = Some st
             /\ active_id st = Some id
             /\ accident_states (safety_check senv k0 c).1 !! k0
                = Some (reset st).
Proof.
  destruct (safety_check_cases senv k0 c)
    as [E | (st & id' & det & H1 & H2 & H3 & H4)].
  - rewrite E. simpl. intros H. by apply elem_of_nil in H.
  - destruct (safety_check_forced senv k0 c st id' det H1 H2 H3 H4)
      as (effs & E & Heffs).
    rewrite E. simpl. intros Hin. exists st. split; [done|].
    rewrite lookup_insert_eq. split; [|done].
    destruct Heffs as [[_ ->] | (p' & _ & _ & ->)].
    + apply list_elem_of_singleton in Hin. discriminate.
    + apply elem_of_cons in Hin as [Hin | Hin]; [discriminate|].
      apply list_elem_of_singleton in Hin. congruence.
Qed.

(** A camera that holds a record after a check held it before: a check
    only resets. *)
Lemma safety_check_active_before senv k0 c k st id :
  accident_states (safety_check senv k0 c).1 !! k = Some st ->
  active_id st = Some id ->
  accident_states c !! k = Some st.
Proof.
  intros Hst Hid.
  assert (Hsome : is_Some (accident_states c !! k)).
  { apply (safety_check_keys senv k0 c k). by rewrite Hst. }
  destruct Hsome as [st' Hst'].
  destruct (safety_check_frame senv k0 c) as (_ & _ & H3 & _).
  destruct (H3 k st' Hst') as [E | E]; rewrite Hst in E; injection E as ->.
  - done.
  - by rewrite active_id_reset in Hid.
Qed.

(** A camera that has been reset stays so to the end of the net. *)
Lemma safety_net_keeps_reset senv cams c k st :
  accident_states c !! k = Some (reset st) ->
  accident_states (safety_net senv cams c).1 !! k = Some (reset st).
Proof.
  intros H. destruct (safety_net_frame senv cams c) as (_ & _ & H3 & _).
  destruct (H3 k _ H) as [E | E]; exact E.
Qed.

Lemma safety_net_start_upload senv cams c p id :
  StartUpload p id ∈ (safety_net senv cams c).2 ->
  exists k st, accident_states c !! k = Some st
               /\ active_id st = Some id
               /\ accident_states (safety_net senv cams c).1 !! k
                  = Some (reset st).
Proof.
  revert c. induction cams as [|k0 cams IH]; intros c; simpl.
  - intros H. by apply elem_of_nil in H.
  - pose proof (safety_check_start_upload (senv k0) k0 c p id) as Hchk.
    pose proof (fun k st => safety_check_active_before (senv k0) k0 c k st id)
      as Hbefore.
    destruct (safety_check (senv k0) k0 c) as [c1 e1]. simpl in *.
    pose proof (IH c1) as IH1.
    pose proof (fun st => safety_net_keeps_reset senv cams c1 k0 st) as Hkeep.
    destruct (safety_net senv cams c1) as [c2 e2]. simpl in *.
    intros Hin. apply elem_of_app in Hin as [Hin | Hin].
    + destruct (Hchk Hin) as (st & Hst & Hid & Hres).
      exists k0, st. split; [done|]. split; [done|]. by apply Hkeep.
    + destruct (IH1 Hin) as (k & st & Hst & Hid & Hres).
      exists k, st. split; [by apply Hbefore|]. done.
Qed.

Lemma clip_step_cases st ready :
  clip_step st ready = (st, [])
  \/ exists id p, active_id st = Some id
                  /\ clip_step st ready = (reset st, trimmed id p).
Proof.
  unfold clip_step. destruct (active_id st) as [id|] eqn:Hid; [|by left].
  destruct (on_clips_cases id st ready) as [E | (p & _ & _ & E)];
    [by left | right]. by exists id, p.
Qed.

(** Whenever an iteration starts an upload for a record, a camera held
    that record when the upload was started, and that camera is reset by
    the end of the iteration.  Its state when the upload was started is
    the one it had before the iteration, or, for the camera of the frame,
    the one step 1 has just given it. *)
Lemma tick_start_upload env cam frame c p id :
  StartUpload p id ∈ (tick model env cam frame c).2 ->
  exists k st det,
    detectors c !! cam = Some det
    /\ accident_states c !! k = Some st
    /\ let st0 :=
         if bool_decide (k = cam)
         then (detect_step env st
                 (process_frame model det frame (t_now env)).2).1
         else st in
       active_id st0 = Some id
       /\ accident_states (tick model env cam frame c).1 !! k
          = Some (reset st0).
Proof.
  destruct (tick_front model env cam frame c) as [[c2 e12]|] eqn:Hfront.
  2:{ unfold tick. rewrite Hfront. simpl. intros H. by apply elem_of_nil in H. }
  rewrite (tick_unfold model env cam frame c c2 e12 Hfront). simpl.
  destruct (detectors c !! cam) as [detector|] eqn:Hd;
    [|by rewrite tick_front_unknown in Hfront by (by left)].
  destruct (accident_states c !! cam) as [state|] eqn:Hs;
    [|by rewrite tick_front_unknown in Hfront by (by right)].
  rewrite (tick_front_known model env cam frame c detector state) in Hfront
    by done.
  injection Hfront as <- <-. simpl.
  set (p0 := process_frame model detector frame (t_now env)).
  set (h := handle_clip (enc env) (files c) p0.1 false).
  set (s1 := detect_step env state p0.2).
  set (c2 := {| detectors := <[cam:=h.1.2]> (detectors c);
                accident_states :=
                  <[cam:=(clip_step s1.1 h.1.1).1]> (accident_states c);
                cam_order := cam_order c; files := h.2 |}).
  intros Hin. apply elem_of_app in Hin as [Hin | Hin].
  - (* steps 1 and 2 *)
    apply elem_of_app in Hin as [Hin | Hin].
    + exfalso.
      destruct (decide (s1.2 = [])) as [E | Hne];
        [rewrite E in Hin; by apply elem_of_nil in Hin|].
      destruct (detect_step_guard env state p0.2 Hne) as (_ & _ & Heff).
      fold s1 in Heff. rewrite Heff in Hin.
      apply list_elem_of_singleton in Hin. discriminate.
    + destruct (clip_step_cases s1.1 h.1.1) as [E | (id' & p' & Hid & E)];
        rewrite E in Hin; simpl in Hin; [by apply elem_of_nil in Hin|].
      apply elem_of_cons in Hin as [Hin | Hin]; [discriminate|].
      apply list_elem_of_singleton in Hin. injection Hin as -> ->.
      exists cam, state, detector. split; [done|]. split; [done|].
      rewrite bool_decide_eq_true_2 by done. fold p0 s1. split; [done|].
      apply safety_net_keeps_reset. subst c2. simpl.
      rewrite E. simpl. apply lookup_insert_eq.
  - (* step 3 *)
    destruct (safety_net_start_upload _ _ _ p id Hin)
      as (k & st & Hst & Hid & Hres).
    destruct (decide (k = cam)) as [->|Hk].
    + exists cam, state, detector. split; [done|]. split; [done|].
      rewrite bool_decide_eq_true_2 by done. fold p0 s1.
      subst c2. simpl in Hst. rewrite lookup_insert_eq in Hst.
      injection Hst as Hst.
      destruct (clip_step_cases s1.1 h.1.1) as [E | (id' & p' & _ & E)];
        rewrite E in Hst; simpl in Hst; subst st.
      * done.
      * by rewrite active_id_reset in Hid.
    + exists k, st, detector. split; [done|].
      subst c2. simpl in Hst. rewrite lookup_insert_ne in Hst by done.
      split; [done|]. by rewrite bool_decide_eq_false_2 by done.
Qed.

(** A camera that is not active takes a trigger that comes more than 45 s
    after its [last_event_time]: the iteration asks the store for a
    record. *)
Lemma tick_accepts_trigger env cam frame c det st :
  detectors c !! cam = Some det ->
  accident_states c !! cam = Some st ->
  active st = false ->
  (process_frame model det frame (t_now env)).2 <> [] ->
  (RECORD_COOLDOWN < t_since env - last_event_time st)%Q ->
  create_accident_event st ⊆ (tick model env cam frame c).2.
Proof.
  intros Hd Hs Hact Hev Hlt.
  pose proof (tick_front_known model env cam frame c det st Hd Hs) as Hfront.
  simpl in Hfront.
  rewrite (tick_unfold model env cam frame c _ _ Hfront). simpl.
  destruct (process_frame_event model det frame (t_now env) Hev) as [Hq Hlen].
  destruct (process_frame_trigger model det frame (t_now env) Hq Hlen)
    as (E & _).
  rewrite E. unfold detect_step. rewrite Hact.
  rewrite on_events_accident by done. simpl.
  intros e He. apply list_elem_of_singleton in He as ->.
  apply list_elem_of_here.
Qed.

(** Step 1 changes the state only when it asks for a record. *)
Lemma detect_step_silent env st events :
  (detect_step env st events).2 = [] -> (detect_step env st events).1 = st.
Proof.
  unfold detect_step. destruct (active st); [done|].
  induction events as [|ev events IH]; [done|]. simpl.
  destruct (Qltb RECORD_COOLDOWN _); simpl; [|exact IH].
  destruct (created env) as [id|]; [|done].
  by destruct (negb (id =? 0)).
Qed.

(** A camera that has been reset stays as it is through every iteration
    that asks for no record on its behalf. *)
Lemma tick_stays_reset env cam frame c k st :
  accident_states c !! k = Some (reset st) ->
  (cam = k -> Forall (fun e => is_insert e = false)
                (tick model env cam frame c).2) ->
  accident_states (tick model env cam frame c).1 !! k = Some (reset st).
Proof.
  intros Hst Hni.
  destruct (tick_front model env cam frame c) as [[c2 e12]|] eqn:Hfront;
    [|unfold tick; rewrite Hfront; exact Hst].
  rewrite (tick_unfold model env cam frame c c2 e12 Hfront) in Hni |- *.
  simpl in *. apply safety_net_keeps_reset.
  destruct (detectors c !! cam) as [detector|] eqn:Hd;
    [|by rewrite tick_front_unknown in Hfront by (by left)].
  destruct (accident_states c !! cam) as [state|] eqn:Hs;
    [|by rewrite tick_front_unknown in Hfront by (by right)].
  rewrite (tick_front_known model env cam frame c detector state) in Hfront
    by done.
  injection Hfront as <- <-. simpl in *.
  destruct (decide (cam = k)) as [->|Hk]; [|by rewrite lookup_insert_ne].
  rewrite lookup_insert_eq. rewrite Hs in Hst. injection Hst as ->.
  specialize (Hni eq_refl).
  apply Forall_app in Hni as [Hni _]. apply Forall_app in Hni as [Hni _].
  set (s1 := detect_step env (reset st)
               (process_frame model detector frame (t_now env)).2) in *.
  assert (Hnil : s1.2 = []).
  { destruct (decide (s1.2 = [])) as [E | Hne]; [done|].
    destruct (detect_step_guard env (reset st) _ Hne) as (_ & _ & Heff).
    fold s1 in Heff. rewrite Heff in Hni.
    apply Forall_cons in Hni as [Hni _]. discriminate. }
  pose proof (detect_step_silent env (reset st) _ Hnil) as Hs1.
  fold s1 in Hs1. rewrite Hs1.
  unfold clip_step. by rewrite active_id_reset.
Qed.

Lemma run_stays_reset inputs c k st :
  accident_states c !! k = Some (reset st) ->
  Forall (fun ce : string * list Effect =>
            ce.1 = k -> Forall (fun e => is_insert e = false) ce.2)
    (run model inputs c).2 ->
  accident_states (run model inputs c).1 !! k = Some (reset st).
Proof.
  revert c. induction inputs as [|[[env cam] frame] inputs IH];
    intros c Hst; simpl; [done|].
  pose proof (tick_stays_reset env cam frame c k st Hst) as Ht.
  destruct (tick model env cam frame c) as [c1 e1]. simpl in *.
  pose proof (IH c1) as IH1.
  destruct (run model inputs c1) as [c2 es]. simpl in *.
  intros HF. apply Forall_cons in HF as [Hhd HF]. simpl in Hhd.
  apply IH1; [by apply Ht | done].
Qed.

(** C7, as the code has it.  When the clip file exists at the start of the
    upload process and the upload raises (on opening the file, on the
    upload or on the public URL), the process asks the store to mark the
    record UPLOAD_FAILED with the clip path, never UPLOADED, and leaves
    the file system as it is, so the clip is still there.  When the file
    does not exist, the process returns at once and makes no call.  The
    coordinator takes no result of an upload.  An iteration that starts
    an upload for a record does so for a camera [k] that holds the
    record at that moment: its state [st0] is the one it had before the
    iteration, or, for the camera of the frame, the one step 1 has just
    given it.  By the end of the iteration the state of [k] is
    [reset st0], which is not active.  From then on, in any coordinator
    [c1] in which [k] is as that iteration left it (the uploads may have
    changed the files meanwhile) and through any further iterations in
    which no record is asked for on behalf of [k], the next frame of [k]
    that triggers more than 45 s after [last_event_time] makes the
    coordinator ask the store for a record, whatever the uploads did. *)
Theorem upload_failure_and_next_trigger
    (uenv : Uploader.UploadEnv) (fs : FS) (p : string) (rid : Z)
    env cam frame c q id :
  let u := Uploader.upload_clip_async uenv fs p rid in
  let r := tick model env cam frame c in
  (p ∈ fs -> (forall url, Uploader.outcome uenv <> Uploader.Uploaded url) ->
   u.1 = fs /\ p ∈ u.1
   /\ UpdateAccident rid [("status", "UPLOAD_FAILED"); ("clip_path", p)]%string
      ∈ u.2
   /\ (forall data, UpdateAccident rid data ∈ u.2 ->
         data = [("status", "UPLOAD_FAILED"); ("clip_path", p)]%string))
  /\ (p ∉ fs -> u = (fs, []))
  /\ (StartUpload q id ∈ r.2 ->
      exists k st det,
        detectors c !! cam = Some det
        /\ accident_states c !! k = Some st
        /\ let st0 :=
             if bool_decide (k = cam)
             then (detect_step env st
                     (process_frame model det frame (t_now env)).2).1
             else st in
           active_id st0 = Some id
           /\ accident_states r.1 !! k = Some (reset st0)
           /\ active (reset st0) = false
           /\ forall c1 inputs env' frame' det',
                accident_states c1 !! k = accident_states r.1 !! k ->
                let later := run model inputs c1 in
                Forall (fun ce : string * list Effect =>
                          ce.1 = k ->
                          Forall (fun e => is_insert e = false) ce.2)
                  later.2 ->
                detectors later.1 !! k = Some det' ->
                (process_frame model det' frame' (t_now env')).2 <> [] ->
                (RECORD_COOLDOWN < t_since env' - last_event_time st0)%Q ->
                create_accident_event st0
                ⊆ (tick model env' k frame' later.1).2).
Proof.
  intros u r. split; [|split].
  - intros Hin Hfail. subst u. unfold Uploader.upload_clip_async.
    rewrite (proj2 (path_exists_true fs p) Hin). simpl.
    destruct (Uploader.outcome uenv) as [url| | |] eqn:E;
      [by destruct (Hfail url)| | |]; simpl;
      (split; [done|]; split; [done|]; split;
       [unfold Uploader.upload_failed, update_accident;
        repeat (first [apply list_elem_of_here | apply list_elem_of_further])|]);
      intros data Hd;
      repeat (apply elem_of_cons in Hd as [Hd | Hd];
              [try discriminate; by injection Hd as ->|]);
      by apply elem_of_nil in Hd.
  - intros Hnot. subst u. unfold Uploader.upload_clip_async.
    by rewrite (proj2 (path_exists_false fs p) Hnot).
  - intros Hin. destruct (tick_start_upload env cam frame c q id Hin)
      as (k & st & det & Hd & Hst & Hid & Hres).
    exists k, st, det. split; [done|]. split; [done|].
    set (st0 := if bool_decide (k = cam)
                then (detect_step env st
                        (process_frame model det frame (t_now env)).2).1
                else st) in *.
    split; [done|]. split; [done|]. split; [done|].
    intros c1 inputs env' frame' det' Hsame later HF Hdet Hev Hcool.
    fold r in Hres. rewrite Hres in Hsame.
    pose proof (run_stays_reset inputs c1 k st0 Hsame HF) as Hlater.
    fold later in Hlater.
    exact (tick_accepts_trigger env' k frame' later.1 det' (reset st0)
             Hdet Hlater eq_refl Hev Hcool).
Qed.

End Uploads.

Lemma upload_failure_and_next_trigger_witness :
  let p := "events/ACCIDENT_1060.mp4"%string in
  let next := tick Examples.yolo
                (Examples.env_at 1063 (Some 9) Examples.enc_ok)
                "a.mp4" Examples.hit Examples.after_forced in
  StartUpload p 7 ∈ Examples.forced_both.2
  /\ (exists st0, accident_states Examples.both_open !! "a.mp4"%string
                  = Some st0
                  /\ active_id st0 = Some 7
                  /\ accident_states Examples.forced_both.1 !! "a.mp4"%string
                     = Some (reset st0)
                  /\ active (reset st0) = false)
  /\ Uploader.upload_clip_async Examples.upload_down
       (files Examples.forced_both.1) p 7
     = (files Examples.forced_both.1,
        [StorageUpload p;
         UpdateAccident 7
           [("status", "UPLOAD_FAILED"); ("clip_path", p)]%string])
  /\ InsertAccident "CAM001" 11.748 75.4938 "medium" "DETECTED" ∈ next.2.
Proof.
  intros p next.
  assert (Hstart : StartUpload p 7 ∈ Examples.forced_both.2).
  { vm_compute. apply list_elem_of_further, list_elem_of_here. }
  set (A := {| active := true; accident_id := Some 7;
               last_event_time := 1002; camera_id := "CAM001";
               latitude := 11.748; longitude := 75.4938 |}).
  set (B := {| active := true; accident_id := Some 8;
               last_event_time := 1005; camera_id := "CAM002";
               latitude := 11.748; longitude := 75.4938 |}).
  assert (Hmap : accident_states Examples.both_open
                 = {[ "a.mp4"%string := A; "b.mp4"%string := B ]})
    by (vm_compute; reflexivity).
  destruct (detectors Examples.after_forced !! "a.mp4"%string)
    as [det'|] eqn:Hd'; [|vm_compute in Hd'; discriminate].
  destruct (upload_failure_and_next_trigger Examples.yolo
              Examples.upload_down (files Examples.forced_both.1) p 7
              (Examples.env_at 1060 (Some 9) Examples.enc_ok)
              "a.mp4" Examples.blank Examples.both_open p 7)
    as (_ & _ & Hreset).
  destruct (Hreset Hstart) as (k & st & det & Hd & Hst & Hid & Hres & Hact & Hnext).
  rewrite Hmap in Hst. apply lookup_insert_Some in Hst as [[<- <-] | [Hne Hst]].
  2:{ apply lookup_singleton_Some in Hst as [<- <-].
      vm_compute in Hid. discriminate. }
  vm_compute in Hd. injection Hd as <-.
  match type of Hid with
  | active_id ?x = _ =>
      assert (E : x = A) by (vm_compute; reflexivity);
      rewrite E in Hid, Hres, Hnext
  end.
  split; [exact Hstart|].
  split.
  { exists A. split; [rewrite Hmap; apply lookup_insert_eq|].
    split; [exact Hid|]. split; [exact Hres | reflexivity]. }
  split; [vm_compute; reflexivity|].
  assert (Hin : create_accident_event A ⊆ next.2).
  { apply (Hnext Examples.forced_both.1
             [(Examples.env_at 1061 (Some 9) Examples.enc_ok,
               "a.mp4"%string, Examples.hit);
              (Examples.env_at 1062 (Some 9) Examples.enc_ok,
               "a.mp4"%string, Examples.hit)]
             (Examples.env_at 1063 (Some 9) Examples.enc_ok)
             Examples.hit det').
    - reflexivity.
    - vm_compute. repeat constructor.
    - exact Hd'.
    - vm_compute in Hd'. injection Hd' as <-. vm_compute. discriminate.
    - reflexivity. }
  apply Hin. apply list_elem_of_here.
Defined.

(** C7 as stated fails at its first clause.  The clip of a forced window
    is named after the second in which it is written, so the two cameras
    forced in the iteration at 1060 s get the same clip path.  The upload
    for record 7 goes through and removes the file; the upload process for
    record 8 then finds no file: nothing is uploaded, and it returns
    without asking the store for anything, so record 8 is not marked
    UPLOAD_FAILED. *)
Lemma upload_missing_file_not_marked :
  let p := "events/ACCIDENT_1060.mp4"%string in
  let u7 := Uploader.upload_clip_async Examples.upload_fine
              (files Examples.forced_both.1) p 7 in
  let u8 := Uploader.upload_clip_async Examples.upload_fine u7.1 p 8 in
  Examples.forced_both.2
  = [UpdateAccident 7 [("status", "TRIMMED"); ("clip_path", p)]%string;
     StartUpload p 7;
     UpdateAccident 8 [("status", "TRIMMED"); ("clip_path", p)]%string;
     StartUpload p 8]
  /\ files Examples.forced_both.1 = {[ p ]}
  /\ u7 = (∅, [StorageUpload p;
               UpdateAccident 7
                 [("video_url", "https://videos/accident.mp4");
                  ("status", "UPLOADED")]%string])
  /\ Uploader.failed Examples.upload_fine u7.1 p = true
  /\ u8 = (∅, []).
Proof. repeat apply conj; vm_compute; reflexivity. Qed.

(** * Further properties of the detector *)

Section WindowLife.

Context {Frame : Type}.
Variable model : Frame -> list Q.
Implicit Types (d : AccidentDetector Frame) (w : ClipWindow Frame).

(** A call that returns no event leaves the window slot alone. *)
Lemma process_frame_no_event_slot d frame now :
  (process_frame model d frame now).2 = [] ->
  active_clip (process_frame model d frame now).1 = active_clip d.
Proof.
  intros Hnil.
  destruct (qualifies model d frame now) eqn:Hq.
  - destruct (le_lt_dec 2 (length (pending d))) as [Hge|Hlt].
    + destruct (process_frame_trigger model d frame now Hq Hge) as (E1 & _).
      rewrite E1 in Hnil. discriminate.
    + by destruct (process_frame_pending model d frame now Hq Hlt)
        as (_ & _ & _ & E4).
  - by destruct (process_frame_quiet model d frame now Hq) as (_ & _ & _ & E4).
Qed.

Lemma process_frames_no_event_slot d inputs :
  Forall (fun evs => evs = []) (process_frames model d inputs).2 ->
  active_clip (process_frames model d inputs).1 = active_clip d.
Proof.
  revert d. induction inputs as [|[frame now] rest IH]; intros d; [done|].
  simpl.
  pose proof (process_frame_no_event_slot d frame now) as H1.
  destruct (process_frame model d frame now) as [d1 evs]. simpl in *.
  pose proof (IH d1) as IH1.
  destruct (process_frames model d1 rest) as [d2 evss]. simpl in *.
  intros HF. apply Forall_cons in HF as [E HF].
  rewrite IH1 by done. by apply H1.
Qed.

Lemma handle_clip_forced_closes env fs d :
  active_clip (handle_clip env fs d true).1.2 = None.
Proof.
  destruct (active_clip d) as [w|] eqn:Hw.
  - by rewrite (handle_clip_open d w).
  - by rewrite handle_clip_closed.
Qed.

(** X1.  Once a window has been finalized, [handle_clip] is a no-op: it
    returns no clip and changes neither the detector nor the file system,
    whatever its [final] flag, and it stays so through every later frame
    as long as [process_frame] returns no event. *)
Theorem handle_clip_after_finalize env fs d0 inputs env' fs' final' :
  let d1 := (handle_clip env fs d0 true).1.2 in
  let d2 := (process_frames model d1 inputs).1 in
  Forall (fun evs => evs = []) (process_frames model d1 inputs).2 ->
  handle_clip env' fs' d1 final' = ([], d1, fs')
  /\ handle_clip env' fs' d2 final' = ([], d2, fs').
Proof.
  intros d1 d2 HF.
  assert (H1 : active_clip d1 = None) by apply handle_clip_forced_closes.
  split; [by apply handle_clip_closed|].
  apply handle_clip_closed. subst d2.
  by rewrite process_frames_no_event_slot.
Qed.

(** The loop of [handle_clip] never lowers [last]. *)
Lemma collect_step_last w e : clip_last w <= clip_last (collect_step w e).
Proof.
  destruct e as [f fid]. unfold collect_step.
  destruct (_ && _) eqn:E; [|lia]. simpl.
  apply andb_true_iff in E as [_ E]. apply Z.ltb_lt in E. lia.
Qed.

Lemma collect_last buf w : clip_last w <= clip_last (collect buf w).
Proof.
  revert w. induction buf as [|e buf IH]; intros w; [simpl; lia|].
  change (collect (e :: buf) w) with (collect buf (collect_step w e)).
  pose proof (collect_step_last w e). pose proof (IH (collect_step w e)). lia.
Qed.

(** After the loop, no entry of the buffer is acceptable any more. *)
Lemma collect_exhausts buf w e :
  e ∈ buf -> in_window (collect buf w) e = false.
Proof.
  revert w. induction buf as [|e0 buf IH]; intros w Hin;
    [by apply elem_of_nil in Hin|].
  change (collect (e0 :: buf) w) with (collect buf (collect_step w e0)).
  apply elem_of_cons in Hin as [-> | Hin]; [|by apply IH].
  pose proof (collect_last buf (collect_step w e0)) as Hlast.
  destruct (collect_bounds buf (collect_step w e0)) as [Hs He].
  destruct (collect_step_bounds w e0) as [Hs0 He0].
  unfold in_window. rewrite Hs, He, Hs0, He0.
  destruct e0 as [f fid]. simpl in *. unfold collect_step in Hlast.
  destruct ((clip_start w <=? fid) && (fid <=? clip_end w)) eqn:Hrange;
    simpl in *; [|done].
  destruct (Z.ltb_spec (clip_last w) fid) as [Hlt|Hge]; simpl in *.
  - apply Z.ltb_ge. lia.
  - apply Z.ltb_ge. lia.
Qed.

Lemma collect_nothing buf w :
  (forall e, e ∈ buf -> in_window w e = false) -> collect buf w = w.
Proof.
  revert w. induction buf as [|e buf IH]; intros w H; [done|].
  change (collect (e :: buf) w) with (collect buf (collect_step w e)).
  assert (E : collect_step w e = w).
  { specialize (H e (list_elem_of_here _ _)). destruct e as [f fid].
    unfold collect_step, in_window in *. simpl in H. by rewrite H. }
  rewrite E. apply IH. intros e' He'. apply H. by apply list_elem_of_further.
Qed.

Lemma collect_twice buf w : collect buf (collect buf w) = collect buf w.
Proof. apply collect_nothing. intros e He. by apply collect_exhausts. Qed.

(** X2.  A frame is collected once: when [handle_clip] is called a second
    time with no new frame in between, its loop adds nothing.  A second
    call that does not finalize returns the detector as it is; a forced
    one hands [write_clip] exactly the window the first call left. *)
Theorem handle_clip_collects_once env fs d w env' fs' :
  active_clip d = Some w ->
  frame_id d <= clip_end w ->
  let d1 := (handle_clip env fs d false).1.2 in
  let w1 := collect (Deque.items (frame_buffer d)) w in
  active_clip d1 = Some w1
  /\ collect (Deque.items (frame_buffer d1)) w1 = w1
  /\ handle_clip env' fs' d1 false = ([], d1, fs')
  /\ handle_clip env' fs' d1 true
     = (ready_of (write_clip env' fs' w1).1, set_active_clip d1 None,
        (write_clip env' fs' w1).2).
Proof.
  intros Hw Hend d1 w1.
  assert (E : handle_clip env fs d false = ([], set_active_clip d (Some w1), fs)).
  { rewrite (handle_clip_open d w) by done. simpl.
    destruct (Z.ltb_spec (clip_end w) (frame_id d)); [lia | done]. }
  assert (Hd1 : d1 = set_active_clip d (Some w1)) by (subst d1; by rewrite E).
  assert (Hw1 : active_clip d1 = Some w1) by (by rewrite Hd1).
  assert (Hbuf : frame_buffer d1 = frame_buffer d) by (by rewrite Hd1).
  assert (Hc : collect (Deque.items (frame_buffer d1)) w1 = w1)
    by (rewrite Hbuf; apply collect_twice).
  destruct (collect_bounds (Deque.items (frame_buffer d)) w) as [_ Hend1].
  fold w1 in Hend1.
  split; [done|]. split; [done|]. split.
  - rewrite (handle_clip_open d1 w1) by done. rewrite Hc, Hend1. simpl.
    assert (frame_id d1 = frame_id d) as -> by (by rewrite Hd1).
    destruct (Z.ltb_spec (clip_end w) (frame_id d)); [lia|].
    f_equal. f_equal. rewrite Hd1. done.
  - rewrite (handle_clip_open d1 w1) by done. by rewrite Hc.
Qed.

End WindowLife.

Section WindowSize.

Context {Frame : Type}.
Variable model : Frame -> list Q.
Implicit Types (d : AccidentDetector Frame) (w : ClipWindow Frame).






End WindowSize.

Section TriggerSpacing.

Context {Frame : Type}.
Variable model : Frame -> list Q.
Implicit Types (d : AccidentDetector Frame).

Lemma feed_global_last env fs d frame now :
  let r := feed model env fs d frame now in
  (r.1.1.1 = [] /\ global_last r.1.2 = global_last d)
  \/ (r.1.1.1 = [Accident now] /\ global_last r.1.2 = now
      /\ (GLOBAL_COOLDOWN < now - global_last d)%Q).
Proof.
  unfold feed.
  destruct (process_frame model d frame now) as [d1 events] eqn:E.
  destruct (handle_clip_detector env fs d1 false) as (_ & _ & _ & _ & Hg).
  destruct (handle_clip env fs d1 false) as [[ready d2] fs2]. simpl in *.
  assert (E1 : d1 = (process_frame model d frame now).1) by (by rewrite E).
  assert (E2 : events = (process_frame model d frame now).2) by (by rewrite E).
  destruct (qualifies model d frame now) eqn:Hq.
  - destruct (le_lt_dec 2 (length (pending d))) as [Hge|Hlt].
    + destruct (process_frame_trigger model d frame now Hq Hge)
        as (F1 & _ & F3 & _).
      right. apply qualifies_spec in Hq as [_ Hq].
      rewrite Hg, E1, E2. done.
    + destruct (process_frame_pending model d frame now Hq Hlt)
        as (F1 & _ & F3 & _).
      left. rewrite Hg, E1, E2. done.
  - destruct (process_frame_quiet model d frame now Hq) as (F1 & _ & F3 & _).
    left. rewrite Hg, E1, E2. done.
Qed.

(** X4.  However a camera's frames are timed, and with [handle_clip]
    called after each of them as the main loop does, the ACCIDENT events
    of a detector are more than 12 s apart: each comes more than 12 s
    after the one before it, the first more than 12 s after the
    detector's [global_last]. *)
Theorem triggers_are_spaced env fs d inputs :
  spaced GLOBAL_COOLDOWN (global_last d)
    (accident_times (concat (feeds model env fs d inputs).1.1.*1)).
Proof.
  revert fs d. induction inputs as [|[frame now] rest IH]; intros fs d; [done|].
  simpl.
  pose proof (feed_global_last env fs d frame now) as Hf.
  destruct (feed model env fs d frame now) as [[[events ready] d1] fs1].
  simpl in Hf.
  pose proof (IH fs1 d1) as IH1.
  destruct (feeds model env fs1 d1 rest) as [[log d2] fs2]. simpl in *.
  destruct Hf as [[-> Hg] | (-> & Hg & Hlt)]; simpl.
  - by rewrite <- Hg.
  - split; [done|]. by rewrite <- Hg.
Qed.

End TriggerSpacing.

Section BufferContent.

Context {Frame : Type}.
Variable model : Frame -> list Q.
Implicit Types (d : AccidentDetector Frame).

Lemma tail_drop {A} (l : list A) : tail l = drop 1 l.
Proof. by destruct l. Qed.

Lemma last_n_snoc {A} (n : nat) (l : list A) x :
  last_n n (l ++ [x])
  = if (n <? length (last_n n l ++ [x]))%nat
    then tail (last_n n l ++ [x]) else last_n n l ++ [x].
Proof.
  unfold last_n. rewrite !length_app, length_drop. simpl.
  destruct (Nat.ltb_spec n (length l - (length l - n) + 1)) as [H|H].
  - rewrite tail_drop.
    destruct (decide (n = 0%nat)) as [->|Hn].
    + rewrite !Nat.sub_0_r, drop_all.
      by rewrite drop_ge by (rewrite length_app; simpl; lia).
    + rewrite drop_app_le by lia.
      rewrite drop_app_le by (rewrite length_drop; lia).
      rewrite drop_drop. do 2 f_equal. lia.
  - replace (length l - n)%nat with 0%nat by lia.
    replace (length l + 1 - n)%nat with 0%nat by lia. done.
Qed.

Lemma numbered_snoc start (frames : list Frame) frame :
  numbered start (frames ++ [frame])
  = numbered start frames ++ [(frame, start + Z.of_nat (length frames) + 1)].
Proof.
  revert start. induction frames as [|f frames IH]; intros start;
    cbn [numbered app length].
  - change (Z.of_nat 0) with 0. by rewrite Z.add_0_r.
  - rewrite IH, Nat2Z.inj_succ.
    by replace (start + 1 + Z.of_nat (length frames) + 1)
      with (start + Z.succ (Z.of_nat (length frames)) + 1) by lia.
Qed.

Lemma deque_append_last_n {A} (b : Deque.t A) (h : list A) x :
  0 <= Deque.maxlen b ->
  Deque.items b = last_n (Z.to_nat (Deque.maxlen b)) h ->
  Deque.items (Deque.append b x)
  = last_n (Z.to_nat (Deque.maxlen b)) (h ++ [x]).
Proof.
  intros Hm Hb. unfold Deque.append. simpl.
  rewrite last_n_snoc, <- Hb.
  destruct (Z.ltb_spec (Deque.maxlen b) (Z.of_nat (length (Deque.items b ++ [x]))))
    as [H|H];
    destruct (Nat.ltb_spec (Z.to_nat (Deque.maxlen b))
                (length (Deque.items b ++ [x]))) as [H'|H'];
    first [done | lia].
Qed.

Lemma process_frame_holds_latest d history frame now :
  0 <= Deque.maxlen (frame_buffer d) ->
  holds_latest d history ->
  holds_latest (process_frame model d frame now).1 (history ++ [frame]).
Proof.
  intros Hm [Hb Hid]. unfold holds_latest.
  rewrite process_frame_frame_id, process_frame_buffer.
  rewrite deque_append_maxlen, numbered_snoc, length_app. simpl.
  split; [|lia].
  rewrite Hid. replace (0 + Z.of_nat (length history) + 1)
    with (Z.of_nat (length history) + 1) by lia.
  apply deque_append_last_n; [done|].
  by rewrite Hb.
Qed.

Lemma feed_holds_latest env fs d history frame now :
  0 <= Deque.maxlen (frame_buffer d) ->
  holds_latest d history ->
  let d' := (feed model env fs d frame now).1.2 in
  holds_latest d' (history ++ [frame])
  /\ Deque.maxlen (frame_buffer d') = Deque.maxlen (frame_buffer d).
Proof.
  intros Hm Hh. unfold feed.
  pose proof (process_frame_holds_latest d history frame now Hm Hh) as H1.
  pose proof (process_frame_buffer model d frame now) as Hb.
  destruct (process_frame model d frame now) as [d1 events]. simpl in *.
  destruct (handle_clip_detector env fs d1 false) as (_ & Hid & Hbuf & _).
  destruct (handle_clip env fs d1 false) as [[ready d2] fs2]. simpl in *.
  unfold holds_latest. rewrite Hbuf, Hid. split; [done|].
  by rewrite Hb.
Qed.

Lemma feeds_holds_latest env fs d history inputs :
  0 <= Deque.maxlen (frame_buffer d) ->
  holds_latest d history ->
  let d' := (feeds model env fs d inputs).1.2 in
  holds_latest d' (history ++ inputs.*1)
  /\ Deque.maxlen (frame_buffer d') = Deque.maxlen (frame_buffer d).
Proof.
  revert fs d history.
  induction inputs as [|[frame now] rest IH]; intros fs d history Hm Hh.
  - simpl. by rewrite app_nil_r.
  - simpl.
    destruct (feed_holds_latest env fs d history frame now Hm Hh) as [H1 H2].
    destruct (feed model env fs d frame now) as [[[events ready] d1] fs1].
    simpl in H1, H2.
    assert (Hm1 : 0 <= Deque.maxlen (frame_buffer d1)) by lia.
    destruct (IH fs1 d1 (history ++ [frame]) Hm1 H1) as [H3 H4].
    destruct (feeds model env fs1 d1 rest) as [[log d2] fs2]. simpl in *.
    rewrite <- app_assoc in H3. split; [done|]. lia.
Qed.

Lemma init_holds_latest fps0 d :
  init fps0 = Some d ->
  holds_latest d [] /\ Deque.maxlen (frame_buffer d) = fps0 * 20
  /\ 0 <= fps0 * 20.
Proof.
  unfold init, Deque.new.
  destruct (Z.ltb_spec (fps0 * 20) 0) as [|Hge]; [done|].
  intros [= <-]. done.
Qed.

(** X5.  The ring buffer is the tail of the camera's history: after any
    number of frames, each followed by [handle_clip()], the buffer of a
    detector created with [fps0] holds the last FPS×20 frames given to
    [process_frame] (all of them while fewer were given), each with its
    1-based sequence number, oldest first; [frame_id] counts the
    frames. *)
Theorem buffer_holds_latest_frames env fs fps0 d0 inputs :
  init fps0 = Some d0 ->
  let d := (feeds model env fs d0 inputs).1.2 in
  Deque.items (frame_buffer d)
  = last_n (Z.to_nat (fps0 * 20)) (numbered 0 inputs.*1)
  /\ frame_id d = Z.of_nat (length inputs).
Proof.
  intros Hinit d.
  destruct (init_holds_latest fps0 d0 Hinit) as (Hh & Hm & H0).
  destruct (feeds_holds_latest env fs d0 [] inputs) as [[H1 H2] H3];
    [lia | done |].
  fold d in H1, H2, H3. simpl in H1, H2.
  rewrite H3, Hm in H1. rewrite length_fmap in H2. done.
Qed.

End BufferContent.

Section PreRoll.

Context {Frame : Type}.
Variable model : Frame -> list Q.
Implicit Types (d : AccidentDetector Frame) (w : ClipWindow Frame).

Lemma numbered_fst start (frames : list Frame) :
  (numbered start frames).*1 = frames.
Proof.
  revert start. induction frames as [|f frames IH]; intros start; [done|].
  simpl. by rewrite IH.
Qed.

Lemma numbered_length start (frames : list Frame) :
  length (numbered start frames) = length frames.
Proof. by rewrite <- (length_fmap fst), numbered_fst. Qed.

Lemma numbered_drop (j : nat) start (frames : list Frame) :
  drop j (numbered start frames)
  = numbered (start + Z.of_nat j) (drop j frames).
Proof.
  revert start frames. induction j as [|j IH]; intros start frames.
  - simpl. by rewrite Z.add_0_r.
  - destruct frames as [|f frames]; [done|].
    cbn [numbered drop]. rewrite IH. f_equal. lia.
Qed.

Lemma filter_numbered_ge c start (frames : list Frame) :
  List.filter (fun e : Frame * Z => c <=? e.2) (numbered start frames)
  = drop (Z.to_nat (c - start - 1)) (numbered start frames).
Proof.
  revert start. induction frames as [|f frames IH]; intros start.
  - cbn [numbered List.filter]. by rewrite drop_nil.
  - cbn [numbered List.filter snd]. rewrite IH.
    destruct (Z.leb_spec c (start + 1)) as [H|H].
    + replace (Z.to_nat (c - start - 1)) with 0%nat by lia.
      replace (Z.to_nat (c - (start + 1) - 1)) with 0%nat by lia. done.
    + replace (Z.to_nat (c - start - 1))
        with (S (Z.to_nat (c - (start + 1) - 1))) by lia. done.
Qed.

Lemma filter_ge_drop_numbered (j : nat) c (frames : list Frame) :
  List.filter (fun e : Frame * Z => c <=? e.2) (drop j (numbered 0 frames))
  = drop (Nat.max j (Z.to_nat (c - 1))) (numbered 0 frames).
Proof.
  rewrite numbered_drop, filter_numbered_ge, <- numbered_drop, drop_drop.
  f_equal. lia.
Qed.

Lemma collect_last_le buf w m :
  (forall e, e ∈ buf -> e.2 <= m) -> clip_last w <= m ->
  clip_last (collect buf w) <= m.
Proof.
  revert w. induction buf as [|e buf IH]; intros w Hall Hw; [done|].
  change (collect (e :: buf) w) with (collect buf (collect_step w e)).
  apply IH; [intros e' He'; apply Hall; by apply list_elem_of_further|].
  specialize (Hall e (list_elem_of_here _ _)).
  destruct e as [f fid]. unfold collect_step.
  by destruct (_ && _).
Qed.

Lemma last_n_fst (k : nat) (frames : list Frame) :
  (last_n k (numbered 0 frames)).*1 = last_n k frames.
Proof.
  unfold last_n. by rewrite fmap_drop, numbered_fst, numbered_length.
Qed.

Lemma trigger_pre_roll env fs fps0 d history frame now :
  1 <= fps0 ->
  detector_inv fps0 d ->
  holds_latest d history ->
  let r := feed model env fs d frame now in
  r.1.1.1 <> [] ->
  r.1.1.2 = [] /\ r.2 = fs
  /\ active_clip r.1.2
     = Some {| clip_start := frame_id d + 1 - fps0 * 5;
               clip_end := frame_id d + 1 + fps0 * 5;
               clip_frames :=
                 last_n (Z.to_nat (fps0 * 5 + 1)) (history ++ [frame]);
               clip_last := frame_id d + 1 |}.
Proof.
  intros Hfps Hinv Hh. unfold feed.
  assert (Hm : 0 <= Deque.maxlen (frame_buffer d))
    by (rewrite (inv_maxlen _ _ Hinv); lia).
  pose proof (process_frame_holds_latest model d history frame now Hm Hh)
    as [Hitems Hid].
  pose proof (process_frame_inv model fps0 d frame now Hinv) as Hinv1.
  pose proof (process_frame_event model d frame now) as Hev.
  pose proof (process_frame_trigger model d frame now) as Htr.
  destruct (process_frame model d frame now) as [d1 events]. simpl in *.
  intros Hne.
  assert (Hne' : events <> []).
  { revert Hne. by destruct (handle_clip env fs d1 false) as [[? ?] ?]. }
  clear Hne. destruct (Hev Hne') as [Hq Hp].
  destruct (Htr Hq Hp) as (_ & _ & _ & Hid1 & Hclip).
  rewrite (inv_fps _ _ Hinv) in Hclip.
  rewrite (handle_clip_open d1 _ env fs false Hclip).
  set (w := fresh_window fps0 (frame_id d + 1)) in *.
  set (buf := Deque.items (frame_buffer d1)) in *.
  destruct (Z.ltb_spec (clip_end w) (frame_id d1)) as [Hlt|_];
    [simpl in Hlt; lia|].
  simpl. split; [done|]. split; [done|]. f_equal.
  destruct (collect_bounds buf w) as [Hs He].
  assert (Hin : (frame, frame_id d + 1) ∈ buf).
  { rewrite Hitems, (inv_maxlen _ _ Hinv1).
    rewrite numbered_snoc. unfold last_n.
    apply list_elem_of_lookup.
    exists (length (numbered 0 history) `min` (Z.to_nat (fps0 * 20) - 1))%nat.
    rewrite lookup_drop, length_app. simpl.
    destruct Hh as [_ Hidd]. rewrite Hidd, numbered_length.
    rewrite lookup_app_r by (rewrite numbered_length; lia).
    rewrite numbered_length.
    replace (_ - length history)%nat with 0%nat by lia. simpl.
    by rewrite Z.add_0_l. }
  assert (Hle : forall e, e ∈ buf -> 1 <= e.2 <= frame_id d + 1).
  { intros e He'. rewrite <- Hid1. by apply (inv_positive fps0). }
  assert (Hlast : clip_last (collect buf w) = frame_id d + 1).
  { pose proof (collect_exhausts buf w _ Hin) as Hex.
    pose proof (collect_last_le buf w (frame_id d + 1)) as Hub.
    unfold in_window in Hex. rewrite Hs, He in Hex. simpl in Hex.
    assert (clip_last (collect buf w) <= frame_id d + 1).
    { apply Hub; [intros e He'; apply (Hle e He') | simpl; lia]. }
    destruct (Z.leb_spec (frame_id d + 1 - fps0 * 5) (frame_id d + 1)); [|lia].
    destruct (Z.leb_spec (frame_id d + 1) (frame_id d + 1 + fps0 * 5)); [|lia].
    simpl in Hex. apply Z.ltb_ge in Hex. lia. }
  assert (Hframes : clip_frames (collect buf w)
                    = last_n (Z.to_nat (fps0 * 5 + 1)) (history ++ [frame])).
  { rewrite collect_frames by (by apply (inv_sorted fps0)). simpl.
    rewrite (filter_ext_in _
               (fun e : Frame * Z => frame_id d + 1 - fps0 * 5 <=? e.2)).
    - rewrite Hitems, (inv_maxlen _ _ Hinv1). unfold last_n at 1.
      rewrite filter_ge_drop_numbered, fmap_drop, numbered_fst.
      unfold last_n. f_equal.
      rewrite numbered_length, length_app in *. simpl in *. lia.
    - intros e He'. apply list_elem_of_In in He'.
      specialize (Hle e He'). unfold in_window. simpl.
      destruct (Z.leb_spec e.2 (frame_id d + 1 + fps0 * 5)); [|lia].
      destruct (Z.ltb_spec 0 e.2); [|lia].
      by rewrite !andb_true_r. }
  destruct (collect buf w) as [s e fr l]. simpl in *. by subst.
Qed.

(** X6.  The pre-roll of a clip.  With FPS >= 1, the call of
    [handle_clip()] that follows a triggering frame finds the new window
    [seq - FPS×5, seq + FPS×5] and fills it at once from the ring buffer:
    the window then holds the last FPS×5 + 1 frames the camera has given
    (all of them when there were fewer), the triggering frame last, and
    no clip is written by that call. *)
Theorem trigger_collects_pre_roll env fs fps0 d0 inputs frame now :
  1 <= fps0 ->
  init fps0 = Some d0 ->
  let before := feeds model env fs d0 inputs in
  let r := feed model env before.2 before.1.2 frame now in
  let seq := Z.of_nat (length inputs) + 1 in
  r.1.1.1 <> [] ->
  r.1.1.2 = [] /\ r.2 = before.2
  /\ active_clip r.1.2
     = Some {| clip_start := seq - fps0 * 5; clip_end := seq + fps0 * 5;
               clip_frames :=
                 last_n (Z.to_nat (fps0 * 5 + 1)) (inputs.*1 ++ [frame]);
               clip_last := seq |}.
Proof.
  intros Hfps Hinit before r seq Hne.
  destruct (init_holds_latest fps0 d0 Hinit) as (Hh & Hm & H0).
  destruct (feeds_holds_latest model env fs d0 [] inputs) as [Hh1 _];
    [lia | done |].
  fold before in Hh1. simpl in Hh1.
  assert (Hinv : detector_inv fps0 before.1.2).
  { apply (reachable_inv model). apply reachable_feeds. by apply reach_init. }
  destruct (trigger_pre_roll env before.2 fps0 before.1.2 inputs.*1 frame now
              Hfps Hinv Hh1 Hne) as (H1 & H2 & H3).
  destruct Hh1 as [_ Hid]. rewrite length_fmap in Hid.
  unfold seq. rewrite <- Hid. done.
Qed.

End PreRoll.

(** * Further properties of the clip writer *)

Section WriterFootprint.

Context {Frame : Type}.
Implicit Types (clip : ClipWindow Frame) (fs : FS).

Ltac fs_unfold :=
  unfold fs_create, fs_remove, fs_rename;
  repeat first [ rewrite elem_of_union | rewrite elem_of_difference
               | rewrite elem_of_singleton ].

Lemma final_name_nonempty env : String.eqb (final_name env) "" = false.
Proof. done. Qed.

Lemma fallback_name_nonempty env : String.eqb (fallback_name env) "" = false.
Proof. by rewrite fallback_name_eq. Qed.

Lemma fallback_footprint env fs :
  let r := fallback env fs in
  (forall p, p <> temp_name env -> p <> fallback_name env ->
             p ∈ r.2 <-> p ∈ fs)
  /\ (forall p, r.1 = Some p -> p = fallback_name env /\ p ∈ r.2)
  /\ (r.1 = None -> r.2 = fs /\ temp_name env ∉ fs).
Proof.
  unfold fallback.
  destruct (path_exists fs (temp_name env)) eqn:E; simpl.
  - split; [|split; [|done]].
    + intros p H1 H2. fs_unfold. tauto.
    + intros p [= <-]. fs_unfold. tauto.
  - apply path_exists_false in E. done.
Qed.

(** X7.  The files [write_clip] touches.  It creates, removes or
    renames no regular file other than its own intermediate file, its
    MP4 and its AVI fallback.  A path it returns is the MP4 or the AVI
    name, is not empty (so [handle_clip] reports it as a ready clip) and
    names a file that exists when it returns.  When it returns no path,
    every file other than the MP4 is as it found it.  (The MP4 name is
    left out there because an ffmpeg run that fails may leave a partial
    output file, which the embedding does not follow; the directory
    [events] is not a regular file.) *)
Theorem write_clip_footprint env fs clip :
  let r := write_clip env fs clip in
  (forall p, p <> temp_name env -> p <> final_name env ->
             p <> fallback_name env -> p ∈ r.2 <-> p ∈ fs)
  /\ (forall p, r.1 = Some p ->
        (p = final_name env \/ p = fallback_name env) /\ p ∈ r.2
        /\ ready_of r.1 = [ClipReady p])
  /\ (r.1 = None ->
      forall p, p <> final_name env -> p ∈ r.2 <-> p ∈ fs).
Proof.
  unfold write_clip. destruct (clip_frames clip) as [|f frames]; [done|].
  set (fs1 := if writer_wrote env then fs_create fs (temp_name env) else fs).
  assert (H1 : forall p, p <> temp_name env -> p ∈ fs1 <-> p ∈ fs).
  { intros p Hp. unfold fs1. destruct (writer_wrote env); [|done].
    fs_unfold. tauto. }
  assert (H2 : temp_name env ∉ fs1 -> fs1 = fs).
  { unfold fs1. destruct (writer_wrote env); [|done].
    intros H. exfalso. apply H. fs_unfold. tauto. }
  destruct (fallback_footprint env fs1) as (F1 & F2 & F3).
  assert (Hfb : let r := fallback env fs1 in
    (forall p, p <> temp_name env -> p <> final_name env ->
               p <> fallback_name env -> p ∈ r.2 <-> p ∈ fs)
    /\ (forall p, r.1 = Some p ->
          (p = final_name env \/ p = fallback_name env) /\ p ∈ r.2
          /\ ready_of r.1 = [ClipReady p])
    /\ (r.1 = None ->
        forall p, p <> final_name env -> p ∈ r.2 <-> p ∈ fs)).
  { simpl. split; [|split].
    - intros p Hp1 _ Hp2. rewrite (F1 p Hp1 Hp2). by apply H1.
    - intros p Hp. destruct (F2 p Hp) as [-> Hin].
      split; [by right|]. split; [done|].
      rewrite Hp. unfold ready_of. by rewrite fallback_name_nonempty.
    - intros Hn p _. destruct (F3 Hn) as [-> Hnot]. by rewrite (H2 Hnot). }
  destruct (ffmpeg env); try exact Hfb.
  cbv zeta. cbn [fst snd]. split; [|split; [|done]].
  - intros p Hp1 Hp2 _.
    destruct (path_exists _ _); fs_unfold; rewrite (H1 p Hp1); tauto.
  - intros p [= <-]. split; [by left|].
    pose proof (temp_name_not_final env env) as Hne.
    split; [|unfold ready_of; by rewrite final_name_nonempty].
    destruct (path_exists _ _); fs_unfold; intuition congruence.
Qed.

End WriterFootprint.

(** * Further properties of the tracker *)

Section TrackerFacts.

Context {Frame : Type}.
Implicit Types (q : Tracker.FrameQueue Frame) (p : Tracker.Producer Frame)
  (s : Tracker.Tracker Frame).

Import Tracker TrackerApi.

Lemma put_length q m q' :
  0 < maxsize q -> put q m = Some q' ->
  maxsize q' = maxsize q
  /\ Z.of_nat (length (qitems q')) <= maxsize q.
Proof.
  unfold put, full. intros Hpos.
  destruct (Z.ltb_spec 0 (maxsize q)) as [_|]; [|lia].
  destruct (Z.leb_spec (maxsize q) (Z.of_nat (length (qitems q)))); [done|].
  intros [= <-]. simpl. rewrite length_app. simpl. lia.
Qed.

Lemma get_length q :
  maxsize (get q).2 = maxsize q
  /\ (length (qitems (get q).2) <= length (qitems q))%nat.
Proof.
  unfold get. destruct (qitems q) as [|m rest] eqn:E; simpl.
  - by rewrite E.
  - lia.
Qed.

Lemma step_producer_length run now q p q' p' :
  0 < maxsize q ->
  Z.of_nat (length (qitems q)) <= maxsize q ->
  step_producer run now q p = Some (q', p') ->
  maxsize q' = maxsize q
  /\ Z.of_nat (length (qitems q')) <= maxsize q.
Proof.
  intros Hpos Hlen. unfold step_producer.
  destruct (pc p) as [| |f|f| |]; try (by intros [= <- _]).
  - destruct (cap p); by intros [= <- _].
  - destruct (put q _) as [q1|] eqn:E; [|done].
    intros [= <- _]. exact (put_length q _ q1 Hpos E).
Qed.

Lemma sys_step_length a s s' :
  0 < maxsize (frame_queue s) ->
  Z.of_nat (length (qitems (frame_queue s))) <= maxsize (frame_queue s) ->
  sys_step a s = Some s' ->
  maxsize (frame_queue s') = maxsize (frame_queue s)
  /\ Z.of_nat (length (qitems (frame_queue s'))) <= maxsize (frame_queue s).
Proof.
  intros Hpos Hlen. destruct a as [i now|]; simpl.
  - destruct (producers s !! i) as [p|]; [|done].
    destruct (step_producer _ _ _ _) as [[q' p']|] eqn:E; [|done].
    intros [= <-]. simpl. by apply (step_producer_length _ _ _ _ _ _ Hpos Hlen E).
  - intros [= <-]. simpl. destruct (running s); [|done].
    destruct (get_length (frame_queue s)) as [-> H]. lia.
Qed.

(** X8.  With a positive [queue_size], the frame queue never holds more
    than [queue_size] tuples, however the capture threads and the
    [get_frame] calls of the coordinator interleave, and whichever
    sources opened. *)
Theorem queue_never_exceeds_maxsize queue_size opened
    (sources : list (string * list Frame)) sched s' :
  0 < queue_size ->
  run_schedule sched (start_threads queue_size opened sources) = Some s' ->
  maxsize (frame_queue s') = queue_size
  /\ Z.of_nat (length (qitems (frame_queue s'))) <= queue_size.
Proof.
  intros Hpos.
  assert (Hgen : forall s,
    maxsize (frame_queue s) = queue_size ->
    Z.of_nat (length (qitems (frame_queue s))) <= queue_size ->
    run_schedule sched s = Some s' ->
    maxsize (frame_queue s') = queue_size
    /\ Z.of_nat (length (qitems (frame_queue s'))) <= queue_size).
  { induction sched as [|a sched IH]; intros s Hm Hlen; simpl.
    - by intros [= <-].
    - destruct (sys_step a s) as [s1|] eqn:E; [|done].
      destruct (sys_step_length a s s1) as [H1 H2]; [lia | lia | done |].
      apply IH; lia. }
  apply Hgen; simpl; [done | lia].
Qed.

Lemma sys_step_running a s s' :
  sys_step a s = Some s' -> running s' = running s.
Proof.
  destruct a as [i now|]; simpl.
  - destruct (producers s !! i) as [p|]; [|done].
    destruct (step_producer _ _ _ _) as [[q' p']|]; [|done].
    by intros [= <-].
  - by intros [= <-].
Qed.

Lemma run_schedule_running sched s s' :
  run_schedule sched s = Some s' -> running s' = running s.
Proof.
  revert s. induction sched as [|a sched IH]; intros s; simpl.
  - by intros [= <-].
  - destruct (sys_step a s) as [s1|] eqn:E; [|done].
    intros H. rewrite (IH s1 H). by apply (sys_step_running a).
Qed.

(** X9.  After [stop()] the coordinator gets no frame any more:
    whatever the capture threads still do, and even when one of them
    still puts a frame on the emptied queue, [get_frame] returns
    [(False, None, None, None)] and takes nothing, and no [get_frame]
    call in between removes anything from the queue. *)
Theorem stopped_tracker_gives_no_frame s sched s' :
  run_schedule sched (stop s) = Some s' ->
  running s' = false
  /\ get_frame s' = (None, s')
  /\ sys_step GetFrame s' = Some s'.
Proof.
  intros Hrun. pose proof (run_schedule_running _ _ _ Hrun) as Hr.
  simpl in Hr. split; [done|]. split.
  - unfold get_frame. by rewrite Hr.
  - destruct s' as [r q ps]. simpl in *. by rewrite Hr.
Qed.

End TrackerFacts.

Section CaptureOrder.

Context {Frame : Type}.
Implicit Types (q : Tracker.FrameQueue Frame) (p : Tracker.Producer Frame)
  (s : Tracker.Tracker Frame) (ms : list (Tracker.Msg Frame)).

Import Tracker TrackerApi TrackerLog.

Lemma frames_of_app src ms ms' :
  frames_of src (ms ++ ms') = frames_of src ms ++ frames_of src ms'.
Proof. unfold frames_of. by rewrite List.filter_app, fmap_app. Qed.

Lemma frames_of_one src (m : Msg Frame) :
  frames_of src [m]
  = if String.eqb (msg_source m) src then [msg_frame m] else [].
Proof. unfold frames_of. simpl. by destruct (String.eqb _ _). Qed.

Lemma put_items q (m : Msg Frame) q' :
  put q m = Some q' -> qitems q' = qitems q ++ [m].
Proof. unfold put. destruct (full q); [done|]. by intros [= <-]. Qed.

Lemma step_producer_kept run now q p q' p' src received :
  step_producer run now q p = Some (q', p') ->
  source_id p' = source_id p
  /\ (source_id p = src ->
      kept_frames src received q' p' `sublist_of` kept_frames src received q p)
  /\ (source_id p <> src ->
      frames_of src (qitems q') = frames_of src (qitems q)).
Proof.
  unfold step_producer, kept_frames, in_hand.
  destruct (pc p) as [| |f|f| |] eqn:Hpc.
  - intros [= <- <-]. simpl. rewrite ?Hpc.
    by destruct run.
  - destruct (cap p) as [|f rest] eqn:Hcap; intros [= <- <-]; simpl; done.
  - intros [= <- <-]. simpl. split; [done|]. split; [|done]. intros _.
    destruct (full q); simpl; [|done].
    apply sublist_app; [done|]. apply sublist_app; [done|].
    by apply sublist_cons.
  - destruct (put q _) as [q1|] eqn:E; [|done].
    intros [= <- <-]. simpl. apply put_items in E. rewrite E.
    rewrite frames_of_app, frames_of_one. simpl. split; [done|]. split.
    + intros ->. rewrite String.eqb_refl. by rewrite <- !app_assoc.
    + intros Hne. apply String.eqb_neq in Hne. rewrite Hne.
      by rewrite app_nil_r.
  - intros [= <- <-]. simpl. by rewrite ?Hpc.
  - done.
Qed.

Lemma sys_step_keeps_order a s s1 i src frames received :
  sys_step a s = Some s1 ->
  (exists p, producers s !! i = Some p /\ source_id p = src
     /\ kept_frames src received (frame_queue s) p `sublist_of` frames) ->
  (forall j p', j <> i -> producers s !! j = Some p' -> source_id p' <> src) ->
  (exists p1, producers s1 !! i = Some p1 /\ source_id p1 = src
     /\ kept_frames src (received ++ taken a s) (frame_queue s1) p1
        `sublist_of` frames)
  /\ (forall j p', j <> i -> producers s1 !! j = Some p' ->
        source_id p' <> src).
Proof.
  intros Hstep (p & Hp & Hsrc & Hsub) Hothers.
  destruct a as [j now|]; simpl in Hstep.
  - destruct (producers s !! j) as [pj|] eqn:Hj; [|done].
    destruct (step_producer _ _ _ _) as [[q' pj']|] eqn:E; [|done].
    injection Hstep as <-. simpl. rewrite app_nil_r.
    destruct (step_producer_kept _ _ _ _ _ _ src received E)
      as (Hid & Hsame & Hother).
    assert (Hlen : (j < length (producers s))%nat)
      by (by apply lookup_lt_Some in Hj).
    destruct (decide (j = i)) as [->|Hji].
    + rewrite Hp in Hj. injection Hj as <-. split.
      * exists pj'. rewrite list_lookup_insert_eq by done.
        split; [done|]. split; [congruence|].
        etrans; [by apply Hsame | done].
      * intros j' p' Hj' Hl. rewrite list_lookup_insert_ne in Hl by done.
        by apply (Hothers j').
    + assert (Hpj : source_id pj <> src) by (by apply (Hothers j)).
      split.
      * exists p. rewrite list_lookup_insert_ne by done.
        split; [done|]. split; [done|].
        unfold kept_frames in *. by rewrite (Hother Hpj).
      * intros j' p' Hj' Hl.
        destruct (decide (j' = j)) as [->|Hne].
        -- rewrite list_lookup_insert_eq in Hl by done.
           injection Hl as <-. congruence.
        -- rewrite list_lookup_insert_ne in Hl by done.
           by apply (Hothers j').
  - injection Hstep as <-. simpl. split; [|done].
    exists p. split; [done|]. split; [done|].
    destruct (running s); [|by rewrite app_nil_r].
    unfold get, kept_frames in *.
    destruct (frame_queue s) as [mx [|m rest]]; cbn [fst snd qitems] in *.
    + by rewrite app_nil_r.
    + rewrite frames_of_app.
      change (m :: rest) with ([m] ++ rest) in Hsub.
      rewrite frames_of_app in Hsub. by rewrite <- !app_assoc in *.
Qed.

Lemma run_logged_keeps_order sched s s' log i src frames received :
  run_logged sched s = Some (log, s') ->
  (exists p, producers s !! i = Some p /\ source_id p = src
     /\ kept_frames src received (frame_queue s) p `sublist_of` frames) ->
  (forall j p', j <> i -> producers s !! j = Some p' -> source_id p' <> src) ->
  exists p1, producers s' !! i = Some p1 /\ source_id p1 = src
    /\ kept_frames src (received ++ log) (frame_queue s') p1
       `sublist_of` frames.
Proof.
  revert s log received.
  induction sched as [|a sched IH]; intros s log received; simpl.
  - intros [= <- <-]. by rewrite app_nil_r.
  - destruct (sys_step a s) as [s1|] eqn:E; [|done].
    destruct (run_logged sched s1) as [[log1 s2]|] eqn:E1; [|done].
    intros [= <- <-] Hinv Hothers.
    destruct (sys_step_keeps_order a s s1 i src frames received E Hinv Hothers)
      as [Hinv1 Hothers1].
    rewrite app_assoc. by apply (IH s1 log1).
Qed.

Lemma lookup_map {A B} (f : A -> B) (l : list A) (i : nat) :
  List.map f l !! i = f <$> l !! i.
Proof.
  revert i. induction l as [|x l IH]; intros [|i]; simpl; done.
Qed.

Lemma NoDup_filter_fst {A B} (P : A * B -> bool) (l : list (A * B)) :
  NoDup l.*1 -> NoDup (List.filter P l).*1.
Proof.
  induction l as [|x l IH]; simpl; [done|].
  intros Hnd. apply NoDup_cons in Hnd as [Hx Hnd].
  destruct (P x); [|by apply IH]. simpl. apply NoDup_cons. split; [|by apply IH].
  intros Hin. apply Hx. apply list_elem_of_fmap in Hin as (y & -> & Hy).
  apply list_elem_of_fmap. exists y. split; [done|].
  apply list_elem_of_In in Hy. apply filter_In in Hy as [Hy _].
  by apply list_elem_of_In.
Qed.

(** X10.  Each camera's frames reach the coordinator in capture order.
    When the sources have distinct ids, then however the capture threads
    and the [get_frame] calls interleave, the frames of a camera that
    were received, followed by those still queued, are a subsequence of
    what its capture delivers: never reordered, never duplicated, only
    dropped (when the queue was full). *)
Theorem camera_frames_arrive_in_order queue_size opened
    (sources : list (string * list Frame)) sched log s' src frames :
  NoDup sources.*1 ->
  (src, frames) ∈ sources ->
  opened src = true ->
  run_logged sched (start_threads queue_size opened sources) = Some (log, s') ->
  frames_of src log ++ queued_of src (frame_queue s') `sublist_of` frames.
Proof.
  intros Hnd Hin Hopen Hrun. unfold start_threads in Hrun.
  set (srcs := List.filter (fun sf : string * list Frame => opened sf.1)
                 sources) in *.
  assert (Hnd' : NoDup srcs.*1) by (by apply NoDup_filter_fst).
  assert (Hin' : (src, frames) ∈ srcs).
  { apply list_elem_of_In, filter_In. split; [by apply list_elem_of_In|done]. }
  apply list_elem_of_lookup in Hin' as [i Hi].
  destruct (run_logged_keeps_order sched _ s' log i src frames [] Hrun)
    as (p1 & Hp1 & Hsrc & Hsub).
  - eexists. simpl. rewrite lookup_map, Hi. simpl.
    split; [done|]. split; [done|]. done.
  - intros j p' Hji. simpl. rewrite lookup_map.
    destruct (srcs !! j) as [sf|] eqn:Hj; [|done]. simpl.
    intros [= <-]. simpl. intros Heq. apply Hji.
    apply (NoDup_lookup srcs.*1 j i src); [done|..].
    + by rewrite list_lookup_fmap, Hj, <- Heq.
    + by rewrite list_lookup_fmap, Hi.
  - etrans; [|exact Hsub]. unfold kept_frames. simpl.
    apply sublist_app; [done|]. by apply sublist_inserts_r.
Qed.

End CaptureOrder.

(** * Further properties of the upload process *)

Section UploadFacts.

Context {Frame : Type}.
Implicit Types (fs : FS) (clip : ClipWindow Frame).

Import Uploader.

Ltac fs_unfold :=
  unfold fs_create, fs_remove, fs_rename;
  repeat first [ rewrite elem_of_union | rewrite elem_of_difference
               | rewrite elem_of_singleton ].

(** X11.  What the upload process does outside the storage upload.  It
    touches no local file other than the clip, and deletes the clip only
    in a run whose upload succeeded, after asking the store to mark the
    record UPLOADED with the public URL.  It uploads at most once and
    sends exactly one update, for the record it was started with,
    unless the clip is missing, when it does nothing. *)
Theorem upload_deletes_only_after_success uenv fs p rid :
  let u := upload_clip_async uenv fs p rid in
  (forall q, q <> p -> q ∈ u.1 <-> q ∈ fs)
  /\ (p ∈ fs -> p ∉ u.1 ->
      remove_ok uenv = true
      /\ exists url, outcome uenv = Uploaded url
           /\ u.2 = [StorageUpload p;
                     UpdateAccident rid
                       [("video_url", url); ("status", "UPLOADED")]%string])
  /\ (p ∈ fs ->
      exists data,
        u.2 = [UpdateAccident rid data]
        \/ u.2 = [StorageUpload p; UpdateAccident rid data])
  /\ (p ∉ fs -> u = (fs, [])).
Proof.
  unfold upload_clip_async. destruct (path_exists fs p) eqn:E; simpl.
  - apply path_exists_true in E. split; [|split; [|split]].
    + intros q Hq. destruct (outcome uenv); try done.
      destruct (remove_ok uenv); [|done]. simpl. fs_unfold. tauto.
    + intros _. destruct (outcome uenv) as [url| | |]; try done.
      destruct (remove_ok uenv); [|done]. simpl. intros _.
      split; [done|]. by exists url.
    + intros _. unfold upload_failed, update_accident.
      destruct (outcome uenv) as [url| | |]; simpl; eexists;
        first [by left | by right].
    + done.
  - apply path_exists_false in E. split; [done|]. split; [done|]. done.
Qed.

(** X12.  A clip that is encoded and then uploaded leaves no file behind.
    When [write_clip] returns a path, neither its intermediate file nor
    the returned path existed before, and the upload of that path
    succeeds and deletes the local file, then every file other than the
    MP4 is afterwards as it was before [write_clip] ran; when the
    transcode succeeded the MP4 is the returned path and the files are
    exactly as before.  (After a failed transcode the AVI is returned,
    and the MP4 name is left out because a failed ffmpeg run may leave a
    partial output file, which the embedding does not follow.) *)
Theorem encode_then_upload_leaves_no_file env fs clip uenv rid p url :
  (write_clip env fs clip).1 = Some p ->
  temp_name env ∉ fs ->
  p ∉ fs ->
  outcome uenv = Uploaded url ->
  remove_ok uenv = true ->
  let fs' := (upload_clip_async uenv (write_clip env fs clip).2 p rid).1 in
  (forall q, q <> final_name env -> q ∈ fs' <-> q ∈ fs)
  /\ (ffmpeg env = Transcoded -> p = final_name env /\ fs' = fs).
Proof.
  intros Hp Htemp Hnew Hout Hrm.
  assert (Hgen : forall fs', p ∈ fs' ->
    (forall q, q <> p -> q ∈ fs' <-> q ∈ fs) ->
    (upload_clip_async uenv fs' p rid).1 = fs).
  { intros fs' Hin Hsame. unfold upload_clip_async.
    rewrite (proj2 (path_exists_true fs' p) Hin), Hout, Hrm. simpl.
    apply set_eq. intros q. fs_unfold.
    destruct (decide (q = p)) as [->|Hq]; [tauto|].
    rewrite (Hsame q Hq). tauto. }
  assert (Hall : (upload_clip_async uenv (write_clip env fs clip).2 p rid).1
                 = fs).
  { revert Hp. unfold write_clip.
    destruct (clip_frames clip) as [|f frames]; [done|].
    set (fs1 := if writer_wrote env then fs_create fs (temp_name env) else fs).
    assert (H1 : forall q, q <> temp_name env -> q ∈ fs1 <-> q ∈ fs).
    { intros q Hq. unfold fs1. destruct (writer_wrote env); [|done].
      fs_unfold. tauto. }
    assert (Hfb : (fallback env fs1).1 = Some p ->
                  (upload_clip_async uenv (fallback env fs1).2 p rid).1 = fs).
    { unfold fallback.
      destruct (path_exists fs1 (temp_name env)) eqn:E; [|done].
      simpl. intros [= <-]. apply Hgen.
      - fs_unfold. tauto.
      - intros q Hq. fs_unfold.
        destruct (decide (q = temp_name env)) as [->|Hqt]; [tauto|].
        rewrite (H1 q Hqt). tauto. }
    destruct (ffmpeg env); try exact Hfb.
    cbv zeta. cbn [fst snd]. intros [= <-].
    pose proof (temp_name_not_final env env) as Hne.
    apply Hgen.
    - destruct (path_exists _ _); fs_unfold; intuition congruence.
    - intros q Hq.
      destruct (decide (q = temp_name env)) as [->|Hqt].
      + destruct (path_exists _ _) eqn:E; fs_unfold; [tauto|].
        apply path_exists_false in E. revert E. fs_unfold. tauto.
      + destruct (path_exists _ _); fs_unfold; rewrite (H1 q Hqt); tauto. }
  intros fs'. subst fs'. rewrite Hall. split; [done|].
  intros Hok. split; [|done].
  revert Hp. unfold write_clip.
  destruct (clip_frames clip) as [|f frames]; [done|].
  rewrite Hok. cbv zeta. cbn [fst]. by intros [= <-].
Qed.

End UploadFacts.

(** * Further properties of the coordinator *)

Section StateInvariant.

Context {Frame : Type}.
Variable model : Frame -> list Q.
Implicit Types (c : Coordinator Frame) (st : AccidentState).

Import Session.

Lemma consistent_reset st : consistent (reset st).
Proof. by right. Qed.

Lemma on_events_consistent env st events :
  consistent st -> consistent (on_events env st events).1.
Proof.
  intros H. induction events as [|ev events IH]; [done|]. simpl.
  destruct (Qltb RECORD_COOLDOWN _); simpl; [|done].
  destruct (created env) as [id|]; [|done].
  destruct (Z.eqb_spec id 0) as [->|Hid]; simpl; [done|].
  left. split; [done|]. by exists id.
Qed.

Lemma detect_step_consistent env st events :
  consistent st -> consistent (detect_step env st events).1.
Proof.
  intros H. unfold detect_step. destruct (active st); [done|].
  by apply on_events_consistent.
Qed.

Lemma clip_step_consistent st ready :
  consistent st -> consistent (clip_step st ready).1.
Proof.
  intros H. unfold clip_step. destruct (active_id st) as [id|]; [|done].
  destruct (on_clips_cases id st ready) as [-> | (p & _ & _ & ->)];
    [done | apply consistent_reset].
Qed.

Lemma consistent_active_id st :
  consistent st -> active_id st = accident_id st.
Proof.
  unfold active_id.
  intros [[Ha (id & -> & Hid)] | [Ha ->]]; [|done].
  rewrite Ha. simpl. by destruct (Z.eqb_spec id 0).
Qed.

Lemma tick_consistent env cam frame c :
  (forall k st, accident_states c !! k = Some st -> consistent st) ->
  forall k st, accident_states (tick model env cam frame c).1 !! k = Some st ->
               consistent st.
Proof.
  intros Hall.
  destruct (tick_front model env cam frame c) as [[c2 e12]|] eqn:Hfront;
    [|unfold tick; rewrite Hfront; exact Hall].
  rewrite (tick_unfold model env cam frame c c2 e12 Hfront). simpl.
  assert (Hall2 : forall k st, accident_states c2 !! k = Some st ->
                               consistent st).
  { revert Hfront.
    destruct (detectors c !! cam) as [detector|] eqn:Hd;
      [|by rewrite tick_front_unknown by (by left)].
    destruct (accident_states c !! cam) as [state|] eqn:Hs;
      [|by rewrite tick_front_unknown by (by right)].
    rewrite (tick_front_known model env cam frame c detector state) by done.
    intros [= <- _] k st. simpl.
    destruct (decide (k = cam)) as [->|Hk].
    - rewrite lookup_insert_eq. intros [= <-].
      apply clip_step_consistent, detect_step_consistent. by apply (Hall cam).
    - rewrite lookup_insert_ne by done. apply Hall. }
  intros k st Hst.
  destruct (safety_net_frame (safety env) (cam_order c2) c2) as (_ & _ & H3 & _).
  assert (Hsome : is_Some (accident_states c2 !! k)).
  { apply (safety_net_keys (safety env) (cam_order c2) c2 k). by rewrite Hst. }
  destruct Hsome as [st2 Hst2].
  destruct (H3 k st2 Hst2) as [H | H]; rewrite Hst in H; injection H as ->.
  - by apply (Hall2 k).
  - apply consistent_reset.
Qed.

(** X13.  Active means holding a record.  When every camera starts
    either idle with no record id or active with a non-zero one (as all
    do after start-up), this stays so after any number of iterations of
    the main loop; the test [state["active"] and state["accident_id"]]
    of steps 2 and 3 then holds exactly for the cameras whose
    [accident_id] is set. *)
Theorem states_stay_consistent inputs c :
  (forall k st, accident_states c !! k = Some st -> consistent st) ->
  forall k st,
    accident_states (run model inputs c).1 !! k = Some st ->
    consistent st /\ active_id st = accident_id st.
Proof.
  intros Hall k st Hst.
  assert (Hc : consistent st); [|by split; [|apply consistent_active_id]].
  revert c Hall k st Hst.
  induction inputs as [|[[env cam] frame] rest IH]; intros c Hall k st; simpl.
  - apply Hall.
  - pose proof (tick_consistent env cam frame c Hall) as H1.
    destruct (tick model env cam frame c) as [c1 e]. simpl in H1.
    pose proof (IH c1 H1 k st) as H2.
    destruct (run model rest c1) as [c2 es]. exact H2.
Qed.

End StateInvariant.

Section Isolation.

Context {Frame : Type}.
Variable model : Frame -> list Q.
Implicit Types (c : Coordinator Frame) (st : AccidentState)
  (d : AccidentDetector Frame).

Lemma closed_at_most_refl d : closed_at_most d d.
Proof. unfold closed_at_most. auto 10. Qed.

Lemma closed_at_most_trans d1 d2 d3 :
  closed_at_most d1 d2 -> closed_at_most d2 d3 -> closed_at_most d1 d3.
Proof.
  intros (A1 & A2 & A3 & A4 & A5 & A6) (B1 & B2 & B3 & B4 & B5 & B6).
  unfold closed_at_most.
  rewrite B1, B2, B3, B4, B5. repeat (split; [done|]).
  destruct B6 as [-> | ->]; [done | by right].
Qed.

Lemma handle_clip_forced_closed_at_most env fs d :
  closed_at_most d (handle_clip env fs d true).1.2.
Proof.
  destruct (handle_clip_detector env fs d true) as (E1 & E2 & E3 & E4 & E5).
  unfold closed_at_most. repeat (split; [done|]).
  right. apply handle_clip_forced_closes.
Qed.

Lemma safety_check_detectors senv k0 c k :
  let c' := (safety_check senv k0 c).1 in
  match detectors c !! k with
  | Some d => exists d', detectors c' !! k = Some d' /\ closed_at_most d d'
  | None => detectors c' !! k = None
  end.
Proof.
  destruct (safety_check_cases senv k0 c)
    as [E | (st & id & det & H1 & H2 & H3 & H4)].
  - rewrite E. simpl. destruct (detectors c !! k) as [d|] eqn:Hd; [|done].
    exists d. split; [done | apply closed_at_most_refl].
  - destruct (safety_check_forced senv k0 c st id det H1 H2 H3 H4)
      as (effs & E & _).
    rewrite E. simpl. destruct (decide (k = k0)) as [->|Hk].
    + rewrite H4, lookup_insert_eq. eexists. split; [done|].
      apply handle_clip_forced_closed_at_most.
    + rewrite lookup_insert_ne by done.
      destruct (detectors c !! k) as [d|] eqn:Hd; [|done].
      exists d. split; [done | apply closed_at_most_refl].
Qed.

Lemma safety_net_detectors senv cams c k :
  let c' := (safety_net senv cams c).1 in
  match detectors c !! k with
  | Some d => exists d', detectors c' !! k = Some d' /\ closed_at_most d d'
  | None => detectors c' !! k = None
  end.
Proof.
  revert c. induction cams as [|k0 cams IH]; intros c; simpl.
  - destruct (detectors c !! k) as [d|] eqn:Hd; [|done].
    exists d. split; [done | apply closed_at_most_refl].
  - pose proof (safety_check_detectors (senv k0) k0 c k) as H1.
    destruct (safety_check (senv k0) k0 c) as [c1 e1]. simpl in *.
    pose proof (IH c1) as H2.
    destruct (safety_net senv cams c1) as [c2 e2]. simpl in *.
    destruct (detectors c !! k) as [d|].
    + destruct H1 as (d1 & Hd1 & Hc1). rewrite Hd1 in H2.
      destruct H2 as (d2 & Hd2 & Hc2). exists d2. split; [done|].
      by apply (closed_at_most_trans d d1 d2).
    + by rewrite H1 in H2.
Qed.

(** X14.  A frame of one camera does not disturb the others.  The
    iteration that handles a frame of [cam] leaves every other camera's
    detector as it is (sequence number, ring buffer, pending detections,
    last trigger time) except that the safety net may close its window,
    adds or removes no detector, and leaves the other camera's state as
    it is or resets it. *)
Theorem tick_leaves_other_cameras env cam frame c k :
  k <> cam ->
  let c' := (tick model env cam frame c).1 in
  match detectors c !! k with
  | Some d => exists d', detectors c' !! k = Some d' /\ closed_at_most d d'
  | None => detectors c' !! k = None
  end
  /\ forall st, accident_states c !! k = Some st ->
       accident_states c' !! k = Some st
       \/ accident_states c' !! k = Some (reset st).
Proof.
  intros Hk.
  destruct (tick_front model env cam frame c) as [[c2 e12]|] eqn:Hfront.
  - rewrite (tick_unfold model env cam frame c c2 e12 Hfront). simpl.
    assert (Hsame : detectors c2 !! k = detectors c !! k
                    /\ accident_states c2 !! k = accident_states c !! k).
    { revert Hfront.
      destruct (detectors c !! cam) as [detector|] eqn:Hd;
        [|by rewrite tick_front_unknown by (by left)].
      destruct (accident_states c !! cam) as [state|] eqn:Hs;
        [|by rewrite tick_front_unknown by (by right)].
      rewrite (tick_front_known model env cam frame c detector state) by done.
      intros [= <- _]. simpl. by rewrite !lookup_insert_ne. }
    destruct Hsame as [Hd Hs]. rewrite <- Hd, <- Hs. split.
    + apply safety_net_detectors.
    + destruct (safety_net_frame (safety env) (cam_order c2) c2)
        as (_ & _ & H3 & _).
      apply H3.
  - unfold tick. rewrite Hfront. simpl. split; [|by left].
    destruct (detectors c !! k) as [d|] eqn:Hd; [|done].
    exists d. split; [done | apply closed_at_most_refl].
Qed.

End Isolation.

(** * Start-up, the loop and shutdown *)

Section SessionFacts.

Context {Frame : Type}.
Variable model : Frame -> list Q.
Implicit Types (c : Coordinator Frame) (st : AccidentState)
  (d : AccidentDetector Frame) (s : Session.Session Frame).

Import Session.

Lemma detector_fps_pos env url : 1 <= detector_fps env url.
Proof. unfold detector_fps. destruct (reopens env url); lia. Qed.

Lemma init_total fps0 :
  0 <= fps0 -> exists d, init (Frame := Frame) fps0 = Some d.
Proof.
  intros H. unfold init, Deque.new.
  destruct (Z.ltb_spec (fps0 * 20) 0); [lia|]. by eexists.
Qed.

Lemma elem_of_add_key k k' order :
  k' ∈ add_key k order <-> k' = k \/ k' ∈ order.
Proof.
  unfold add_key. destruct (bool_decide_reflect (k ∈ order)) as [Hin|Hin].
  - split; [by right|]. by intros [->|].
  - rewrite elem_of_app, list_elem_of_singleton. tauto.
Qed.

Lemma NoDup_add_key k order : NoDup order -> NoDup (add_key k order).
Proof.
  intros H. unfold add_key.
  destruct (bool_decide_reflect (k ∈ order)) as [Hin|Hin]; [done|].
  apply NoDup_app. split; [done|]. split; [|apply NoDup_singleton].
  intros x Hx Hx'. apply list_elem_of_singleton in Hx' as ->. done.
Qed.

Lemma add_camera_started env fs cams c cam :
  started env fs cams c ->
  model_loads env (cctv_url cam) = true ->
  exists c', add_camera env c cam = Some c'
             /\ started env fs (cams ++ [cam]) c'.
Proof.
  intros [[[Hnd Hkeys] Hsame] Hfiles Hurls Hloaded Hdets Hstates] Hload.
  unfold add_camera, construct. rewrite Hload.
  pose proof (detector_fps_pos env (cctv_url cam)) as Hpos.
  destruct (init_total (detector_fps env (cctv_url cam))) as [det Hdet]; [lia|].
  rewrite Hdet. eexists. split; [done|].
  split; simpl.
  - split; [split|]; simpl.
    + by apply NoDup_add_key.
    + intros k. rewrite elem_of_add_key, lookup_insert_is_Some, Hkeys.
      destruct (decide (cctv_url cam = k)); intuition congruence.
    + intros k. rewrite !lookup_insert_is_Some, Hsame. done.
  - done.
  - intros k. rewrite elem_of_add_key, fmap_app, elem_of_app, Hurls. simpl.
    rewrite list_elem_of_singleton. tauto.
  - intros cam' Hin. apply elem_of_app in Hin as [Hin | Hin].
    + by apply Hloaded.
    + by apply list_elem_of_singleton in Hin as ->.
  - intros k d. destruct (decide (k = cctv_url cam)) as [->|Hk].
    + rewrite lookup_insert_eq. by intros [= <-].
    + rewrite lookup_insert_ne by done. apply Hdets.
  - intros k st. destruct (decide (k = cctv_url cam)) as [->|Hk].
    + rewrite lookup_insert_eq. intros [= <-]. exists cam.
      split; [|done]. apply elem_of_app. right. apply list_elem_of_here.
    + rewrite lookup_insert_ne by done. intros Hst.
      destruct (Hstates k st Hst) as (cam' & Hin & Hurl & ->).
      exists cam'. split; [|done]. apply elem_of_app. by left.
Qed.

(** The constructor raises for a camera only when the model does not
    load. *)
Lemma add_camera_raises env c cam :
  add_camera env c cam = None -> model_loads env (cctv_url cam) = false.
Proof.
  unfold add_camera, construct.
  destruct (model_loads env (cctv_url cam)); [|done].
  pose proof (detector_fps_pos env (cctv_url cam)) as Hpos.
  destruct (init_total (detector_fps env (cctv_url cam))) as [det Hdet]; [lia|].
  by rewrite Hdet.
Qed.

Lemma add_cameras_cases env fs cams0 c cams :
  started env fs cams0 c ->
  (exists c', add_cameras env c cams = Some c'
              /\ started env fs (cams0 ++ cams) c')
  \/ (add_cameras env c cams = None
      /\ exists cam, cam ∈ cams /\ model_loads env (cctv_url cam) = false).
Proof.
  revert cams0 c. induction cams as [|cam cams IH]; intros cams0 c Hs; simpl.
  - left. exists c. by rewrite app_nil_r.
  - destruct (add_camera env c cam) as [c1|] eqn:E.
    + assert (Hload : model_loads env (cctv_url cam) = true).
      { unfold add_camera, construct in E.
        by destruct (model_loads env (cctv_url cam)). }
      destruct (add_camera_started env fs cams0 c cam Hs Hload)
        as (c1' & E' & Hs1).
      rewrite E in E'. injection E' as <-.
      destruct (IH _ c1 Hs1) as [(c2 & E2 & Hs2) | (E2 & cam' & Hin & Hf)].
      * left. exists c2. by rewrite <- app_assoc in Hs2.
      * right. split; [done|]. exists cam'.
        split; [by apply list_elem_of_further | done].
    + right. split; [done|]. exists cam.
      split; [apply list_elem_of_here | by apply (add_camera_raises env c)].
Qed.

Lemma empty_started env fs :
  started env fs []
    ({| detectors := ∅; accident_states := ∅; cam_order := [];
        files := fs |} : Coordinator Frame).
Proof.
  split; simpl; try done.
  - split; [split|]; simpl.
    + apply NoDup_nil_2.
    + intros k. rewrite lookup_empty. split; [by intros ?%elem_of_nil|].
      by intros [? ?].
    + intros k. by rewrite !lookup_empty.
  - by intros cam ?%elem_of_nil.
Qed.

Lemma setup_ready env fs cameras_data c :
  setup env fs cameras_data = Ready c ->
  started env fs (validated_cameras env cameras_data) c.
Proof.
  unfold setup.
  destruct (validated_cameras env cameras_data) as [|cam cams]; [done|].
  destruct (add_cameras_cases env fs [] _ (cam :: cams) (empty_started env fs))
    as [(c' & -> & Hs) | (-> & _)]; [|done].
  by intros [= <-].
Qed.

(** X15.  Start-up.  The constructor of a detector can raise there only
    in loading the model: its deque never raises, because the frame rate
    passed is at least 1.  Start-up returns early exactly when no source
    opens; it ends in the exception of the constructor exactly when the
    model fails to load for a validated camera; otherwise the model has
    loaded for every validated camera, the two dicts have the same keys,
    the URLs of the validated cameras, each listed once; every detector
    is a fresh one built with the frame rate of its source; every state
    is the idle initial state of a validated camera with that URL; and
    no file has been touched. *)
Theorem setup_establishes_session env fs cameras_data :
  match setup (Frame := Frame) env fs cameras_data with
  | NoCameras => validated_cameras env cameras_data = []
  | ConstructorError =>
      exists cam, cam ∈ validated_cameras env cameras_data
                  /\ model_loads env (cctv_url cam) = false
  | Ready c =>
      validated_cameras env cameras_data <> []
      /\ started env fs (validated_cameras env cameras_data) c
  end.
Proof.
  destruct (setup env fs cameras_data) as [| |c] eqn:E.
  - unfold setup in E.
    destruct (validated_cameras env cameras_data) as [|cam cams]; [done|].
    by destruct (add_cameras _ _ _).
  - unfold setup in E.
    destruct (validated_cameras env cameras_data) as [|cam cams]; [done|].
    destruct (add_cameras_cases env fs [] _ (cam :: cams)
                (empty_started env fs)) as [(c' & Hc' & _) | (_ & Hex)].
    + by rewrite Hc' in E.
    + exact Hex.
  - split; [|by apply setup_ready].
    intros Hnil. unfold setup in E. by rewrite Hnil in E.
Qed.

Lemma session_over_false s :
  frame_count s = 0 \/ active_cameras s <> ∅ -> session_over s = false.
Proof.
  unfold session_over. intros [-> | Hne]; [done|].
  apply andb_false_iff. right. apply Z.eqb_neq. intros H.
  apply Hne. apply leibniz_equiv, size_empty_iff. lia.
Qed.

Lemma loop_step_exit p s :
  frame_count s = 0 \/ active_cameras s <> ∅ ->
  let r := loop_step model p s in
  r.2 <> Some NoMoreFrames
  /\ (frame_count r.1.1 = 0 \/ active_cameras r.1.1 <> ∅).
Proof.
  intros Hinv. destruct p as [ret2 | env cam frame esc]; simpl.
  - by rewrite (session_over_false s Hinv).
  - assert (Hne : {[cam]} ∪ active_cameras s <> ∅).
    { intros H. apply (f_equal (fun X : gset string => bool_decide (cam ∈ X))) in H.
      rewrite bool_decide_eq_true_2 in H
        by (apply elem_of_union; left; by apply elem_of_singleton).
      by rewrite bool_decide_eq_false_2 in H by apply not_elem_of_empty. }
    destruct (tick_front model env cam frame (coordinator s)); simpl.
    + destruct (tick model env cam frame (coordinator s)); simpl.
      split; [by destruct esc | by right].
    + split; [done | by right].
Qed.

(** X17.  The "no more frames" exit of the main loop is never taken.  A
    camera is only ever added to [active_cameras], so once a frame has
    been counted the set is not empty and the test of line 226 fails:
    whatever the loop receives, it does not leave through the [break] of
    line 232, and ends only on ESC (or an exception). *)
Theorem loop_never_exits_for_lack_of_frames polls c :
  let r := loop model polls (start c) in
  r.2 <> Some NoMoreFrames
  /\ (0 < frame_count r.1.1 -> active_cameras r.1.1 <> ∅).
Proof.
  assert (Hgen : forall s,
    frame_count s = 0 \/ active_cameras s <> ∅ ->
    (loop model polls s).2 <> Some NoMoreFrames
    /\ (frame_count (loop model polls s).1.1 = 0
        \/ active_cameras (loop model polls s).1.1 <> ∅)).
  { induction polls as [|p polls IH]; intros s Hinv; simpl; [done|].
    destruct (loop_step_exit p s Hinv) as [Hx Hinv1].
    destruct (loop_step model p s) as [[s1 e1] x]. simpl in *.
    destruct x as [x|]; [done|].
    destruct (IH s1 Hinv1) as [Hx2 Hinv2].
    by destruct (loop model polls s1) as [[s2 e2] x2]. }
  destruct (Hgen (start c)) as [H1 H2]; [by left|].
  split; [done|]. intros Hpos. destruct H2 as [H2|H2]; [lia | done].
Qed.

Lemma upload_effects uenv fs p id :
  Forall (fun e => is_insert e = false /\ is_start_upload e = false)
    (Uploader.upload_clip_async uenv fs p id).2.
Proof.
  unfold Uploader.upload_clip_async.
  destruct (path_exists fs p); simpl; [|done].
  destruct (Uploader.outcome uenv); simpl; repeat constructor.
Qed.

Lemma finalize_clips_effects senv st fs clips :
  Forall (fun e => is_insert e = false /\ is_start_upload e = false)
    (finalize_clips senv st fs clips).2.
Proof.
  revert fs. induction clips as [|ev clips IH]; intros fs; simpl; [done|].
  assert (H : forall fs1 e1,
    Forall (fun e => is_insert e = false /\ is_start_upload e = false) e1 ->
    Forall (fun e => is_insert e = false /\ is_start_upload e = false)
      (let '(fs2, e2) := finalize_clips senv st fs1 clips in (fs2, e1 ++ e2)).2).
  { intros fs1 e1 He1. specialize (IH fs1).
    destruct (finalize_clips senv st fs1 clips) as [fs2 e2]. simpl in *.
    by apply Forall_app. }
  destruct (accident_id st) as [id|]; [|by apply H].
  destruct (ev_clip_path ev) as [p|]; [|by apply H].
  destruct (_ && _); [|by apply H].
  pose proof (upload_effects (upload senv) fs p id) as Hu.
  destruct (Uploader.upload_clip_async (upload senv) fs p id) as [fs' eu].
  apply H. simpl in *. by constructor.
Qed.

Lemma shutdown_cam_spec senv k0 s :
  same_keys (coordinator s) ->
  exists s' effs,
    shutdown_cam senv k0 s = Some (s', effs)
    /\ accident_states (coordinator s') = accident_states (coordinator s)
    /\ cam_order (coordinator s') = cam_order (coordinator s)
    /\ active_cameras s' = active_cameras s
    /\ (forall k,
          match detectors (coordinator s) !! k with
          | Some d =>
              exists d', detectors (coordinator s') !! k = Some d'
                /\ closed_at_most d d'
                /\ (k = k0 -> k ∈ active_cameras s -> active_clip d' = None)
                /\ (k ∉ active_cameras s -> d' = d)
          | None => detectors (coordinator s') !! k = None
          end)
    /\ Forall (fun e => is_insert e = false /\ is_start_upload e = false) effs.
Proof.
  intros [_ Hsame].
  unfold shutdown_cam.
  destruct (detectors (coordinator s) !! k0) as [detector|] eqn:Hd.
  - assert (Hst : is_Some (accident_states (coordinator s) !! k0))
      by (apply Hsame; by rewrite Hd).
    destruct Hst as [state Hst]. rewrite Hst.
    destruct (bool_decide_reflect (k0 ∈ active_cameras s)) as [Hact|Hact].
    + pose proof (handle_clip_forced_closed_at_most
                    (enc_final senv) (files (coordinator s)) detector) as Hc.
      pose proof (handle_clip_forced_closes
                    (enc_final senv) (files (coordinator s)) detector) as Hn.
      destruct (handle_clip _ _ _ true) as [[final_clips det'] fs1].
      simpl in Hc, Hn.
      pose proof (finalize_clips_effects senv state fs1 final_clips) as He.
      destruct (finalize_clips senv state fs1 final_clips) as [fs2 effs].
      eexists _, _. split; [done|]. simpl. repeat (split; [done|]).
      split; [|done]. intros k. destruct (decide (k = k0)) as [->|Hk].
      * rewrite Hd, lookup_insert_eq. exists det'.
        split; [done|]. split; [done|]. split; [done|]. by intros Hna.
      * rewrite lookup_insert_ne by done.
        destruct (detectors (coordinator s) !! k) as [d|]; [|done].
        exists d. split; [done|]. split; [apply closed_at_most_refl|].
        by split.
    + eexists _, _. split; [done|]. repeat (split; [done|]).
      split; [|done]. intros k.
      destruct (detectors (coordinator s) !! k) as [d|] eqn:Hk; [|done].
      exists d. split; [done|]. split; [apply closed_at_most_refl|].
      split; [|done]. by intros ->.
  - eexists _, _. split; [done|]. repeat (split; [done|]).
    split; [|done]. intros k.
    destruct (detectors (coordinator s) !! k) as [d|] eqn:Hk; [|done].
    exists d. split; [done|]. split; [apply closed_at_most_refl|].
    split; [|done]. intros ->. congruence.
Qed.

Lemma shutdown_spec senv cams s :
  same_keys (coordinator s) ->
  exists s' effs,
    shutdown senv cams s = Some (s', effs)
    /\ accident_states (coordinator s') = accident_states (coordinator s)
    /\ cam_order (coordinator s') = cam_order (coordinator s)
    /\ active_cameras s' = active_cameras s
    /\ (forall k,
          match detectors (coordinator s) !! k with
          | Some d =>
              exists d', detectors (coordinator s') !! k = Some d'
                /\ closed_at_most d d'
                /\ (k ∈ cams -> k ∈ active_cameras s -> active_clip d' = None)
                /\ (k ∉ active_cameras s -> d' = d)
          | None => detectors (coordinator s') !! k = None
          end)
    /\ Forall (fun e => is_insert e = false /\ is_start_upload e = false) effs.
Proof.
  revert s. induction cams as [|k0 cams IH]; intros s Hkeys; simpl.
  - exists s, []. repeat (split; [done|]). split; [|done]. intros k.
    destruct (detectors (coordinator s) !! k) as [d|] eqn:Hk; [|done].
    exists d. split; [done|]. split; [apply closed_at_most_refl|].
    split; [|done]. by intros ?%elem_of_nil.
  - destruct (shutdown_cam_spec (senv k0) k0 s Hkeys)
      as (s1 & e1 & -> & A1 & A2 & A3 & A4 & A5).
    assert (Hkeys1 : same_keys (coordinator s1)).
    { destruct Hkeys as [[Hnd Hk] Hsame]. unfold same_keys, well_formed.
      rewrite A1, A2. split; [done|]. intros k. rewrite <- Hsame.
      specialize (A4 k).
      destruct (detectors (coordinator s) !! k) as [d|].
      - destruct A4 as (d' & -> & _). split; by eexists.
      - rewrite A4. done. }
    destruct (IH s1 Hkeys1) as (s2 & e2 & -> & B1 & B2 & B3 & B4 & B5).
    exists s2, (e1 ++ e2). split; [done|].
    split; [congruence|]. split; [congruence|]. split; [congruence|].
    split; [|by apply Forall_app].
    intros k. specialize (A4 k). specialize (B4 k).
    destruct (detectors (coordinator s) !! k) as [d|].
    + destruct A4 as (d1 & Hd1 & Hc1 & Hn1 & Hs1). rewrite Hd1 in B4.
      destruct B4 as (d2 & Hd2 & Hc2 & Hn2 & Hs2). rewrite A3 in Hn2, Hs2.
      exists d2. split; [done|].
      split; [by apply (closed_at_most_trans d d1 d2)|]. split.
      * intros Hin Hact. apply elem_of_cons in Hin as [->|Hin]; [|by apply Hn2].
        destruct Hc2 as (_ & _ & _ & _ & _ & [-> | ->]); [by apply Hn1 | done].
      * intros Hna. rewrite (Hs2 Hna). by apply Hs1.
    + by rewrite A4 in B4.
Qed.

(** X16.  The [finally] block.  After a session whose two dicts have
    the same keys, the clean-up loop raises no [KeyError]; it closes the
    window of every camera that sent a frame and leaves the detectors of
    the others untouched; it changes no camera state (an active camera
    stays active), creates no record and starts no child process: its
    uploads run in the main process. *)
Theorem shutdown_closes_every_window senv s :
  same_keys (coordinator s) ->
  exists s' effs,
    shutdown senv (cam_order (coordinator s)) s = Some (s', effs)
    /\ accident_states (coordinator s') = accident_states (coordinator s)
    /\ (forall k d, detectors (coordinator s) !! k = Some d ->
          exists d', detectors (coordinator s') !! k = Some d'
            /\ closed_at_most d d'
            /\ (k ∈ active_cameras s -> active_clip d' = None)
            /\ (k ∉ active_cameras s -> d' = d))
    /\ Forall (fun e => is_insert e = false /\ is_start_upload e = false) effs.
Proof.
  intros Hkeys.
  destruct (shutdown_spec senv (cam_order (coordinator s)) s Hkeys)
    as (s' & effs & E & H1 & _ & _ & H4 & H5).
  exists s', effs. split; [done|]. split; [done|]. split; [|done].
  intros k d Hd. specialize (H4 k). rewrite Hd in H4.
  destruct H4 as (d' & Hd' & Hc & Hn & Hs).
  exists d'. split; [done|]. split; [done|]. split; [|done].
  apply Hn. destruct Hkeys as [[_ Hk] Hsame].
  apply Hk, Hsame. by rewrite Hd.
Qed.

Lemma detectors_is_Some (c c' : Coordinator Frame) k :
  match detectors c !! k with
  | Some d => exists d', detectors c' !! k = Some d' /\ closed_at_most d d'
  | None => detectors c' !! k = None
  end ->
  is_Some (detectors c' !! k) <-> is_Some (detectors c !! k).
Proof.
  destruct (detectors c !! k) as [d|].
  - intros (d' & -> & _). split; by eexists.
  - by intros ->.
Qed.

Lemma tick_same_keys env cam frame c :
  same_keys c -> same_keys (tick model env cam frame c).1.
Proof.
  intros [Hwf Hsame]. split; [by apply tick_well_formed|].
  destruct (tick_front model env cam frame c) as [[c2 e12]|] eqn:Hfront;
    [|unfold tick; rewrite Hfront; exact Hsame].
  rewrite (tick_unfold model env cam frame c c2 e12 Hfront). simpl.
  intros k.
  rewrite (detectors_is_Some c2 _ k)
    by apply (safety_net_detectors (safety env) (cam_order c2) c2 k).
  rewrite safety_net_keys.
  rewrite (tick_front_keys model env cam frame c c2 e12 k Hfront).
  rewrite <- Hsame. revert Hfront.
  destruct (detectors c !! cam) as [detector|] eqn:Hd;
    [|by rewrite tick_front_unknown by (by left)].
  destruct (accident_states c !! cam) as [state|] eqn:Hs;
    [|by rewrite tick_front_unknown by (by right)].
  rewrite (tick_front_known model env cam frame c detector state) by done.
  intros [= <- _]. simpl. rewrite lookup_insert_is_Some.
  split; [|destruct (decide (cam = k)); auto].
  intros [<- | [_ H]]; [by rewrite Hd | done].
Qed.

Lemma loop_same_keys polls s :
  same_keys (coordinator s) ->
  same_keys (coordinator (loop model polls s).1.1).
Proof.
  revert s. induction polls as [|p polls IH]; intros s Hk; simpl; [done|].
  assert (H1 : same_keys (coordinator (loop_step model p s).1.1)).
  { destruct p as [ret2 | env cam frame esc]; simpl; [done|].
    pose proof (tick_same_keys env cam frame (coordinator s) Hk) as Ht.
    destruct (tick_front model env cam frame (coordinator s)); [|done].
    by destruct (tick model env cam frame (coordinator s)). }
  destruct (loop_step model p s) as [[s1 e1] x]. simpl in H1.
  destruct x as [x|]; [done|].
  specialize (IH s1 H1). by destruct (loop model polls s1) as [[s2 e2] x2].
Qed.

(** X18.  A whole session.  After a start-up that got to the loop,
    whatever the loop receives in the iterations it completes, both
    dicts still have the same keys when the [finally] block runs, so the
    look-up [accident_states[cam_id]] of its clean-up loop raises no
    [KeyError] for any camera.  ([None] of [shutdown] stands for that
    [KeyError] only; other exceptions of the encoder or of the uploads
    are outside this statement.) *)
Theorem session_cleans_up env fs cameras_data c polls senv :
  setup env fs cameras_data = Ready c ->
  let s := (loop model polls (start c)).1.1 in
  same_keys (coordinator s)
  /\ is_Some (shutdown senv (cam_order (coordinator s)) s).
Proof.
  intros Hsetup s.
  destruct (setup_ready env fs cameras_data c Hsetup) as [Hkeys _ _ _ _].
  assert (Hk : same_keys (coordinator s)) by (by apply loop_same_keys).
  split; [done|].
  destruct (shutdown_spec senv (cam_order (coordinator s)) s Hk)
    as (s' & effs & -> & _). by eexists.
Qed.

End SessionFacts.

(** * The content of a clip *)

Section WindowContent.

Context {Frame : Type}.
Variable model : Frame -> list Q.
Implicit Types (d : AccidentDetector Frame) (w : ClipWindow Frame).

Lemma newest_in_buffer fps0 d history frame now :
  1 <= fps0 -> detector_inv fps0 d -> holds_latest d history ->
  (frame, frame_id d + 1)
  ∈ Deque.items (frame_buffer (process_frame model d frame now).1).
Proof.
  intros Hfps Hinv Hh.
  assert (Hm : 0 <= Deque.maxlen (frame_buffer d))
    by (rewrite (inv_maxlen _ _ Hinv); lia).
  pose proof (process_frame_holds_latest model d history frame now Hm Hh)
    as [Hitems _].
  pose proof (process_frame_inv model fps0 d frame now Hinv) as Hinv1.
  rewrite Hitems, (inv_maxlen _ _ Hinv1), numbered_snoc. unfold last_n.
  apply list_elem_of_lookup.
  exists (length history `min` (Z.to_nat (fps0 * 20) - 1))%nat.
  rewrite lookup_drop, length_app. simpl.
  destruct Hh as [_ Hid]. rewrite Hid, numbered_length.
  rewrite lookup_app_r by (rewrite numbered_length; lia).
  rewrite numbered_length.
  replace (_ - length history)%nat with 0%nat by lia. simpl.
  by rewrite Z.add_0_l.
Qed.

Lemma collect_reaches buf w n (f : Frame) :
  (forall e, e ∈ buf -> e.2 <= n) -> (f, n) ∈ buf ->
  clip_start w <= n <= clip_end w -> clip_last w <= n ->
  clip_last (collect buf w) = n.
Proof.
  intros Hall Hin Hrange Hlast.
  pose proof (collect_exhausts buf w _ Hin) as Hex.
  pose proof (collect_last_le buf w n Hall Hlast) as Hub.
  destruct (collect_bounds buf w) as [Hs He].
  unfold in_window in Hex. rewrite Hs, He in Hex. simpl in Hex.
  destruct (Z.leb_spec (clip_start w) n); [|lia].
  destruct (Z.leb_spec n (clip_end w)); [|lia].
  simpl in Hex. apply Z.ltb_ge in Hex. lia.
Qed.

Lemma filter_newest (m : nat) (history : list Frame) frame :
  (1 <= m)%nat ->
  List.filter (fun e : Frame * Z => Z.of_nat (length history) + 1 <=? e.2)
    (last_n m (numbered 0 (history ++ [frame])))
  = [(frame, Z.of_nat (length history) + 1)].
Proof.
  intros Hm. unfold last_n. rewrite filter_ge_drop_numbered.
  rewrite numbered_length, length_app. simpl.
  replace (Nat.max _ _) with (length (numbered 0 history))
    by (rewrite numbered_length; lia).
  rewrite numbered_snoc, drop_app_length. by rewrite Z.add_0_l.
Qed.

Lemma feed_holds_segment env fs fps0 d history frame now :
  1 <= fps0 -> detector_inv fps0 d ->
  holds_latest d history -> holds_segment d history ->
  holds_segment (feed model env fs d frame now).1.2 (history ++ [frame]).
Proof.
  intros Hfps Hinv Hh Hseg.
  destruct ((feed model env fs d frame now).1.1.1) as [|ev evs] eqn:Hev.
  - (* no trigger: the window, if any, takes the new frame or closes *)
    revert Hev. unfold feed.
    pose proof (newest_in_buffer fps0 d history frame now Hfps Hinv Hh) as Hin.
    pose proof (process_frame_inv model fps0 d frame now Hinv) as Hinv1.
    pose proof (process_frame_frame_id model d frame now) as Hid1.
    assert (Hm : 0 <= Deque.maxlen (frame_buffer d))
      by (rewrite (inv_maxlen _ _ Hinv); lia).
    pose proof (process_frame_holds_latest model d history frame now Hm Hh)
      as [Hitems _].
    pose proof (process_frame_no_event_slot model d frame now) as Hslot.
    destruct (process_frame model d frame now) as [d1 events]. simpl in *.
    intros Hev.
    assert (Hnil : events = [])
      by (revert Hev; by destruct (handle_clip env fs d1 false) as [[? ?] ?]).
    clear Hev. specialize (Hslot Hnil).
    destruct (active_clip d) as [w|] eqn:Hw.
    + destruct (Hseg w Hw) as ([Hs He] & Hfr & Hl).
      rewrite (handle_clip_open d1 w env fs false Hslot).
      unfold holds_segment.
      destruct (Z.ltb_spec (clip_end w) (frame_id d1)) as [Hlt|Hge]; simpl.
      * by intros w' [=].
      * intros w' [= <-].
        set (buf := Deque.items (frame_buffer d1)) in *.
        destruct (collect_bounds buf w) as [-> ->].
        assert (Hle : forall e, e ∈ buf -> 1 <= e.2 <= frame_id d + 1).
        { intros e He'. rewrite <- Hid1. by apply (inv_positive fps0). }
        split; [lia|]. split.
        -- rewrite collect_frames by (by apply (inv_sorted fps0)).
           rewrite (filter_ext_in _
             (fun e : Frame * Z => Z.of_nat (length history) + 1 <=? e.2)).
           ++ rewrite Hitems, filter_newest
                by (rewrite (inv_maxlen _ _ Hinv1); lia).
              simpl. rewrite Hfr. destruct Hh as [_ Hidd].
              rewrite drop_app_le by lia. done.
           ++ intros e He'. apply list_elem_of_In in He'.
              specialize (Hle e He'). destruct Hh as [_ Hidd].
              unfold in_window. rewrite Hl, <- Hidd.
              destruct (Z.leb_spec (clip_start w) e.2);
                destruct (Z.leb_spec e.2 (clip_end w));
                destruct (Z.ltb_spec (frame_id d) e.2);
                destruct (Z.leb_spec (frame_id d + 1) e.2);
                simpl; first [done | lia].
        -- rewrite Hid1.
           apply (collect_reaches buf w (frame_id d + 1) frame);
             [intros e He'; apply (Hle e He') | done | lia | lia].
    + rewrite handle_clip_closed by done. unfold holds_segment. simpl.
      intros w'. by rewrite Hslot.
  - (* a trigger: the new window takes the pre-roll *)
    assert (Hne : (feed model env fs d frame now).1.1.1 <> [])
      by (by rewrite Hev).
    destruct (trigger_pre_roll model env fs fps0 d history frame now
                Hfps Hinv Hh Hne) as (_ & _ & Hclip).
    unfold holds_segment. intros w. rewrite Hclip. intros [= <-]. simpl.
    destruct (handle_clip_detector env fs (process_frame model d frame now).1
                false) as (_ & Hid & _).
    assert (Hfid : frame_id (feed model env fs d frame now).1.2 = frame_id d + 1).
    { unfold feed.
      pose proof (process_frame_frame_id model d frame now) as Hid1.
      destruct (process_frame model d frame now) as [d1 events]. simpl in *.
      destruct (handle_clip env fs d1 false) as [[? ?] ?]. simpl in *.
      congruence. }
    rewrite Hfid. split; [lia|]. split; [|done].
    unfold last_n. f_equal. destruct Hh as [_ Hidd].
    rewrite length_app. simpl. lia.
Qed.

Lemma feeds_holds_segment env fs fps0 d history inputs :
  1 <= fps0 -> detector_inv fps0 d ->
  holds_latest d history -> holds_segment d history ->
  let d' := (feeds model env fs d inputs).1.2 in
  detector_inv fps0 d' /\ holds_latest d' (history ++ inputs.*1)
  /\ holds_segment d' (history ++ inputs.*1).
Proof.
  intros Hfps. revert fs d history.
  induction inputs as [|[frame now] rest IH]; intros fs d history Hinv Hh Hseg.
  - simpl. by rewrite app_nil_r.
  - simpl.
    assert (Hm : 0 <= Deque.maxlen (frame_buffer d))
      by (rewrite (inv_maxlen _ _ Hinv); lia).
    destruct (feed_holds_latest model env fs d history frame now Hm Hh)
      as [Hh1 _].
    pose proof (feed_holds_segment env fs fps0 d history frame now
                  Hfps Hinv Hh Hseg) as Hseg1.
    assert (Hinv1 : detector_inv fps0 (feed model env fs d frame now).1.2).
    { unfold feed.
      pose proof (process_frame_inv model fps0 d frame now Hinv) as H1.
      destruct (process_frame model d frame now) as [d1 events]. simpl in H1.
      pose proof (handle_clip_inv fps0 d1 env fs false H1) as H2.
      by destruct (handle_clip env fs d1 false) as [[? ?] ?]. }
    destruct (feed model env fs d frame now) as [[[events ready] d1] fs1].
    simpl in Hh1, Hseg1, Hinv1.
    pose proof (IH fs1 d1 (history ++ [frame]) Hinv1 Hh1 Hseg1) as H.
    destruct (feeds model env fs1 d1 rest) as [[log d2] fs2]. simpl in *.
    by rewrite <- app_assoc in H.
Qed.

Lemma init_holds_segment fps0 d : init fps0 = Some d -> holds_segment d [].
Proof.
  unfold init. destruct (Deque.new _); [|done]. intros [= <-]. by intros w.
Qed.

(** X19.  What an open window holds.  With FPS >= 1 and [handle_clip()]
    called after every frame, a window that is open after the camera's
    [inputs] holds exactly the frames from sequence number [start] on
    (from the first frame when [start] is below 1), in order, the newest
    frame last; the newest sequence number is inside the window. *)
Theorem open_window_holds_frames_from_start env fs fps0 d0 inputs w :
  1 <= fps0 ->
  init fps0 = Some d0 ->
  let d := (feeds model env fs d0 inputs).1.2 in
  active_clip d = Some w ->
  frame_id d = Z.of_nat (length inputs)
  /\ clip_start w <= frame_id d <= clip_end w
  /\ clip_frames w = drop (Z.to_nat (clip_start w - 1)) inputs.*1
  /\ clip_last w = frame_id d.
Proof.
  intros Hfps Hinit d Hw.
  destruct (init_holds_latest fps0 d0 Hinit) as (Hh & _ & _).
  destruct (feeds_holds_segment env fs fps0 d0 [] inputs Hfps
              (init_inv fps0 d0 Hinit) Hh (init_holds_segment fps0 d0 Hinit))
    as (_ & [_ Hid] & Hseg).
  fold d in Hid, Hseg. simpl in Hid, Hseg. rewrite length_fmap in Hid.
  destruct (Hseg w Hw) as (H1 & H2 & H3). done.
Qed.

(** X20.  What a finished clip holds.  With FPS >= 1, when the window
    is open and the newest sequence number is its end, the next frame,
    if it does not trigger, closes the window: that [handle_clip()] call
    collects nothing more and hands [write_clip] the frames numbered
    from [start] (or 1) to [end], which are all the camera gave in that
    range, and reports the path [write_clip] returns. *)
Theorem closing_frame_writes_whole_window env fs fps0 d0 inputs frame now w :
  1 <= fps0 ->
  init fps0 = Some d0 ->
  let before := feeds model env fs d0 inputs in
  let r := feed model env before.2 before.1.2 frame now in
  active_clip before.1.2 = Some w ->
  frame_id before.1.2 = clip_end w ->
  r.1.1.1 = [] ->
  r.1.1.2 = ready_of (write_clip env before.2 w).1
  /\ r.2 = (write_clip env before.2 w).2
  /\ active_clip r.1.2 = None
  /\ clip_frames w = drop (Z.to_nat (clip_start w - 1)) inputs.*1
  /\ Z.of_nat (length (clip_frames w))
     = clip_end w - Z.max 1 (clip_start w) + 1.
Proof.
  intros Hfps Hinit before r Hw Hend Hev.
  destruct (init_holds_latest fps0 d0 Hinit) as (Hh0 & _ & _).
  destruct (feeds_holds_segment env fs fps0 d0 [] inputs Hfps
              (init_inv fps0 d0 Hinit) Hh0 (init_holds_segment fps0 d0 Hinit))
    as (Hinv & Hh & Hseg).
  fold before in Hinv, Hh, Hseg. simpl in Hh, Hseg.
  destruct (Hseg w Hw) as ([Hs He] & Hfr & Hl).
  assert (Hlen : Z.of_nat (length (clip_frames w))
                 = clip_end w - Z.max 1 (clip_start w) + 1).
  { rewrite Hfr, length_drop, length_fmap. destruct Hh as [_ Hid].
    rewrite length_fmap in Hid. lia. }
  revert Hev. unfold r, feed.
  pose proof (process_frame_inv model fps0 _ frame now Hinv) as Hinv1.
  pose proof (process_frame_frame_id model before.1.2 frame now) as Hid1.
  pose proof (process_frame_no_event_slot model before.1.2 frame now) as Hslot.
  destruct (process_frame model before.1.2 frame now) as [d1 events].
  simpl in *. intros Hev.
  assert (Hnil : events = [])
    by (revert Hev; by destruct (handle_clip env before.2 d1 false) as [[? ?] ?]).
  clear Hev. specialize (Hslot Hnil). rewrite Hw in Hslot.
  rewrite (handle_clip_open d1 w env before.2 false Hslot).
  assert (Hsame : collect (Deque.items (frame_buffer d1)) w = w).
  { apply collect_nothing. intros e He'.
    pose proof (inv_positive fps0 d1 e Hinv1 He') as Hb.
    unfold in_window. rewrite Hl.
    destruct (Z.leb_spec e.2 (clip_end w));
      destruct (Z.ltb_spec (frame_id before.1.2) e.2);
      rewrite ?andb_false_r; simpl; first [done | lia]. }
  rewrite Hsame.
  destruct (Z.ltb_spec (clip_end w) (frame_id d1)) as [_|Hge]; [|lia].
  simpl. by destruct (write_clip env before.2 w).
Qed.

End WindowContent.

(** * The properties on concrete cameras *)

Section Checks.

Import Session.

Lemma handle_clip_after_finalize_witness :
  let d1 := (handle_clip Examples.enc_ok ∅ Examples.slow_camera true).1.2 in
  let d2 := (process_frames Examples.yolo d1 [(Examples.blank, 120%Q)]).1 in
  Forall (fun evs => evs = [])
    (process_frames Examples.yolo d1 [(Examples.blank, 120%Q)]).2
  /\ frame_id d2 = 6
  /\ handle_clip Examples.enc_ok ∅ d2 true = ([], d2, ∅).
Proof.
  intros d1 d2.
  assert (H : Forall (fun evs : list Event => evs = [])
                (process_frames Examples.yolo d1 [(Examples.blank, 120%Q)]).2)
    by (vm_compute; repeat constructor).
  split; [exact H|]. split; [vm_compute; reflexivity|].
  subst d2 d1.
  exact (proj2 (handle_clip_after_finalize Examples.yolo Examples.enc_ok ∅
                  Examples.slow_camera [(Examples.blank, 120%Q)]
                  Examples.enc_ok ∅ true H)).
Defined.

Lemma handle_clip_collects_once_witness :
  let d := (process_frame Examples.yolo Examples.early_pending
              Examples.hit 102).1 in
  let d1 := (handle_clip Examples.enc_ok ∅ d false).1.2 in
  active_clip d = Some (fresh_window 25 3)
  /\ frame_id d <= clip_end (fresh_window (Frame := list Q) 25 3)
  /\ (clip_frames <$> active_clip d1)
     = Some [Examples.hit; Examples.hit; Examples.hit]
  /\ handle_clip Examples.enc_ok ∅ d1 false = ([], d1, ∅).
Proof.
  intros d d1.
  assert (Hw : active_clip d = Some (fresh_window 25 3))
    by (vm_compute; reflexivity).
  assert (Hle : frame_id d <= clip_end (fresh_window (Frame := list Q) 25 3))
    by (vm_compute; discriminate).
  split; [exact Hw|]. split; [exact Hle|]. split; [vm_compute; reflexivity|].
  destruct (handle_clip_collects_once Examples.enc_ok ∅ d _
              Examples.enc_ok ∅ Hw Hle) as (_ & _ & H & _).
  exact H.
Defined.


Lemma buffer_holds_latest_frames_witness :
  let inputs := replicate 21 (Examples.blank, 0%Q) ++ [(Examples.hit, 1%Q)] in
  let d := (feeds Examples.yolo Examples.enc_ok ∅ (Examples.fresh 1) inputs).1.2 in
  init 1 = Some (Examples.fresh 1)
  /\ Deque.items (frame_buffer d)
     = last_n (Z.to_nat (1 * 20)) (numbered 0 inputs.*1)
  /\ head (Deque.items (frame_buffer d)) = Some (Examples.blank, 3)
  /\ last (Deque.items (frame_buffer d)) = Some (Examples.hit, 22).
Proof.
  intros inputs d.
  assert (Hinit : init 1 = Some (Examples.fresh 1)) by reflexivity.
  split; [exact Hinit|].
  split; [|split; vm_compute; reflexivity].
  subst d inputs.
  exact (proj1 (buffer_holds_latest_frames Examples.yolo Examples.enc_ok ∅ 1
                  (Examples.fresh 1) _ Hinit)).
Defined.

Lemma trigger_collects_pre_roll_witness :
  let before :=
    feeds Examples.yolo Examples.enc_ok ∅ (Examples.fresh 1)
      (replicate 7 (Examples.blank, 0%Q)
       ++ [(Examples.hit, 100%Q); (Examples.hit, 101%Q)]) in
  let r := feed Examples.yolo Examples.enc_ok before.2 before.1.2
             Examples.hit 102 in
  1 <= 1
  /\ init 1 = Some (Examples.fresh 1)
  /\ r.1.1.1 = [Accident 102]
  /\ active_clip r.1.2
     = Some {| clip_start := 5; clip_end := 15;
               clip_frames :=
                 [Examples.blank; Examples.blank; Examples.blank;
                  Examples.hit; Examples.hit; Examples.hit];
               clip_last := 10 |}.
Proof.
  intros before r.
  assert (Hinit : init 1 = Some (Examples.fresh 1)) by reflexivity.
  assert (Hne : r.1.1.1 <> []) by (vm_compute; discriminate).
  split; [lia|]. split; [exact Hinit|]. split; [vm_compute; reflexivity|].
  subst r before.
  destruct (trigger_collects_pre_roll Examples.yolo Examples.enc_ok ∅ 1
              (Examples.fresh 1) _ Examples.hit 102 ltac:(lia) Hinit Hne)
    as (_ & _ & H).
  rewrite H. vm_compute. reflexivity.
Defined.

Lemma queue_never_exceeds_maxsize_witness :
  exists s',
    0 < 20
    /\ Tracker.run_schedule Examples.race
         (TrackerApi.start_threads 20 (fun _ => true)
            [("cam0"%string, replicate 30 Examples.blank);
             ("cam1"%string, replicate 30 Examples.blank)]) = Some s'
    /\ length (Tracker.qitems (Tracker.frame_queue s')) = 20%nat
    /\ Z.of_nat (length (Tracker.qitems (Tracker.frame_queue s'))) <= 20.
Proof.
  destruct (Tracker.run_schedule Examples.race
              (TrackerApi.start_threads 20 (fun _ => true)
                 [("cam0"%string, replicate 30 Examples.blank);
                  ("cam1"%string, replicate 30 Examples.blank)]))
    as [s'|] eqn:E; [|vm_compute in E; discriminate].
  exists s'. split; [lia|]. split; [reflexivity|].
  destruct (queue_never_exceeds_maxsize 20 (fun _ => true) _ _ s'
              ltac:(lia) E) as [_ H].
  split; [|exact H].
  vm_compute in E. injection E as <-. reflexivity.
Defined.

Lemma stopped_tracker_gives_no_frame_witness :
  exists s',
    Tracker.run_schedule [Tracker.Run 1 3%Q; Tracker.GetFrame]
      (TrackerApi.stop Examples.after_race) = Some s'
    /\ length (Tracker.qitems (Tracker.frame_queue s')) = 1%nat
    /\ TrackerApi.get_frame s' = (None, s').
Proof.
  destruct (Tracker.run_schedule [Tracker.Run 1 3%Q; Tracker.GetFrame]
              (TrackerApi.stop Examples.after_race))
    as [s'|] eqn:E; [|vm_compute in E; discriminate].
  exists s'. split; [reflexivity|].
  destruct (stopped_tracker_gives_no_frame _ _ s' E) as (_ & H & _).
  split; [|exact H].
  vm_compute in E. injection E as <-. reflexivity.
Defined.

Lemma camera_frames_arrive_in_order_witness :
  exists log s',
    NoDup Examples.marked_sources.*1
    /\ TrackerLog.run_logged Examples.interleaved
         (TrackerApi.start_threads 1 (fun _ => true) Examples.marked_sources)
       = Some (log, s')
    /\ TrackerLog.frames_of "cam1" log = [[0.6%Q]]
    /\ TrackerLog.frames_of "cam1" log
       ++ TrackerApi.queued_of "cam1" (Tracker.frame_queue s')
       `sublist_of` [[0.5%Q]; [0.6%Q]].
Proof.
  assert (Hnd : NoDup Examples.marked_sources.*1).
  { apply (bool_decide_unpack _). vm_compute. exact I. }
  destruct (TrackerLog.run_logged Examples.interleaved
              (TrackerApi.start_threads 1 (fun _ => true)
                 Examples.marked_sources))
    as [[log s']|] eqn:E; [|vm_compute in E; discriminate].
  exists log, s'. split; [exact Hnd|]. split; [reflexivity|].
  pose proof (camera_frames_arrive_in_order 1 (fun _ => true)
                Examples.marked_sources Examples.interleaved log s'
                "cam1" [[0.5%Q]; [0.6%Q]] Hnd
                ltac:(apply list_elem_of_further, list_elem_of_here)
                eq_refl E) as H.
  split; [|exact H].
  vm_compute in E. injection E as <- <-. vm_compute. reflexivity.
Defined.

Lemma encode_then_upload_leaves_no_file_witness :
  let fs : FS := {[ "events/ACCIDENT_900.mp4"%string ]} in
  let w := write_clip Examples.enc_ok fs Examples.one_frame in
  w.1 = Some "events/ACCIDENT_1000.mp4"%string
  /\ path_exists w.2 "events/ACCIDENT_1000.mp4" = true
  /\ (Uploader.upload_clip_async Examples.upload_fine w.2
        "events/ACCIDENT_1000.mp4" 7).1 = fs.
Proof.
  intros fs w.
  assert (Hp : w.1 = Some "events/ACCIDENT_1000.mp4"%string)
    by (vm_compute; reflexivity).
  split; [exact Hp|]. split; [vm_compute; reflexivity|].
  subst w.
  destruct (encode_then_upload_leaves_no_file Examples.enc_ok fs
              Examples.one_frame Examples.upload_fine 7
              "events/ACCIDENT_1000.mp4" "https://videos/accident.mp4" Hp)
    as [_ H].
  - apply (bool_decide_unpack _). vm_compute. exact I.
  - apply (bool_decide_unpack _). vm_compute. exact I.
  - reflexivity.
  - reflexivity.
  - exact (proj2 (H eq_refl)).
Defined.

Lemma states_stay_consistent_witness :
  exists st,
    accident_states
      (run Examples.yolo
         [Examples.frame_a 1000 Examples.hit;
          Examples.frame_a 1001 Examples.hit;
          Examples.frame_a 1002 Examples.hit] Examples.two_idle).1
      !! "a.mp4"%string = Some st
    /\ accident_id st = Some 7
    /\ Session.consistent st /\ active_id st = accident_id st.
Proof.
  assert (Hall : forall k st,
            accident_states Examples.two_idle !! k = Some st ->
            Session.consistent st).
  { intros k st. unfold Examples.two_idle. simpl.
    rewrite lookup_insert_Some, lookup_singleton_Some.
    intros [[_ <-] | [_ [_ <-]]]; by right. }
  destruct (accident_states
              (run Examples.yolo
                 [Examples.frame_a 1000 Examples.hit;
                  Examples.frame_a 1001 Examples.hit;
                  Examples.frame_a 1002 Examples.hit] Examples.two_idle).1
              !! "a.mp4"%string) as [st|] eqn:E;
    [|vm_compute in E; discriminate].
  exists st. split; [reflexivity|].
  pose proof (states_stay_consistent Examples.yolo _ Examples.two_idle Hall
                "a.mp4"%string st E) as H.
  split; [|exact H].
  vm_compute in E. injection E as <-. reflexivity.
Defined.

Lemma tick_leaves_other_cameras_witness :
  let c' := (tick Examples.yolo (Examples.env_at 1060 (Some 9) Examples.enc_ok)
               "a.mp4" Examples.blank Examples.both_open).1 in
  "b.mp4"%string <> "a.mp4"%string
  /\ (frame_id <$> detectors Examples.both_open !! "b.mp4"%string) = Some 3
  /\ (frame_id <$> detectors c' !! "b.mp4"%string) = Some 3
  /\ (active <$> accident_states c' !! "b.mp4"%string) = Some false
  /\ match detectors Examples.both_open !! "b.mp4"%string with
     | Some d => exists d', detectors c' !! "b.mp4"%string = Some d'
                            /\ closed_at_most d d'
     | None => detectors c' !! "b.mp4"%string = None
     end.
Proof.
  intros c'.
  assert (Hne : "b.mp4"%string <> "a.mp4"%string) by discriminate.
  split; [exact Hne|].
  split; [vm_compute; reflexivity|]. split; [vm_compute; reflexivity|].
  split; [vm_compute; reflexivity|].
  subst c'.
  exact (proj1 (tick_leaves_other_cameras Examples.yolo
                  (Examples.env_at 1060 (Some 9) Examples.enc_ok)
                  "a.mp4" Examples.blank Examples.both_open "b.mp4" Hne)).
Defined.

Lemma never_fed_same_keys : same_keys Examples.never_fed.
Proof.
  split; [by apply two_keys_well_formed|].
  intros k. unfold Examples.never_fed. simpl.
  destruct (decide ("a.mp4"%string = k)) as [<-|Ha];
    [rewrite !lookup_insert_eq; split; by eexists|].
  rewrite !lookup_insert_ne by done.
  destruct (decide ("b.mp4"%string = k)) as [<-|Hb];
    [rewrite !lookup_singleton_eq; split; by eexists|].
  by rewrite !lookup_singleton_ne.
Qed.

Lemma shutdown_closes_every_window_witness :
  exists s' effs,
    same_keys (coordinator Examples.a_was_active)
    /\ shutdown Examples.final_env
         (cam_order (coordinator Examples.a_was_active))
         Examples.a_was_active = Some (s', effs)
    /\ effs = []
    /\ (active_clip <$> detectors (coordinator s') !! "a.mp4"%string)
       = Some None
    /\ accident_states (coordinator s')
       = accident_states (coordinator Examples.a_was_active).
Proof.
  pose proof never_fed_same_keys as Hk.
  destruct (shutdown_closes_every_window Examples.final_env
              Examples.a_was_active Hk) as (s' & effs & E & Hst & _).
  exists s', effs. split; [exact Hk|]. split; [exact E|].
  split; [|split; [|exact Hst]].
  - vm_compute in E. injection E as _ <-. reflexivity.
  - vm_compute in E. injection E as <- _. vm_compute. reflexivity.
Defined.

Lemma session_cleans_up_witness :
  exists c,
    setup Examples.only_a_opens ∅ [Examples.cam_a; Examples.cam_b] = Ready c
    /\ cam_order c = ["a.mp4"%string]
    /\ let s := (loop Examples.yolo Examples.short_session (start c)).1.1 in
       frame_count s = 4
       /\ same_keys (coordinator s)
       /\ is_Some (shutdown Examples.final_env (cam_order (coordinator s)) s).
Proof.
  destruct (setup (Frame := list Q) Examples.only_a_opens ∅
              [Examples.cam_a; Examples.cam_b]) as [| |c] eqn:E;
    [vm_compute in E; discriminate | vm_compute in E; discriminate |].
  exists c. split; [reflexivity|].
  pose proof (session_cleans_up Examples.yolo Examples.only_a_opens ∅
                [Examples.cam_a; Examples.cam_b] c Examples.short_session
                Examples.final_env E) as H.
  vm_compute in E. injection E as <-.
  split; [reflexivity|]. split; [vm_compute; reflexivity|]. exact H.
Defined.

Lemma open_window_holds_frames_from_start_witness :
  exists w,
    let d := (feeds Examples.yolo Examples.enc_ok ∅ (Examples.fresh 1)
                (replicate 7 (Examples.blank, 0%Q)
                 ++ [(Examples.hit, 100%Q); (Examples.hit, 101%Q);
                     (Examples.hit, 102%Q); (Examples.weak, 103%Q)])).1.2 in
    1 <= 1
    /\ init 1 = Some (Examples.fresh 1)
    /\ active_clip d = Some w
    /\ clip_start w = 5
    /\ clip_frames w
       = [Examples.blank; Examples.blank; Examples.blank;
          Examples.hit; Examples.hit; Examples.hit; Examples.weak]
    /\ clip_frames w
       = drop (Z.to_nat (clip_start w - 1))
           (replicate 7 (Examples.blank, 0%Q)
            ++ [(Examples.hit, 100%Q); (Examples.hit, 101%Q);
                (Examples.hit, 102%Q); (Examples.weak, 103%Q)]).*1.
Proof.
  assert (Hinit : init 1 = Some (Examples.fresh 1)) by reflexivity.
  destruct (active_clip
              (feeds Examples.yolo Examples.enc_ok ∅ (Examples.fresh 1)
                 (replicate 7 (Examples.blank, 0%Q)
                  ++ [(Examples.hit, 100%Q); (Examples.hit, 101%Q);
                      (Examples.hit, 102%Q); (Examples.weak, 103%Q)])).1.2)
    as [w|] eqn:Hw; [|vm_compute in Hw; discriminate].
  exists w. cbv zeta. split; [lia|]. split; [exact Hinit|].
  split; [exact Hw|].
  destruct (open_window_holds_frames_from_start Examples.yolo Examples.enc_ok
              ∅ 1 (Examples.fresh 1) _ w ltac:(lia) Hinit Hw)
    as (_ & _ & H & _).
  split; [|split; [|exact H]];
    vm_compute in Hw; injection Hw as <-; reflexivity.
Defined.

Lemma closing_frame_writes_whole_window_witness :
  exists w,
    let before := feeds Examples.yolo Examples.enc_ok ∅ (Examples.fresh 1)
                    Examples.to_window_end in
    let r := feed Examples.yolo Examples.enc_ok before.2 before.1.2
               Examples.blank 108 in
    init 1 = Some (Examples.fresh 1)
    /\ active_clip before.1.2 = Some w
    /\ frame_id before.1.2 = clip_end w
    /\ r.1.1.1 = []
    /\ r.1.1.2 = [ClipReady "events/ACCIDENT_1000.mp4"]
    /\ r.1.1.2 = ready_of (write_clip Examples.enc_ok before.2 w).1
    /\ length (clip_frames w) = 8%nat.
Proof.
  assert (Hinit : init 1 = Some (Examples.fresh 1)) by reflexivity.
  destruct (active_clip
              (feeds Examples.yolo Examples.enc_ok ∅ (Examples.fresh 1)
                 Examples.to_window_end).1.2)
    as [w|] eqn:Hw; [|vm_compute in Hw; discriminate].
  exists w. cbv zeta.
  assert (Hend : frame_id (feeds Examples.yolo Examples.enc_ok ∅
                             (Examples.fresh 1) Examples.to_window_end).1.2
                 = clip_end w).
  { pose proof Hw as Hw'. vm_compute in Hw'. injection Hw' as <-.
    vm_compute. reflexivity. }
  assert (Hev : (feed Examples.yolo Examples.enc_ok
                   (feeds Examples.yolo Examples.enc_ok ∅ (Examples.fresh 1)
                      Examples.to_window_end).2
                   (feeds Examples.yolo Examples.enc_ok ∅ (Examples.fresh 1)
                      Examples.to_window_end).1.2
                   Examples.blank 108).1.1.1 = [])
    by (vm_compute; reflexivity).
  split; [exact Hinit|]. split; [exact Hw|]. split; [exact Hend|].
  split; [exact Hev|]. split; [vm_compute; reflexivity|].
  destruct (closing_frame_writes_whole_window Examples.yolo Examples.enc_ok
              ∅ 1 (Examples.fresh 1) Examples.to_window_end Examples.blank 108
              w ltac:(lia) Hinit Hw Hend Hev) as (H & _).
  split; [exact H|].
  vm_compute in Hw. injection Hw as <-. reflexivity.
Defined.

End Checks.
